(** * etcdserver: the replicated state machine core, embedded in Rocq

    A shallow embedding of
      - [pkg/idutil]   (request identifier generator),
      - [pkg/wait]     (wait registry),
      - [etcdserver]   cluster view ([Cluster]), apply engine ([run],
                       [apply], [applyRequest]), message [send], snapshot
                       and the request gateway ([Do]),
    together with the properties the specification states about them.

    Unsigned 64-bit integers are [Z] with the wrap-around written out
    ([u64]); Go maps are [gmap]; slices are lists; a Go panic
    ([log.Panicf]) is the [Panic] outcome of the [Go] result type. *)

From Stdlib Require Import ZArith Lia List Ascii String Sorting.Sorted Permutation.
From stdpp Require Import gmap strings list fin_maps sorting.

Local Open Scope Z_scope.

(** ** Machine integers *)

Definition u64 (x : Z) : Z := x mod 2 ^ 64.
Definition MaxUint64 : Z := 2 ^ 64 - 1.

(** ** pkg/idutil: the identifier generator *)

Module idutil.

Definition tsLen : Z := 5 * 8.
Definition cntLen : Z := 2 * 8.
Definition suffixLen : Z := tsLen + cntLen.

(** [lowbit x n = x & (math.MaxUint64 >> (64 - n))] *)
Definition lowbit (x n : Z) : Z := Z.land x (Z.shiftr MaxUint64 (64 - n)).

Record Generator := mkGenerator {
  prefix : Z;  (* high order byte *)
  suffix : Z   (* low order 7 bytes *)
}.

(** [memberID] is the [uint8]; [nowUnixNano] is the [int64] that
    [now.UnixNano()] returns, converted to [uint64] by the code. *)
Definition NewGenerator (memberID : Z) (nowUnixNano : Z) : Generator :=
  let prefix := u64 (Z.shiftl (memberID mod 2 ^ 8) suffixLen) in
  let unixMilli := u64 nowUnixNano / 1000000 in
  let suffix := u64 (Z.shiftl (lowbit unixMilli tsLen) cntLen) in
  mkGenerator prefix suffix.

(** [Next] returns the generator after [g.suffix++] and the id. *)
Definition Next (g : Generator) : Generator * Z :=
  let s := u64 (suffix g + 1) in
  (mkGenerator (prefix g) s, Z.lor (prefix g) (lowbit s suffixLen)).

(** The generator after [k] calls of [Next]. *)
Definition after (k : N) (g : Generator) : Generator :=
  N.iter k (fun g => fst (Next g)) g.

(** The id the call number [k] returns, calls numbered from 0. *)
Definition call (g : Generator) (k : N) : Z := snd (Next (after k g)).

End idutil.


(** ** Outcomes of Go code

    [Ret a] is a normal return, [Panic] a run-time panic or [log.Panicf],
    [Fatal] is [log.Fatalf] (the process exits), [Block] is a goroutine
    that waits forever on a channel operation. *)

Inductive Go (A : Type) : Type :=
| Ret (a : A)
| Panic
| Fatal
| Block.
Arguments Ret {A} a.
Arguments Panic {A}.
Arguments Fatal {A}.
Arguments Block {A}.

Definition bind {A B} (x : Go A) (f : A -> Go B) : Go B :=
  match x with
  | Ret a => f a
  | Panic => Panic
  | Fatal => Fatal
  | Block => Block
  end.

#[global] Instance Go_ret : MRet Go := @Ret.
#[global] Instance Go_bind : MBind Go := fun A B f x => bind x f.

(** ** pkg/wait: the wait registry *)

Module wait.
Section wait.
(** The values carried by the channels ([interface{}] in the code). *)
Context {V : Type}.

(** A Go channel: its buffer (oldest value first), its capacity and
    whether it has been closed. *)
Record Chan := mkChan {
  buf : list V;
  cap : nat;
  closed : bool
}.

(** [List.m] maps an id to the address of its channel; [chans] is the
    heap of allocated channels, addressed by position. The mutex [l]
    is the atomicity of [Register] and of [Trigger_locked]. *)
Record List := mkList {
  m : gmap Z nat;
  chans : list Chan
}.

Definition New : List := mkList ∅ [].

(** [make(chan interface{}, n)] *)
Definition make_chan (n : nat) (w : List) : List * nat :=
  (mkList (m w) (chans w ++ [mkChan [] n false]), length (chans w)).

Definition Register (id : Z) (w : List) : List * nat :=
  match m w !! id with
  | Some ch => (w, ch)
  | None =>
      let '(w', ch) := make_chan 1 w in
      (mkList (<[id := ch]> (m w')) (chans w'), ch)
  end.

(** [ch <- x] on a buffered channel (no receiver is parked on the
    channels of this package, whose capacity is 1). *)
Definition send (ch : nat) (x : V) (w : List) : Go List :=
  match chans w !! ch with
  | None => Block
  | Some c =>
      if closed c then Panic
      else if (length (buf c) <? cap c)%nat
           then Ret (mkList (m w)
                       (<[ch := mkChan (buf c ++ [x]) (cap c) false]> (chans w)))
           else Block
  end.

(** [close(ch)] *)
Definition close (ch : nat) (w : List) : Go List :=
  match chans w !! ch with
  | None => Panic
  | Some c =>
      if closed c then Panic
      else Ret (mkList (m w) (<[ch := mkChan (buf c) (cap c) true]> (chans w)))
  end.

(** [x, ok := <-ch]: [Some x] is a received value, [None] the zero
    value of a closed and drained channel. *)
Definition recv (ch : nat) (w : List) : Go (List * option V) :=
  match chans w !! ch with
  | None => Block
  | Some c =>
      match buf c with
      | x :: rest =>
          Ret (mkList (m w) (<[ch := mkChan rest (cap c) (closed c)]> (chans w)),
               Some x)
      | [] => if closed c then Ret (w, None) else Block
      end
  end.

(** The critical section of [Trigger]: [ch := w.m[id]; delete(w.m, id)]. *)
Definition Trigger_locked (id : Z) (w : List) : List * option nat :=
  (mkList (delete id (m w)) (chans w), m w !! id).

Definition Trigger (id : Z) (x : V) (w : List) : Go List :=
  let '(w1, och) := Trigger_locked id w in
  match och with
  | None => Ret w1
  | Some ch => w2 ← send ch x w1; close ch w2
  end.

(** *** Interleavings

    [Trigger] releases the mutex before it sends, so other goroutines
    run between its three steps. A configuration is the registry with
    the [Trigger] calls that have left the critical section. *)
Inductive pending :=
| PSend (ch : nat) (x : V)   (* about to run [ch <- x] *)
| PClose (ch : nat).         (* about to run [close(ch)] *)

Definition pchan (p : pending) : nat :=
  match p with PSend ch _ => ch | PClose ch => ch end.

Definition config : Type := List * list pending.

Inductive step : config -> config -> Prop :=
| step_Register id w p :
    step (w, p) (fst (Register id w), p)
| step_Trigger_locked id x w p :
    step (w, p)
         (fst (Trigger_locked id w),
          match snd (Trigger_locked id w) with
          | Some ch => PSend ch x :: p
          | None => p
          end)
| step_send ch x w w' p1 p2 :
    send ch x w = Ret w' ->
    step (w, p1 ++ PSend ch x :: p2) (w', p1 ++ PClose ch :: p2)
| step_close ch w w' p1 p2 :
    close ch w = Ret w' ->
    step (w, p1 ++ PClose ch :: p2) (w', p1 ++ p2)
| step_recv ch w w' r p :
    recv ch w = Ret (w', r) ->
    step (w, p) (w', p).

Inductive reachable : config -> Prop :=
| reachable_New : reachable (New, [])
| reachable_step c c' : reachable c -> step c c' -> reachable c'.

(** The invariant of the registry: a registered slot is an empty, open
    channel of capacity 1 that no other id and no pending [Trigger]
    holds; a pending send has an empty open channel, a pending close an
    open one; pending operations are on pairwise different channels. *)
Definition fresh_chan (w : List) (ch : nat) : Prop :=
  chans w !! ch = Some (mkChan [] 1 false).

Definition unregistered (w : List) (ch : nat) : Prop :=
  forall id, m w !! id <> Some ch.

Definition Inv (c : config) : Prop :=
  let '(w, p) := c in
  (forall id ch, m w !! id = Some ch -> fresh_chan w ch) /\
  (forall id1 id2 ch,
      m w !! id1 = Some ch -> m w !! id2 = Some ch -> id1 = id2) /\
  (forall ch x, PSend ch x ∈ p -> fresh_chan w ch /\ unregistered w ch) /\
  (forall ch, PClose ch ∈ p ->
      (exists c, chans w !! ch = Some c /\ closed c = false /\ cap c = 1%nat)
      /\ unregistered w ch) /\
  NoDup (pchan <$> p).

End wait.
Arguments Chan : clear implicits.
Arguments List : clear implicits.
Arguments pending : clear implicits.
Arguments config : clear implicits.
End wait.

(** ** encoding/binary and crypto/sha1 (Go standard library)

    Bytes are [Z] in [0, 256). *)

Module binary.

Definition byte (x : Z) : Z := x mod 256.

(** [binary.BigEndian.PutUint64(b[off:], v)]: the slice shares [b]'s
    array, so the eight bytes land in [b] at [off]. *)
Definition PutUint64 (b : list Z) (off : nat) (v : Z) : Go (list Z) :=
  if (length b <? off + 8)%nat then Panic
  else Ret (<[off + 7 := byte v]>
           (<[off + 6 := byte (Z.shiftr v 8)]>
           (<[off + 5 := byte (Z.shiftr v 16)]>
           (<[off + 4 := byte (Z.shiftr v 24)]>
           (<[off + 3 := byte (Z.shiftr v 32)]>
           (<[off + 2 := byte (Z.shiftr v 40)]>
           (<[off + 1 := byte (Z.shiftr v 48)]>
           (<[off := byte (Z.shiftr v 56)]> b))))))))%nat.

(** [binary.BigEndian.Uint64(b)] *)
Definition Uint64 (b : list Z) : Go Z :=
  match b with
  | b0 :: b1 :: b2 :: b3 :: b4 :: b5 :: b6 :: b7 :: _ =>
      Ret (Z.lor b7 (Z.lor (Z.shiftl b6 8) (Z.lor (Z.shiftl b5 16)
          (Z.lor (Z.shiftl b4 24) (Z.lor (Z.shiftl b3 32)
          (Z.lor (Z.shiftl b2 40) (Z.lor (Z.shiftl b1 48)
                 (Z.shiftl b0 56))))))))
  | _ => Panic
  end.

(** Big-endian notation, positionally: the [n] bytes of [v], most
    significant first, and the number that a byte string denotes. *)
Fixpoint be_bytes (n : nat) (v : Z) : list Z :=
  match n with
  | O => []
  | S n' => (v / 256 ^ Z.of_nat n') mod 256 :: be_bytes n' v
  end.

Definition be_value (bs : list Z) : Z :=
  fold_left (fun acc b => acc * 256 + b) bs 0.

End binary.

Module sha1.

Definition w32 (x : Z) : Z := x mod 2 ^ 32.

Definition rotl (n x : Z) : Z :=
  w32 (Z.lor (Z.shiftl x n) (Z.shiftr x (32 - n))).

Fixpoint words (bs : list Z) : list Z :=
  match bs with
  | b0 :: b1 :: b2 :: b3 :: rest =>
      (b0 * 2 ^ 24 + b1 * 2 ^ 16 + b2 * 2 ^ 8 + b3) :: words rest
  | _ => []
  end.

Definition bytes32 (x : Z) : list Z :=
  [Z.shiftr x 24 mod 256; Z.shiftr x 16 mod 256; Z.shiftr x 8 mod 256; x mod 256].

Definition pad (msg : list Z) : list Z :=
  let l := Z.of_nat (length msg) in
  let k := (55 - l) mod 64 in
  msg ++ [128] ++ replicate (Z.to_nat k) 0
      ++ bytes32 (Z.shiftr (8 * l) 32) ++ bytes32 (w32 (8 * l)).

(** The message schedule: 16 words extended to 80. *)
Fixpoint extend (n : nat) (w : list Z) : list Z :=
  match n with
  | O => w
  | S n' =>
      let t := length w in
      let x i := nth (t - i) w 0 in
      extend n' (w ++ [rotl 1 (Z.lxor (Z.lxor (x 3%nat) (x 8%nat))
                                      (Z.lxor (x 14%nat) (x 16%nat)))])
  end.

Definition f (t : nat) (b c d : Z) : Z :=
  if (t <? 20)%nat then Z.lor (Z.land b c) (Z.land (Z.lxor b (2 ^ 32 - 1)) d)
  else if (t <? 40)%nat then Z.lxor (Z.lxor b c) d
  else if (t <? 60)%nat
       then Z.lor (Z.lor (Z.land b c) (Z.land b d)) (Z.land c d)
  else Z.lxor (Z.lxor b c) d.

Definition K (t : nat) : Z :=
  if (t <? 20)%nat then 0x5A827999
  else if (t <? 40)%nat then 0x6ED9EBA1
  else if (t <? 60)%nat then 0x8F1BBCDC
  else 0xCA62C1D6.

Definition digest : Type := Z * Z * Z * Z * Z.

Definition round (h : digest) (tw : nat * Z) : digest :=
  let '(a, b, c, d, e) := h in
  let '(t, wt) := tw in
  (w32 (rotl 5 a + f t b c d + e + K t + wt), a, rotl 30 b, c, d).

Definition block (h : digest) (blk : list Z) : digest :=
  let w := extend 64 (words blk) in
  let '(a, b, c, d, e) := fold_left round (zip (seq 0 80) w) h in
  let '(h0, h1, h2, h3, h4) := h in
  (w32 (h0 + a), w32 (h1 + b), w32 (h2 + c), w32 (h3 + d), w32 (h4 + e)).

Fixpoint blocks (n : nat) (h : digest) (bs : list Z) : digest :=
  match n with
  | O => h
  | S n' => blocks n' (block h (take 64 bs)) (drop 64 bs)
  end.

Definition init : digest :=
  (0x67452301, 0xEFCDAB89, 0x98BADCFE, 0x10325476, 0xC3D2E1F0).

(** [sha1.Sum(data)]: the 20 bytes of the digest. *)
Definition Sum (data : list Z) : list Z :=
  let p := pad data in
  let '(h0, h1, h2, h3, h4) := blocks (length p / 64) init p in
  bytes32 h0 ++ bytes32 h1 ++ bytes32 h2 ++ bytes32 h3 ++ bytes32 h4.

End sha1.

(** ** Data of the server *)

Inductive error : Type :=
| ErrIDRemoved
| ErrIDExists
| ErrIDNotFound
| ErrPeerURLexists
| ErrUnknownMethod
| ErrStopped
| ErrCanceled
| ErrTimeout
| ErrSnapOutOfDate      (* raft.ErrSnapOutOfDate *)
| ErrCompacted          (* raft.ErrCompacted *)
| ErrStore (code : Z)   (* an error of the store, with its error code *)
| ErrOther (msg : string).

#[global] Instance error_eq_dec : EqDecision error.
Proof. solve_decision. Defined.

(** [RaftAttributes], [Attributes] and [Member] as the code uses them. *)
Record RaftAttributes := mkRaftAttributes { PeerURLs : list string }.
Record Attributes := mkAttributes { Name : string; ClientURLs : list string }.
Record Member := mkMember {
  ID : Z;
  raftAttributes : RaftAttributes;
  attributes : Attributes
}.

Module raftpb.

Inductive ConfChangeType :=
| ConfChangeAddNode
| ConfChangeRemoveNode
| ConfChangeUpdateNode
| ConfChangeOther (n : Z).   (* any other value of the int32 enum *)

Record ConfChange := mkConfChange {
  ID : Z;
  cc_Type : ConfChangeType;
  NodeID : Z;
  cc_Context : string
}.

Inductive EntryType :=
| EntryNormal
| EntryConfChange
| EntryOther (n : Z).

Record Entry := mkEntry {
  Entry_Type : EntryType;
  Term : Z;
  Index : Z;
  Data : string
}.

Record ConfState := mkConfState { Nodes : list Z }.

Record SnapshotMetadata := mkSnapshotMetadata {
  conf_state : ConfState;
  snap_Index : Z;
  snap_Term : Z
}.

Record Snapshot := mkSnapshot {
  snap_Data : string;
  Metadata : SnapshotMetadata
}.

Record Message := mkMessage {
  To : Z;
  From : Z;
  payload : string   (* the fields [send] does not look at *)
}.

End raftpb.

Module pb.

Record Request := mkRequest {
  ID : Z;
  Method : string;
  Path : string;
  Val : string;
  Dir : bool;
  PrevValue : string;
  PrevIndex : Z;
  PrevExist : option bool;   (* [*bool]: [None] is the nil pointer *)
  Expiration : Z;
  Wait : bool;
  Since : Z;
  Recursive : bool;
  Sorted : bool;
  Quorum : bool;
  r_Time : Z;   (* the field [Time] *)
  Stream : bool
}.

Definition with_ID (r : Request) (id : Z) : Request :=
  mkRequest id (Method r) (Path r) (Val r) (Dir r) (PrevValue r)
    (PrevIndex r) (PrevExist r) (Expiration r) (Wait r) (Since r)
    (Recursive r) (Sorted r) (Quorum r) (r_Time r) (Stream r).

Definition with_Method (r : Request) (meth : string) : Request :=
  mkRequest (ID r) meth (Path r) (Val r) (Dir r) (PrevValue r)
    (PrevIndex r) (PrevExist r) (Expiration r) (Wait r) (Since r)
    (Recursive r) (Sorted r) (Quorum r) (r_Time r) (Stream r).

End pb.

(** [pbutil.GetBool] *)
Definition GetBool (v : option bool) : bool * bool :=
  match v with
  | None => (false, false)
  | Some b => (b, true)
  end.

(** [raft.IsEmptySnap] (raft/node.go) *)
Definition IsEmptySnap (sp : raftpb.Snapshot) : bool :=
  raftpb.snap_Index (raftpb.Metadata sp) =? 0.

(** [raft.None] *)
Definition raft_None : Z := 0.

Module storeapi.

(** [storeapi.NodeExtern], the fields the server reads. *)
#[warnings="-register-all"] Inductive NodeExtern :=
| mkNode (Key : string) (Value : option string) (Dir : bool)
         (Nodes : list NodeExtern).

Definition Key (n : NodeExtern) : string :=
  match n with mkNode k _ _ _ => k end.
Definition Nodes (n : NodeExtern) : list NodeExtern :=
  match n with mkNode _ _ _ ns => ns end.

Record Event := mkEvent {
  Action : string;
  Node : NodeExtern
}.

End storeapi.

Record Response := mkResponse {
  Event : option storeapi.Event;
  Watcher : option Z;      (* a [store.Watcher] handle *)
  err : option error
}.

(** What travels through the wait registry: [nil], a [Response], or an
    [error]. *)
Inductive Value :=
| VNil
| VResponse (r : Response)
| VError (e : error).

(** ** External collaborators

    The store, the transport, the consensus module with its storage, the
    codecs and the helpers of files that are not part of the covered
    sources are taken through their operations. Every operation that
    changes its object returns the changed object. *)

Class Env := {
  (* package store *)
  Store : Type;
  GoTime : Type;
  Permanent : GoTime;
  UnixNanoToTime : Z -> GoTime;             (* timeutil.UnixNanoToTime *)
  time_Unix : Z -> Z -> GoTime;             (* time.Unix *)
  store_Get : Store -> string -> bool -> bool -> storeapi.Event + error;
  store_Create :
    Store -> string -> bool -> string -> bool -> GoTime ->
    Store * (storeapi.Event + error);
  store_Set :
    Store -> string -> bool -> string -> GoTime -> Store * (storeapi.Event + error);
  store_Update :
    Store -> string -> string -> GoTime -> Store * (storeapi.Event + error);
  store_CompareAndSwap :
    Store -> string -> string -> Z -> string -> GoTime ->
    Store * (storeapi.Event + error);
  store_Delete :
    Store -> string -> bool -> bool -> Store * (storeapi.Event + error);
  store_CompareAndDelete :
    Store -> string -> string -> Z -> Store * (storeapi.Event + error);
  store_DeleteExpiredKeys : Store -> GoTime -> Store;
  store_Recovery : Store -> string -> Store * option error;
  store_Clone : Store -> Store;
  store_SaveNoCopy : Store -> string + error;
  store_Watch : Store -> string -> bool -> bool -> Z -> Store * (Z + error);
  (* rafthttp.Transporter *)
  Transport : Type;
  AddPeer : Transport -> Z -> list string -> Transport;
  RemovePeer : Transport -> Z -> Transport;
  UpdatePeer : Transport -> Z -> list string -> Transport;
  RemoveAllPeers : Transport -> Transport;
  Send : Transport -> list raftpb.Message -> Transport;
  (* raft.Node, raft.MemoryStorage and the Storage on disk *)
  RaftNode : Type;
  Propose : RaftNode -> string -> RaftNode;
  ApplyConfChange :
    RaftNode -> raftpb.ConfChange -> RaftNode * raftpb.ConfState;
  MemoryStorage : Type;
  CreateSnapshot :
    MemoryStorage -> Z -> raftpb.ConfState -> string ->
    MemoryStorage * (raftpb.Snapshot + error);
  Compact : MemoryStorage -> Z -> MemoryStorage * option error;
  Storage : Type;
  SaveSnap : Storage -> raftpb.Snapshot -> Storage * option error;
  (* member.go and other helpers *)
  memberStoreKey : Z -> string;
  removedMemberStoreKey : Z -> string;
  nodeToMember : storeapi.NodeExtern -> Member + error;
  mustParseMemberIDFromKey : string -> option Z;   (* [None]: it panics *)
  isKeyNotFound : error -> bool;
  parseCtxErr : error -> error;
  path_Dir : string -> string;                     (* path.Dir *)
  (* codecs; [None] or an [error] is a failed call *)
  json_Marshal_RaftAttributes : RaftAttributes -> string + error;
  json_Unmarshal_Member : string -> option Member;
  json_Unmarshal_Attributes : string -> option Attributes;
  Request_Marshal : pb.Request -> string + error;
  Request_Unmarshal : string -> option pb.Request;
  ConfChange_Unmarshal : string -> option raftpb.ConfChange
}.

(** ** etcdserver: the cluster view (cluster.go) *)

Section cluster.
Context {E : Env}.

Definition raftAttributesSuffix : string := "raftAttributes".
Definition attributesSuffix : string := "attributes".
Definition StoreAdminPrefix : string := "/0".
Definition StoreKeysPrefix : string := "/1".

(** [path.Join] on clean, non-empty elements. *)
Definition path_Join (a b : string) : string := a +:+ "/" +:+ b.

Definition storeMembersPrefix : string := path_Join StoreAdminPrefix "members".
Definition storeRemovedMembersPrefix : string :=
  path_Join StoreAdminPrefix "removed_members".

(** The cluster after [SetStore] and [SetTransport]. [members] holds
    the members by value; [removed], a [map[types.ID]bool] that only ever
    stores [true], is a set. *)
Record Cluster := mkCluster {
  id : Z;
  token : string;
  store : Store;
  index : Z;
  transport : Transport;
  members : gmap Z Member;
  removed : gset Z
}.

Definition IsIDRemoved (c : Cluster) (i : Z) : bool :=
  bool_decide (i ∈ removed c).

(** [for _, n := range e.Node.Nodes { m, err := nodeToMember(n); ...;
    members[m.ID] = m }] *)
Fixpoint members_of_nodes (ns : list storeapi.NodeExtern)
    (ms : gmap Z Member) : Go (gmap Z Member) :=
  match ns with
  | [] => Ret ms
  | n :: rest =>
      match nodeToMember n with
      | inr _ => Panic
      | inl m => members_of_nodes rest (<[ID m := m]> ms)
      end
  end.

(** [for _, n := range e.Node.Nodes {
      removed[mustParseMemberIDFromKey(n.Key)] = true }] *)
Fixpoint removed_of_nodes (ns : list storeapi.NodeExtern)
    (rs : gset Z) : Go (gset Z) :=
  match ns with
  | [] => Ret rs
  | n :: rest =>
      match mustParseMemberIDFromKey (storeapi.Key n) with
      | None => Panic
      | Some i => removed_of_nodes rest ({[i]} ∪ rs)
      end
  end.

Definition membersFromStore (st : Store) : Go (gmap Z Member * gset Z) :=
  match store_Get st storeMembersPrefix true true with
  | inr e => if isKeyNotFound e then Ret (∅, ∅) else Panic
  | inl e =>
      ms ← members_of_nodes (storeapi.Nodes (storeapi.Node e)) ∅;
      match store_Get st storeRemovedMembersPrefix true true with
      | inr e' => if isKeyNotFound e' then Ret (ms, ∅) else Panic
      | inl e' =>
          rs ← removed_of_nodes (storeapi.Nodes (storeapi.Node e')) ∅;
          Ret (ms, rs)
      end
  end.

(** [urls := make(map[string]bool); for _, m := range members {
      if skip(m) { continue }; for _, u := range m.PeerURLs { urls[u] = true } }] *)
Definition collect_urls (skip : Member -> bool) (ms : gmap Z Member)
    : gset string :=
  map_fold (fun _ m urls =>
              if skip m then urls
              else list_to_set (PeerURLs (raftAttributes m)) ∪ urls)
           ∅ ms.

(** [for _, u := range m.PeerURLs { if urls[u] { return ErrPeerURLexists } }] *)
Fixpoint url_exists (urls : gset string) (us : list string) : bool :=
  match us with
  | [] => false
  | u :: rest => if bool_decide (u ∈ urls) then true else url_exists urls rest
  end.

Definition ValidateConfigurationChange (c : Cluster)
    (cc : raftpb.ConfChange) : Go (option error) :=
  '(ms, rs) ← membersFromStore (store c);
  let i := raftpb.NodeID cc in
  if bool_decide (i ∈ rs) then Ret (Some ErrIDRemoved)
  else
    match raftpb.cc_Type cc with
    | raftpb.ConfChangeAddNode =>
        match ms !! i with
        | Some _ => Ret (Some ErrIDExists)
        | None =>
            let urls := collect_urls (fun _ => false) ms in
            match json_Unmarshal_Member (raftpb.cc_Context cc) with
            | None => Panic
            | Some m =>
                if url_exists urls (PeerURLs (raftAttributes m))
                then Ret (Some ErrPeerURLexists)
                else Ret None
            end
        end
    | raftpb.ConfChangeRemoveNode =>
        match ms !! i with
        | None => Ret (Some ErrIDNotFound)
        | Some _ => Ret None
        end
    | raftpb.ConfChangeUpdateNode =>
        match ms !! i with
        | None => Ret (Some ErrIDNotFound)
        | Some _ =>
            let urls := collect_urls (fun m => bool_decide (ID m = i)) ms in
            match json_Unmarshal_Member (raftpb.cc_Context cc) with
            | None => Panic
            | Some m =>
                if url_exists urls (PeerURLs (raftAttributes m))
                then Ret (Some ErrPeerURLexists)
                else Ret None
            end
        end
    | raftpb.ConfChangeOther _ => Panic
    end.



Definition AddMember (c : Cluster) (m : Member) (idx : Z) : Go Cluster :=
  match json_Marshal_RaftAttributes (raftAttributes m) with
  | inr _ => Panic
  | inl b =>
      let p := path_Join (memberStoreKey (ID m)) raftAttributesSuffix in
      match store_Create (store c) p false b false Permanent with
      | (_, inr _) => Panic
      | (st, inl _) =>
          if index c <? idx
          then Ret (mkCluster (id c) (token c) st idx
                      (AddPeer (transport c) (ID m) (PeerURLs (raftAttributes m)))
                      (<[ID m := m]> (members c)) (removed c))
          else Ret (mkCluster (id c) (token c) st (index c) (transport c)
                      (members c) (removed c))
      end
  end.

Definition RemoveMember (c : Cluster) (i : Z) (idx : Z) : Go Cluster :=
  match store_Delete (store c) (memberStoreKey i) true true with
  | (_, inr _) => Panic
  | (st1, inl _) =>
      match store_Create st1 (removedMemberStoreKey i) false "" false Permanent with
      | (_, inr _) => Panic
      | (st2, inl _) =>
          if index c <? idx
          then
            match members c !! i with
            | None => Panic
            | Some _ =>
                Ret (mkCluster (id c) (token c) st2 idx
                       (RemovePeer (transport c) i)
                       (delete i (members c)) ({[i]} ∪ removed c))
            end
          else Ret (mkCluster (id c) (token c) st2 (index c) (transport c)
                      (members c) (removed c))
      end
  end.

(** [c.members[id].Attributes = attr]: a missing member is a nil pointer
    and the assignment panics. *)
Definition UpdateAttributes (c : Cluster) (i : Z) (attr : Attributes)
    : Go Cluster :=
  match members c !! i with
  | None => Panic
  | Some m =>
      Ret (mkCluster (id c) (token c) (store c) (index c) (transport c)
             (<[i := mkMember (ID m) (raftAttributes m) attr]> (members c))
             (removed c))
  end.

Definition UpdateRaftAttributes (c : Cluster) (i : Z)
    (raftAttr : RaftAttributes) (idx : Z) : Go Cluster :=
  match json_Marshal_RaftAttributes raftAttr with
  | inr _ => Panic
  | inl b =>
      let p := path_Join (memberStoreKey i) raftAttributesSuffix in
      match store_Update (store c) p b Permanent with
      | (_, inr _) => Panic
      | (st, inl _) =>
          if index c <? idx
          then
            match members c !! i with
            | None => Panic
            | Some m =>
                Ret (mkCluster (id c) (token c) st idx
                       (UpdatePeer (transport c) i (PeerURLs raftAttr))
                       (<[i := mkMember (ID m) raftAttr (attributes m)]> (members c))
                       (removed c))
            end
          else Ret (mkCluster (id c) (token c) st (index c) (transport c)
                      (members c) (removed c))
      end
  end.

(** [MemberIDs]: the ids of the members, sorted. The order in which Go
    ranges over the map does not survive the sort. *)
Definition MemberIDs (c : Cluster) : list Z :=
  merge_sort Z.le (ID <$> (map_to_list (members c)).*2).

(** [Members]: the members sorted by id ([SortableMemberSlice]). *)
Definition member_le (a b : Member) : Prop := ID a <= ID b.

#[global] Instance member_le_dec a b : Decision (member_le a b).
Proof. unfold member_le. apply _. Defined.

Definition Members (c : Cluster) : list Member :=
  merge_sort member_le (map_to_list (members c)).*2.

(** [for i, id := range mIDs { binary.BigEndian.PutUint64(b[8*i:], uint64(id)) }] *)
Fixpoint genID_fill (ids : list Z) (i : nat) (b : list Z) : Go (list Z) :=
  match ids with
  | [] => Ret b
  | x :: rest => b' ← binary.PutUint64 b (8 * i) x; genID_fill rest (S i) b'
  end.

Definition genID (c : Cluster) : Go Cluster :=
  let mIDs := MemberIDs c in
  b ← genID_fill mIDs 0 (replicate (8 * length mIDs) 0);
  let hash := sha1.Sum b in
  i ← binary.Uint64 (take 8 hash);
  Ret (mkCluster i (token c) (store c) (index c) (transport c)
         (members c) (removed c)).

Definition SetID (c : Cluster) (i : Z) : Cluster :=
  mkCluster i (token c) (store c) (index c) (transport c) (members c) (removed c).

Definition UpdateIndex (c : Cluster) (idx : Z) : Cluster :=
  mkCluster (id c) (token c) (store c) idx (transport c) (members c) (removed c).

Definition Recover (c : Cluster) : Go Cluster :=
  '(ms, rs) ← membersFromStore (store c);
  let c1 := mkCluster (id c) (token c) (store c) (index c)
              (RemoveAllPeers (transport c)) ms rs in
  Ret (mkCluster (id c) (token c) (store c) (index c)
         (fold_left (fun t m => AddPeer t (ID m) (PeerURLs (raftAttributes m)))
                    (Members c1) (transport c1))
         ms rs).

End cluster.

(** ** etcdserver: the server (server.go, raft.go) *)

(** [storeMemberAttributeRegexp]: the pattern
    [/0/members/[[:xdigit:]]{1,16}/attributes], searched anywhere in the
    string as [MatchString] does. *)
Module regexp.

Definition is_xdigit (c : ascii) : bool :=
  let n := Ascii.N_of_ascii c in
  ((48 <=? n) && (n <=? 57) || (65 <=? n) && (n <=? 70)
   || (97 <=? n) && (n <=? 102))%N.

Fixpoint all_xdigit (s : string) : bool :=
  match s with
  | EmptyString => true
  | String c s' => is_xdigit c && all_xdigit s'
  end.

(** [r] does not start with a hexadecimal digit. *)
Definition stops (r : string) : Prop :=
  match r with
  | EmptyString => True
  | String c _ => is_xdigit c = false
  end.

(** The rest of [s] after the literal [p], when [s] starts with [p]. *)
Fixpoint strip_prefix (p s : string) : option string :=
  match p, s with
  | EmptyString, _ => Some s
  | String a p', String b s' =>
      if Ascii.eqb a b then strip_prefix p' s' else None
  | String _ _, EmptyString => None
  end.

(** The number of leading hexadecimal digits of [s], and what follows. *)
Fixpoint span_xdigit (s : string) : nat * string :=
  match s with
  | String c s' =>
      if is_xdigit c
      then let '(k, rest) := span_xdigit s' in (S k, rest)
      else (O, s)
  | EmptyString => (O, s)
  end.

(** A match that starts at the first character of [s]. The character
    after the digits must be [/], which is no digit, so the repetition
    has to take the whole run of digits. *)
Definition match_here (lit1 lit2 : string) (lo hi : nat) (s : string) : bool :=
  match strip_prefix lit1 s with
  | None => false
  | Some s1 =>
      let '(k, s2) := span_xdigit s1 in
      (lo <=? k)%nat && (k <=? hi)%nat
      && match strip_prefix lit2 s2 with Some _ => true | None => false end
  end.

Fixpoint search (lit1 lit2 : string) (lo hi : nat) (s : string) : bool :=
  match_here lit1 lit2 lo hi s
  || match s with
     | EmptyString => false
     | String _ s' => search lit1 lit2 lo hi s'
     end.

End regexp.

Section server.
Context {E : Env}.

(** [storeMemberAttributeRegexp.MatchString] *)
Definition storeMemberAttributeRegexp_MatchString (s : string) : bool :=
  regexp.search (storeMembersPrefix +:+ "/") ("/" +:+ attributesSuffix) 1 16 s.

Definition DefaultSnapCount : Z := 10000.
Definition numberOfCatchUpEntries : Z := 5000.

(** [raftNode]; its transport is the cluster's (one object). *)
Record raftNode := mkRaftNode {
  Node : RaftNode;
  raftStorage : MemoryStorage;
  storage : Storage;
  r_index : Z;
  r_term : Z;
  lead : Z
}.

(** Goroutines that the apply loop starts. *)
Inductive goroutine :=
| go_stopWithDelay
| go_snapshot (clone : Store) (snapi : Z) (confState : raftpb.ConfState).

(** [EtcdServer]. [s.store] is the store of [s.Cluster] and
    [s.r.transport] its transport: [NewServer] hands the same objects to
    both, and the model keeps one copy. [done] tells whether [s.done] is
    closed. *)
Record EtcdServer := mkEtcdServer {
  snapCount : Z;
  r : raftNode;
  w : wait.List Value;
  done : bool;
  srv_id : Z;
  cluster : Cluster;
  reqIDGen : idutil.Generator;
  goroutines : list goroutine
}.

Definition set_cluster (s : EtcdServer) (c : Cluster) : EtcdServer :=
  mkEtcdServer (snapCount s) (r s) (w s) (done s) (srv_id s) c
    (reqIDGen s) (goroutines s).

Definition set_store (s : EtcdServer) (st : Store) : EtcdServer :=
  let c := cluster s in
  set_cluster s (mkCluster (id c) (token c) st (index c) (transport c)
                   (members c) (removed c)).

Definition set_transport (s : EtcdServer) (t : Transport) : EtcdServer :=
  let c := cluster s in
  set_cluster s (mkCluster (id c) (token c) (store c) (index c) t
                   (members c) (removed c)).

Definition set_w (s : EtcdServer) (w' : wait.List Value) : EtcdServer :=
  mkEtcdServer (snapCount s) (r s) w' (done s) (srv_id s) (cluster s)
    (reqIDGen s) (goroutines s).

Definition set_r (s : EtcdServer) (r' : raftNode) : EtcdServer :=
  mkEtcdServer (snapCount s) r' (w s) (done s) (srv_id s) (cluster s)
    (reqIDGen s) (goroutines s).

Definition set_Node (s : EtcdServer) (n : RaftNode) : EtcdServer :=
  let rn := r s in
  set_r s (mkRaftNode n (raftStorage rn) (storage rn) (r_index rn)
             (r_term rn) (lead rn)).

Definition set_index_term (s : EtcdServer) (i t : Z) : EtcdServer :=
  let rn := r s in
  set_r s (mkRaftNode (Node rn) (raftStorage rn) (storage rn) i t (lead rn)).

Definition set_reqIDGen (s : EtcdServer) (g : idutil.Generator) : EtcdServer :=
  mkEtcdServer (snapCount s) (r s) (w s) (done s) (srv_id s) (cluster s)
    g (goroutines s).

Definition spawn (s : EtcdServer) (g : goroutine) : EtcdServer :=
  mkEtcdServer (snapCount s) (r s) (w s) (done s) (srv_id s) (cluster s)
    (reqIDGen s) (goroutines s ++ [g]).

(** *** send *)

(** One iteration of [for i, _ := range ms]. *)
Definition send_step (c : Cluster) (ms : list raftpb.Message) (i : nat)
    : list raftpb.Message :=
  match ms !! i with
  | Some mi =>
      if IsIDRemoved c (raftpb.To mi)
      then <[i := raftpb.mkMessage 0 (raftpb.From mi) (raftpb.payload mi)]> ms
      else ms
  | None => ms
  end.

(** What the loop of [send] does to one message. *)
Definition censor (c : Cluster) (m : raftpb.Message) : raftpb.Message :=
  if IsIDRemoved c (raftpb.To m)
  then raftpb.mkMessage 0 (raftpb.From m) (raftpb.payload m)
  else m.

(** [send] returns the server, whose transport has been handed the
    batch, and the slice as the loop left it. *)
Definition send (s : EtcdServer) (ms : list raftpb.Message)
    : EtcdServer * list raftpb.Message :=
  let ms' := fold_left (send_step (cluster s)) (seq 0 (length ms)) ms in
  (set_transport s (Send (transport (cluster s)) ms'), ms').

(** *** applyRequest *)

(** [f := func(ev *store.Event, err error) Response] on the result of a
    store call, with the store the call left. *)
Definition f_resp (s : EtcdServer) (res : Store * (storeapi.Event + error))
    : EtcdServer * Response :=
  match res with
  | (st, inl ev) => (set_store s st, mkResponse (Some ev) None None)
  | (st, inr e) => (set_store s st, mkResponse None None (Some e))
  end.

Definition applyRequest_PUT (s : EtcdServer) (req : pb.Request)
    : Go (EtcdServer * Response) :=
  let expr := UnixNanoToTime (pb.Expiration req) in
  let st := store (cluster s) in
  let '(exists_, existsSet) := GetBool (pb.PrevExist req) in
  if existsSet then
    if exists_ then
      if (pb.PrevIndex req =? 0) && bool_decide (pb.PrevValue req = "")
      then Ret (f_resp s (store_Update st (pb.Path req) (pb.Val req) expr))
      else Ret (f_resp s (store_CompareAndSwap st (pb.Path req)
                            (pb.PrevValue req) (pb.PrevIndex req)
                            (pb.Val req) expr))
    else Ret (f_resp s (store_Create st (pb.Path req) (pb.Dir req)
                          (pb.Val req) false expr))
  else if (0 <? pb.PrevIndex req) || negb (bool_decide (pb.PrevValue req = ""))
  then Ret (f_resp s (store_CompareAndSwap st (pb.Path req)
                        (pb.PrevValue req) (pb.PrevIndex req)
                        (pb.Val req) expr))
  else
    s1 ← (if storeMemberAttributeRegexp_MatchString (pb.Path req)
          then
            match mustParseMemberIDFromKey (path_Dir (pb.Path req)) with
            | None => Panic
            | Some i =>
                match json_Unmarshal_Attributes (pb.Val req) with
                | None => Panic
                | Some attr =>
                    c ← UpdateAttributes (cluster s) i attr;
                    Ret (set_cluster s c)
                end
            end
          else Ret s);
    Ret (f_resp s1 (store_Set (store (cluster s1)) (pb.Path req)
                      (pb.Dir req) (pb.Val req) expr)).

Definition applyRequest (s : EtcdServer) (req : pb.Request)
    : Go (EtcdServer * Response) :=
  let expr := UnixNanoToTime (pb.Expiration req) in
  let st := store (cluster s) in
  if bool_decide (pb.Method req = "POST") then
    Ret (f_resp s (store_Create st (pb.Path req) (pb.Dir req) (pb.Val req)
                     true expr))
  else if bool_decide (pb.Method req = "PUT") then applyRequest_PUT s req
  else if bool_decide (pb.Method req = "DELETE") then
    if (0 <? pb.PrevIndex req) || negb (bool_decide (pb.PrevValue req = ""))
    then Ret (f_resp s (store_CompareAndDelete st (pb.Path req)
                          (pb.PrevValue req) (pb.PrevIndex req)))
    else Ret (f_resp s (store_Delete st (pb.Path req) (pb.Dir req)
                          (pb.Recursive req)))
  else if bool_decide (pb.Method req = "QGET") then
    Ret (f_resp s (st, store_Get st (pb.Path req) (pb.Recursive req)
                         (pb.Sorted req)))
  else if bool_decide (pb.Method req = "SYNC") then
    Ret (set_store s (store_DeleteExpiredKeys st (time_Unix 0 (pb.r_Time req))),
         mkResponse None None None)
  else Ret (s, mkResponse None None (Some ErrUnknownMethod)).

(** *** applyConfChange *)

Definition with_NodeID (cc : raftpb.ConfChange) (n : Z) : raftpb.ConfChange :=
  raftpb.mkConfChange (raftpb.ID cc) (raftpb.cc_Type cc) n (raftpb.cc_Context cc).

(** Returns the server, [*confState], and the pair [(shouldstop, err)]. *)
Definition applyConfChange (s : EtcdServer) (cc : raftpb.ConfChange)
    (confState : raftpb.ConfState) (idx : Z)
    : Go (EtcdServer * raftpb.ConfState * (bool * option error)) :=
  verr ← ValidateConfigurationChange (cluster s) cc;
  match verr with
  | Some e =>
      let '(n, _) := ApplyConfChange (Node (r s)) (with_NodeID cc raft_None) in
      Ret (set_Node s n, confState, (false, Some e))
  | None =>
      let '(n, cs) := ApplyConfChange (Node (r s)) cc in
      let s := set_Node s n in
      match raftpb.cc_Type cc with
      | raftpb.ConfChangeAddNode =>
          match json_Unmarshal_Member (raftpb.cc_Context cc) with
          | None => Panic
          | Some m =>
              if bool_decide (raftpb.NodeID cc = ID m)
              then c ← AddMember (cluster s) m idx;
                   Ret (set_cluster s c, cs, (false, None))
              else Panic
          end
      | raftpb.ConfChangeRemoveNode =>
          let i := raftpb.NodeID cc in
          c ← RemoveMember (cluster s) i idx;
          if bool_decide (i = srv_id s)
          then Ret (set_cluster s c, cs, (true, None))
          else Ret (set_cluster s c, cs, (false, None))
      | raftpb.ConfChangeUpdateNode =>
          match json_Unmarshal_Member (raftpb.cc_Context cc) with
          | None => Panic
          | Some m =>
              if bool_decide (raftpb.NodeID cc = ID m)
              then c ← UpdateRaftAttributes (cluster s) (ID m)
                         (raftAttributes m) idx;
                   Ret (set_cluster s c, cs, (false, None))
              else Panic
          end
      | raftpb.ConfChangeOther _ => Ret (s, cs, (false, None))
      end
  end.

(** *** apply *)

(** The variables of [apply] that its loop updates. *)
Record apply_vars := mkApplyVars {
  av_server : EtcdServer;
  av_confState : raftpb.ConfState;
  av_applied : Z;
  av_shouldstop : bool
}.

Definition error_Value (e : option error) : Value :=
  match e with
  | None => VNil
  | Some e => VError e
  end.

(** The body of [for i := range es]. *)
Definition apply_entry (a : apply_vars) (e : raftpb.Entry) : Go apply_vars :=
  '(s, cs, stop) ←
    match raftpb.Entry_Type e with
    | raftpb.EntryNormal =>
        match Request_Unmarshal (raftpb.Data e) with
        | None => Panic
        | Some req =>
            '(s1, resp) ← applyRequest (av_server a) req;
            w' ← wait.Trigger (pb.ID req) (VResponse resp) (w s1);
            Ret (set_w s1 w', av_confState a, av_shouldstop a)
        end
    | raftpb.EntryConfChange =>
        match ConfChange_Unmarshal (raftpb.Data e) with
        | None => Panic
        | Some cc =>
            '(s1, cs, (stop, err)) ←
              applyConfChange (av_server a) cc (av_confState a) (raftpb.Index e);
            w' ← wait.Trigger (raftpb.ID cc) (error_Value err) (w s1);
            Ret (set_w s1 w', cs, stop)
        end
    | raftpb.EntryOther _ => Panic
    end;
  Ret (mkApplyVars (set_index_term s (raftpb.Index e) (raftpb.Term e))
         cs (raftpb.Index e) stop).

Fixpoint apply_loop (a : apply_vars) (es : list raftpb.Entry) : Go apply_vars :=
  match es with
  | [] => Ret a
  | e :: rest => a' ← apply_entry a e; apply_loop a' rest
  end.

(** [apply]: [applied] and [shouldstop] start at their zero values. *)
Definition apply (s : EtcdServer) (es : list raftpb.Entry)
    (confState : raftpb.ConfState)
    : Go (EtcdServer * raftpb.ConfState * (Z * bool)) :=
  a ← apply_loop (mkApplyVars s confState 0 false) es;
  Ret (av_server a, av_confState a, (av_applied a, av_shouldstop a)).

(** *** The apply loop of [run] *)

(** The record that [raftNode.run] sends on [applyc]. *)
Record apply_msg := mkApply {
  entries : list raftpb.Entry;
  snapshot : raftpb.Snapshot
}.

(** The local variables of [run]. *)
Record run_vars := mkRunVars {
  confState : raftpb.ConfState;
  snapi : Z;
  appliedi : Z;
  shouldstop : bool
}.

(** [s.snapshot(snapi, confState)]: the clone is taken at once, the
    rest runs in a goroutine. *)
Definition snapshot_start (s : EtcdServer) (snapi : Z)
    (confState : raftpb.ConfState) : EtcdServer :=
  spawn s (go_snapshot (store_Clone (store (cluster s))) snapi confState).

(** The part of [case apply := <-s.r.apply()] under [// apply snapshot]. *)
Definition run_apply_snapshot (s : EtcdServer) (v : run_vars) (ap : apply_msg)
    : Go (EtcdServer * run_vars) :=
  let sn := snapshot ap in
  let si := raftpb.snap_Index (raftpb.Metadata sn) in
  if negb (IsEmptySnap sn) then
    if si <=? appliedi v then Panic
    else
      match store_Recovery (store (cluster s)) (raftpb.snap_Data sn) with
      | (_, Some _) => Panic
      | (st, None) =>
          let s := set_store s st in
          c ← (if index (cluster s) <? si then Recover (cluster s)
               else Ret (cluster s));
          Ret (set_cluster s c,
               mkRunVars (raftpb.conf_state (raftpb.Metadata sn)) si si
                         (shouldstop v))
      end
  else Ret (s, v).

(** The part under [// apply entries]. *)
Definition run_apply_entries (s : EtcdServer) (v : run_vars) (ap : apply_msg)
    : Go (EtcdServer * run_vars) :=
  match entries ap with
  | [] => Ret (s, v)
  | e0 :: _ =>
      let firsti := raftpb.Index e0 in
      if u64 (appliedi v + 1) <? firsti then Panic
      else
        let skip := u64 (appliedi v + 1 - firsti) in
        let ents :=
          if skip <? Z.of_nat (length (entries ap))
          then drop (Z.to_nat skip) (entries ap)
          else [] in
        '(s', cs, (applied, stop)) ← apply s ents (confState v);
        let s' := if (stop : bool) then spawn s' go_stopWithDelay else s' in
        Ret (s', mkRunVars cs (snapi v) applied stop)
  end.

(** The part under [// trigger snapshot]. *)
Definition run_trigger_snapshot (s : EtcdServer) (v : run_vars)
    : EtcdServer * run_vars :=
  if snapCount s <? u64 (appliedi v - snapi v)
  then (snapshot_start s (appliedi v) (confState v),
        mkRunVars (confState v) (appliedi v) (appliedi v) (shouldstop v))
  else (s, v).

(** One turn of [run] on [case apply := <-s.r.apply()]. *)
Definition run_apply (s : EtcdServer) (v : run_vars) (ap : apply_msg)
    : Go (EtcdServer * run_vars) :=
  '(s1, v1) ← run_apply_snapshot s v ap;
  '(s2, v2) ← run_apply_entries s1 v1 ap;
  Ret (run_trigger_snapshot s2 v2).

(** *** snapshot *)

(** Where the goroutine of [snapshot] ended. *)
Inductive snapshot_end :=
| snapshot_out_of_date          (* the [return] under [ErrSnapOutOfDate] *)
| snapshot_already_compacted    (* the [return] under [ErrCompacted] *)
| snapshot_compacted (compacti : Z).

(** The goroutine of [snapshot], on the raft node it works on. *)
Definition snapshot_goroutine (rn : raftNode) (clone : Store) (snapi : Z)
    (confState : raftpb.ConfState) : Go (raftNode * snapshot_end) :=
  match store_SaveNoCopy clone with
  | inr _ => Panic
  | inl d =>
      match CreateSnapshot (raftStorage rn) snapi confState d with
      | (ms, inr e) =>
          if bool_decide (e = ErrSnapOutOfDate)
          then Ret (mkRaftNode (Node rn) ms (storage rn) (r_index rn)
                      (r_term rn) (lead rn), snapshot_out_of_date)
          else Panic
      | (ms, inl snap) =>
          match SaveSnap (storage rn) snap with
          | (_, Some _) => Fatal
          | (disk, None) =>
              let compacti :=
                if numberOfCatchUpEntries <? snapi
                then u64 (snapi - numberOfCatchUpEntries)
                else 1 in
              match Compact ms compacti with
              | (ms', Some e) =>
                  if bool_decide (e = ErrCompacted)
                  then Ret (mkRaftNode (Node rn) ms' disk (r_index rn)
                              (r_term rn) (lead rn), snapshot_already_compacted)
                  else Panic
              | (ms', None) =>
                  Ret (mkRaftNode (Node rn) ms' disk (r_index rn)
                         (r_term rn) (lead rn), snapshot_compacted compacti)
              end
          end
      end
  end.

(** *** Do *)

(** The case of the [select] in [Do] that fires. *)
Inductive select_case :=
| case_ch          (* [case x := <-ch] *)
| case_ctx_Done    (* [case <-ctx.Done()] *)
| case_done.       (* [case <-s.done] *)

Definition empty_Response : Response := mkResponse None None None.

(** The [select] of [Do], for the request id [i] whose channel is [ch].
    [ctx_err] is [ctx.Err()], [None] while the context is live; [sel] is
    the case the [select] takes, and a case that is not ready blocks.
    Other goroutines run between [Propose] and the [select]: [s] is the
    server as the [select] finds it. *)
Definition Do_select (s : EtcdServer) (i : Z) (ch : nat)
    (ctx_err : option error) (sel : select_case)
    : Go (EtcdServer * (Response * option error)) :=
  match sel with
  | case_ch =>
      '(w2, x) ← wait.recv ch (w s);
      match x with
      | Some (VResponse resp) => Ret (set_w s w2, (resp, err resp))
      | _ => Panic
      end
  | case_ctx_Done =>
      match ctx_err with
      | None => Block
      | Some e =>
          w2 ← wait.Trigger i VNil (w s);
          Ret (set_w s w2, (empty_Response, Some (parseCtxErr e)))
      end
  | case_done =>
      if done s then Ret (s, (empty_Response, Some ErrStopped))
      else Block
  end.

(** The request as [Do] rewrites it: the fresh id, and [QGET] for a
    quorum [GET]. *)
Definition Do_request (req : pb.Request) (i : Z) : pb.Request :=
  let req := pb.with_ID req i in
  if bool_decide (pb.Method req = "GET") && pb.Quorum req
  then pb.with_Method req "QGET" else req.

(** [Do(ctx, r)] when no other goroutine runs between its steps. *)
Definition Do (s : EtcdServer) (ctx_err : option error) (sel : select_case)
    (req : pb.Request) : Go (EtcdServer * (Response * option error)) :=
  let '(g, i) := idutil.Next (reqIDGen s) in
  let s := set_reqIDGen s g in
  let req := Do_request req i in
  if bool_decide (pb.Method req ∈ ["POST"; "PUT"; "DELETE"; "QGET"]) then
    match Request_Marshal req with
    | inr e => Ret (s, (empty_Response, Some e))
    | inl data =>
        let '(w1, ch) := wait.Register (pb.ID req) (w s) in
        let s := set_Node (set_w s w1) (Propose (Node (r s)) data) in
        Do_select s (pb.ID req) ch ctx_err sel
    end
  else if bool_decide (pb.Method req = "GET") then
    if pb.Wait req then
      match store_Watch (store (cluster s)) (pb.Path req) (pb.Recursive req)
              (pb.Stream req) (pb.Since req) with
      | (st, inr e) => Ret (set_store s st, (empty_Response, Some e))
      | (st, inl wc) => Ret (set_store s st, (mkResponse None (Some wc) None, None))
      end
    else
      match store_Get (store (cluster s)) (pb.Path req) (pb.Recursive req)
              (pb.Sorted req) with
      | inr e => Ret (s, (empty_Response, Some e))
      | inl ev => Ret (s, (mkResponse (Some ev) None None, None))
      end
  else if bool_decide (pb.Method req = "HEAD") then
    match store_Get (store (cluster s)) (pb.Path req) (pb.Recursive req)
            (pb.Sorted req) with
    | inr e => Ret (s, (empty_Response, Some e))
    | inl ev => Ret (s, (mkResponse (Some ev) None None, None))
    end
  else Ret (s, (empty_Response, Some ErrUnknownMethod)).

End server.

(** ** A small instance of the collaborators

    A flat key-value store that lists directories, a transport that
    records its peers and what it was sent, a consensus node that records
    proposals, and codecs with a plain text format. The examples below
    run the server on it. *)

Module toy.

Definition hex_digit (n : Z) : ascii :=
  if n <? 10 then ascii_of_N (Z.to_N (48 + n))
  else ascii_of_N (Z.to_N (87 + n)).

Fixpoint to_hex_aux (fuel : nat) (n : Z) (acc : string) : string :=
  match fuel with
  | O => acc
  | S fuel' =>
      let acc' := String (hex_digit (n mod 16)) acc in
      if n / 16 =? 0 then acc' else to_hex_aux fuel' (n / 16) acc'
  end.

(** [strconv.FormatUint(id, 16)] *)
Definition to_hex (n : Z) : string := to_hex_aux 16 n "".

Definition hex_value (c : ascii) : option Z :=
  let n := Z.of_N (N_of_ascii c) in
  if (48 <=? n) && (n <=? 57) then Some (n - 48)
  else if (97 <=? n) && (n <=? 102) then Some (n - 87)
  else if (65 <=? n) && (n <=? 70) then Some (n - 55)
  else None.

Fixpoint parse_hex_aux (s : string) (acc : Z) : option Z :=
  match s with
  | EmptyString => Some acc
  | String c s' =>
      match hex_value c with
      | None => None
      | Some d => parse_hex_aux s' (16 * acc + d)
      end
  end.

(** [strconv.ParseUint(s, 16, 64)] *)
Definition parse_hex (s : string) : option Z :=
  match s with
  | EmptyString => None
  | _ => if (String.length s <=? 16)%nat then parse_hex_aux s 0 else None
  end.

Fixpoint split_on (c : ascii) (s : string) : list string :=
  match s with
  | EmptyString => [EmptyString]
  | String a s' =>
      if Ascii.eqb a c then EmptyString :: split_on c s'
      else match split_on c s' with
           | h :: t => String a h :: t
           | [] => [String a EmptyString]
           end
  end.

Definition slash : ascii := "/"%char.

Definition base (p : string) : string := List.last (split_on slash p) "".

Definition dir (p : string) : string :=
  String.concat "/" (removelast (split_on slash p)).

Definition urls_of (s : string) : list string :=
  if String.eqb s "" then [] else split_on ","%char s.

(** *** The store: keys with values, and a count of the changes *)

Record Store := mkStore {
  kv : list (string * string);
  changes : Z
}.

Fixpoint lookup_key (k : string) (l : list (string * string)) : option string :=
  match l with
  | [] => None
  | (k', v) :: rest => if String.eqb k k' then Some v else lookup_key k rest
  end.

Definition remove_key (k : string) (l : list (string * string))
    : list (string * string) :=
  List.filter (fun kv => negb (String.eqb k (fst kv))) l.

Definition under (p k : string) : bool :=
  match regexp.strip_prefix (p +:+ "/") k with
  | Some _ => true
  | None => false
  end.

(** The name of the child of directory [p] on the way to key [k]. *)
Definition child_of (p k : string) : option string :=
  match regexp.strip_prefix (p +:+ "/") k with
  | Some rest =>
      match split_on slash rest with
      | seg :: _ => Some (p +:+ "/" +:+ seg)
      | [] => None
      end
  | None => None
  end.

Fixpoint dedup_strings (l : list string) : list string :=
  match l with
  | [] => []
  | x :: rest =>
      if existsb (String.eqb x) rest then dedup_strings rest
      else x :: dedup_strings rest
  end.

Fixpoint node_at (fuel : nat) (l : list (string * string)) (k : string)
    : storeapi.NodeExtern :=
  match lookup_key k l with
  | Some v => storeapi.mkNode k (Some v) false []
  | None =>
      match fuel with
      | O => storeapi.mkNode k None true []
      | S fuel' =>
          storeapi.mkNode k None true
            (List.map (node_at fuel' l)
               (dedup_strings (omap (fun kv => child_of k (fst kv)) l)))
      end
  end.

Definition exists_key (st : Store) (k : string) : bool :=
  match lookup_key k (kv st) with
  | Some _ => true
  | None => existsb (fun kv => under k (fst kv)) (kv st)
  end.

Definition EcodeKeyNotFound : Z := 100.
Definition EcodeTestFailed : Z := 101.
Definition EcodeNodeExist : Z := 105.

Definition Get (st : Store) (p : string) (recursive sorted : bool)
    : storeapi.Event + error :=
  if exists_key st p
  then inl (storeapi.mkEvent "get" (node_at 4 (kv st) p))
  else inr (ErrStore EcodeKeyNotFound).

Definition put (st : Store) (action p v : string)
    : Store * (storeapi.Event + error) :=
  (mkStore ((p, v) :: remove_key p (kv st)) (changes st + 1),
   inl (storeapi.mkEvent action (storeapi.mkNode p (Some v) false []))).

Definition Create (st : Store) (p : string) (isdir : bool) (v : string)
    (unique : bool) (expire : Z) : Store * (storeapi.Event + error) :=
  let p := if unique then p +:+ "/" +:+ to_hex (changes st + 1) else p in
  if exists_key st p then (st, inr (ErrStore EcodeNodeExist))
  else put st "create" p v.

Definition Set_ (st : Store) (p : string) (isdir : bool) (v : string)
    (expire : Z) : Store * (storeapi.Event + error) :=
  put st "set" p v.

Definition Update (st : Store) (p v : string) (expire : Z)
    : Store * (storeapi.Event + error) :=
  match lookup_key p (kv st) with
  | None => (st, inr (ErrStore EcodeKeyNotFound))
  | Some _ => put st "update" p v
  end.

Definition CompareAndSwap (st : Store) (p prevValue : string) (prevIndex : Z)
    (v : string) (expire : Z) : Store * (storeapi.Event + error) :=
  match lookup_key p (kv st) with
  | None => (st, inr (ErrStore EcodeKeyNotFound))
  | Some old =>
      if String.eqb prevValue "" || String.eqb prevValue old
      then put st "compareAndSwap" p v
      else (st, inr (ErrStore EcodeTestFailed))
  end.

Definition Delete (st : Store) (p : string) (isdir recursive : bool)
    : Store * (storeapi.Event + error) :=
  if exists_key st p
  then (mkStore (List.filter (fun kv => negb (String.eqb p (fst kv))
                                        && negb (under p (fst kv))) (kv st))
                (changes st + 1),
        inl (storeapi.mkEvent "delete" (storeapi.mkNode p None isdir [])))
  else (st, inr (ErrStore EcodeKeyNotFound)).

Definition CompareAndDelete (st : Store) (p prevValue : string) (prevIndex : Z)
    : Store * (storeapi.Event + error) :=
  match lookup_key p (kv st) with
  | None => (st, inr (ErrStore EcodeKeyNotFound))
  | Some old =>
      if String.eqb prevValue "" || String.eqb prevValue old
      then Delete st p false false
      else (st, inr (ErrStore EcodeTestFailed))
  end.

(** *** Transport, consensus node, storage *)

Record Transport := mkTransport {
  peers : list (Z * list string);
  sent : list (list raftpb.Message)
}.

Definition drop_peer (i : Z) (l : list (Z * list string)) :=
  List.filter (fun p => negb (fst p =? i)) l.

Record RaftNode := mkRaftNode {
  proposals : list string;
  nodes : list Z
}.

Definition ApplyConfChange (n : RaftNode) (cc : raftpb.ConfChange)
    : RaftNode * raftpb.ConfState :=
  let i := raftpb.NodeID cc in
  let ns :=
    if i =? raft_None then nodes n
    else match raftpb.cc_Type cc with
         | raftpb.ConfChangeAddNode => List.filter (fun j => negb (j =? i)) (nodes n) ++ [i]
         | raftpb.ConfChangeRemoveNode => List.filter (fun j => negb (j =? i)) (nodes n)
         | _ => nodes n
         end in
  (mkRaftNode (proposals n) ns, raftpb.mkConfState ns).

(** The in-memory log: the index of its snapshot, of its first entry
    (the compaction point) and of its last. *)
Record MemoryStorage := mkMemoryStorage {
  snap_index : Z;
  first_index : Z;
  last_index : Z
}.

Definition CreateSnapshot (ms : MemoryStorage) (i : Z)
    (cs : raftpb.ConfState) (data : string)
    : MemoryStorage * (raftpb.Snapshot + error) :=
  if i <=? snap_index ms then (ms, inr ErrSnapOutOfDate)
  else (mkMemoryStorage i (first_index ms) (last_index ms),
        inl (raftpb.mkSnapshot data (raftpb.mkSnapshotMetadata cs i 0))).

Definition Compact (ms : MemoryStorage) (i : Z)
    : MemoryStorage * option error :=
  if i <=? first_index ms then (ms, Some ErrCompacted)
  else (mkMemoryStorage (snap_index ms) i (last_index ms), None).

(** *** Codecs *)

Definition join (sep : string) (l : list string) : string := String.concat sep l.

Definition Marshal_RaftAttributes (a : RaftAttributes) : string + error :=
  inl (join "," (PeerURLs a)).

(** A member is written [id;peerURLs;name;clientURLs]. *)
Definition Unmarshal_Member (s : string) : option Member :=
  match split_on ";"%char s with
  | [i; purls; name; curls] =>
      match parse_hex i with
      | Some n => Some (mkMember n (mkRaftAttributes (urls_of purls))
                          (mkAttributes name (urls_of curls)))
      | None => None
      end
  | _ => None
  end.

(** Attributes are written [name;clientURLs]. *)
Definition Unmarshal_Attributes (s : string) : option Attributes :=
  match split_on ";"%char s with
  | [name; curls] => Some (mkAttributes name (urls_of curls))
  | _ => None
  end.

Definition bool_text (b : option bool) : string :=
  match b with
  | None => "-"
  | Some true => "t"
  | Some false => "f"
  end.

Definition text_bool (s : string) : option (option bool) :=
  if String.eqb s "-" then Some None
  else if String.eqb s "t" then Some (Some true)
  else if String.eqb s "f" then Some (Some false)
  else None.

(** A request is written [id|method|path|val|prevValue|prevIndex|prevExist]. *)
Definition Request_Marshal (req : pb.Request) : string + error :=
  inl (join "|" [to_hex (pb.ID req); pb.Method req; pb.Path req; pb.Val req;
                 pb.PrevValue req; to_hex (pb.PrevIndex req);
                 bool_text (pb.PrevExist req)]).

Definition Request_Unmarshal (s : string) : option pb.Request :=
  match split_on "|"%char s with
  | [i; meth; p; v; pv; pi; pe] =>
      match parse_hex i, parse_hex pi, text_bool pe with
      | Some i, Some pi, Some pe =>
          Some (pb.mkRequest i meth p v false pv pi pe 0 false 0 false false
                  false 0 false)
      | _, _, _ => None
      end
  | _ => None
  end.

(** A configuration change is written [id|type|nodeID|context]. *)
Definition ConfChange_Unmarshal (s : string) : option raftpb.ConfChange :=
  match split_on "|"%char s with
  | [i; t; n; ctx] =>
      match parse_hex i, parse_hex n with
      | Some i, Some n =>
          let ty := if String.eqb t "add" then Some raftpb.ConfChangeAddNode
                    else if String.eqb t "remove" then Some raftpb.ConfChangeRemoveNode
                    else if String.eqb t "update" then Some raftpb.ConfChangeUpdateNode
                    else None in
          match ty with
          | Some ty => Some (raftpb.mkConfChange i ty n ctx)
          | None => None
          end
      | _, _ => None
      end
  | _ => None
  end.

(** *** Helpers of member.go *)

Definition memberStoreKey (i : Z) : string := "/0/members/" +:+ to_hex i.
Definition removedMemberStoreKey (i : Z) : string :=
  "/0/removed_members/" +:+ to_hex i.
Definition mustParseMemberIDFromKey (k : string) : option Z := parse_hex (base k).

Definition child_value (n : storeapi.NodeExtern) (k : string) : option string :=
  match List.find (fun c => String.eqb (storeapi.Key c) k) (storeapi.Nodes n) with
  | Some (storeapi.mkNode _ v _ _) => v
  | None => None
  end.

Definition nodeToMember (n : storeapi.NodeExtern) : Member + error :=
  match mustParseMemberIDFromKey (storeapi.Key n) with
  | None => inr (ErrOther "bad member key")
  | Some i =>
      match child_value n (storeapi.Key n +:+ "/raftAttributes") with
      | None => inr (ErrOther "raftAttributes key doesn't exist")
      | Some ra =>
          match child_value n (storeapi.Key n +:+ "/attributes") with
          | None => inl (mkMember i (mkRaftAttributes (urls_of ra))
                           (mkAttributes "" []))
          | Some a =>
              match Unmarshal_Attributes a with
              | Some attr => inl (mkMember i (mkRaftAttributes (urls_of ra)) attr)
              | None => inr (ErrOther "bad attributes")
              end
          end
      end
  end.

Definition isKeyNotFound (e : error) : bool :=
  match e with
  | ErrStore c => c =? EcodeKeyNotFound
  | _ => false
  end.

Definition parseCtxErr (e : error) : error := e.

Definition Watch (st : Store) (p : string) (recursive stream : bool) (since : Z)
    : Store * (Z + error) := (st, inl (changes st)).

Definition env : Env :=
  Build_Env
    (* store *)
    Store Z 0 (fun ns => ns) (fun sec ns => sec * 1000000000 + ns)
    Get Create Set_ Update CompareAndSwap Delete CompareAndDelete
    (fun st _ => st)
    (fun st data => (st, None))
    (fun st => st)
    (fun st => inl (join ";" (List.map fst (kv st))))
    Watch
    (* transport *)
    Transport
    (fun t i urls => mkTransport (drop_peer i (peers t) ++ [(i, urls)]) (sent t))
    (fun t i => mkTransport (drop_peer i (peers t)) (sent t))
    (fun t i urls => mkTransport (drop_peer i (peers t) ++ [(i, urls)]) (sent t))
    (fun t => mkTransport [] (sent t))
    (fun t ms => mkTransport (peers t) (sent t ++ [ms]))
    (* consensus *)
    RaftNode
    (fun n data => mkRaftNode (proposals n ++ [data]) (nodes n))
    ApplyConfChange
    MemoryStorage CreateSnapshot Compact
    (list raftpb.Snapshot)
    (fun disk sn => (disk ++ [sn], None))
    (* helpers *)
    memberStoreKey removedMemberStoreKey nodeToMember
    mustParseMemberIDFromKey isKeyNotFound parseCtxErr dir
    (* codecs *)
    Marshal_RaftAttributes Unmarshal_Member Unmarshal_Attributes
    Request_Marshal Request_Unmarshal ConfChange_Unmarshal.

End toy.

(** ** Sample states on the small instance

    A cluster of the members 1 and 2, from which member 3 was removed,
    as of log index 3, and a server on it. *)

Module sample.

Definition m1 : Member :=
  mkMember 1 (mkRaftAttributes ["http://10.0.0.1:2380"]) (mkAttributes "" []).
Definition m2 : Member :=
  mkMember 2 (mkRaftAttributes ["http://10.0.0.2:2380"]) (mkAttributes "" []).

Definition st0 : toy.Store :=
  toy.mkStore
    [("/0/removed_members/3", "");
     ("/0/members/2/raftAttributes", "http://10.0.0.2:2380");
     ("/0/members/1/raftAttributes", "http://10.0.0.1:2380")]
    4.

Definition tr0 : toy.Transport :=
  toy.mkTransport
    [(1, ["http://10.0.0.1:2380"]); (2, ["http://10.0.0.2:2380"])] [].

Definition cluster0 : Cluster (E:=toy.env) :=
  mkCluster (E:=toy.env) 0 "etcd-cluster" st0 3 tr0
    (<[2 := m2]> (<[1 := m1]> ∅)) {[3]}.

Definition raft0 : raftNode (E:=toy.env) :=
  mkRaftNode (E:=toy.env) (toy.mkRaftNode [] [1; 2])
    (toy.mkMemoryStorage 0 0 3) [] 3 1 1.

Definition server0 : EtcdServer (E:=toy.env) :=
  mkEtcdServer (E:=toy.env) DefaultSnapCount raft0 wait.New false 1 cluster0
    (idutil.NewGenerator 1 1436000000000000000) [].

(** The same server after [s.done] was closed. *)
Definition stopped : EtcdServer (E:=toy.env) :=
  mkEtcdServer (E:=toy.env) DefaultSnapCount raft0 wait.New true 1 cluster0
    (idutil.NewGenerator 1 1436000000000000000) [].

(** A plain request with the given method, path and value. *)
Definition request (meth path val : string) : pb.Request :=
  pb.mkRequest 0 meth path val false "" 0 None 0 false 0 false false false 0
    false.

Definition no_snapshot : raftpb.Snapshot :=
  raftpb.mkSnapshot "" (raftpb.mkSnapshotMetadata (raftpb.mkConfState []) 0 0).

(** A server that has applied nothing yet, on an empty store. *)
Definition fresh : EtcdServer (E:=toy.env) :=
  mkEtcdServer (E:=toy.env) DefaultSnapCount
    (mkRaftNode (E:=toy.env) (toy.mkRaftNode [] [1]) (toy.mkMemoryStorage 0 0 0)
       [] 0 0 0)
    wait.New false 1
    (mkCluster (E:=toy.env) 0 "etcd-cluster" (toy.mkStore [] 0) 0
       (toy.mkTransport [] []) ∅ ∅)
    (idutil.NewGenerator 1 1436000000000000000) [].

Definition fresh_vars : run_vars := mkRunVars (raftpb.mkConfState [1]) 0 0 false.

(** The committed entry 1: [PUT /1/foo = bar], request id 7. *)
Definition entry1 : raftpb.Entry :=
  raftpb.mkEntry raftpb.EntryNormal 1 1 "7|PUT|/1/foo|bar||0|-".

(** The committed entry 4 of a longer log: [PUT /1/k = v], request id 8. *)
Definition entry4 : raftpb.Entry :=
  raftpb.mkEntry raftpb.EntryNormal 1 4 "8|PUT|/1/k|v||0|-".

(** Handing the batch [ap] to the apply loop once more. *)
Definition again (x : Go (EtcdServer (E:=toy.env) * run_vars)) (ap : apply_msg)
    : Go (EtcdServer (E:=toy.env) * run_vars) :=
  '(s, v) ← x; run_apply s v ap.

(** The store and the applied index that a turn of the loop leaves. *)
Definition observe (x : Go (EtcdServer (E:=toy.env) * run_vars))
    : Go (toy.Store * Z) :=
  '(s, v) ← x; Ret (store (cluster s), appliedi v).

End sample.

(** ** More of the cluster view (cluster.go) *)

Section cluster_more.
Context {E : Env}.

(** [Member(id)]: [nil] for an id that is not a member. *)
Definition cluster_Member (c : Cluster) (i : Z) : option Member := members c !! i.

(** The loop of [MemberByName] over the members in the order in which
    the map is ranged over; [memb] is [nil] until a member is found. *)
Fixpoint MemberByName_loop (ms : list Member) (name : string)
    (memb : option Member) : Go (option Member) :=
  match ms with
  | [] => Ret memb
  | m :: rest =>
      if bool_decide (Name (attributes m) = name)
      then match memb with
           | Some _ => Panic
           | None => MemberByName_loop rest name (Some m)
           end
      else MemberByName_loop rest name memb
  end.

Definition MemberByName (c : Cluster) (name : string) : Go (option Member) :=
  MemberByName_loop (map_to_list (members c)).*2 name None.

(** The inner loop of [Validate]: the URLs seen so far, or the URL that
    was seen before. *)
Fixpoint Validate_urls (us : list string) (urlMap : gset string)
    : gset string + string :=
  match us with
  | [] => inl urlMap
  | u :: rest =>
      if bool_decide (u ∈ urlMap) then inr u
      else Validate_urls rest ({[u]} ∪ urlMap)
  end.

Fixpoint Validate_members (ms : list Member) (urlMap : gset string)
    : option error :=
  match ms with
  | [] => None
  | m :: rest =>
      match Validate_urls (PeerURLs (raftAttributes m)) urlMap with
      | inr u => Some (ErrOther ("duplicate url " +:+ u +:+ " in cluster config"))
      | inl urlMap' => Validate_members rest urlMap'
      end
  end.

(** [Validate]: [None] is the [nil] error. *)
Definition Validate (c : Cluster) : option error :=
  Validate_members (Members c) ∅.

End cluster_more.

(** ** Restart as a standalone node (raft.go) *)

Section standalone.
Context {E : Env}.

(** [pbutil.MustMarshal] of a configuration change ([None]: it panics)
    and [json.Marshal] of a member, as the section's parameters. *)
Variable ConfChange_Marshal : raftpb.ConfChange -> option string.
Variable json_Marshal_Member : Member -> string + error.

(** The loop of [getIDs] over the entries. *)
Fixpoint getIDs_loop (ents : list raftpb.Entry) (ids : gset Z) : Go (gset Z) :=
  match ents with
  | [] => Ret ids
  | e :: rest =>
      match raftpb.Entry_Type e with
      | raftpb.EntryConfChange =>
          match ConfChange_Unmarshal (raftpb.Data e) with
          | None => Panic
          | Some cc =>
              match raftpb.cc_Type cc with
              | raftpb.ConfChangeAddNode =>
                  getIDs_loop rest ({[raftpb.NodeID cc]} ∪ ids)
              | raftpb.ConfChangeRemoveNode =>
                  getIDs_loop rest (ids ∖ {[raftpb.NodeID cc]})
              | _ => Panic
              end
          end
      | _ => getIDs_loop rest ids
      end
  end.

(** [getIDs(snap, ents)]; [snap] is [None] for the nil pointer. *)
Definition getIDs (snap : option raftpb.Snapshot) (ents : list raftpb.Entry)
    : Go (list Z) :=
  let ids :=
    match snap with
    | Some sn => list_to_set (raftpb.Nodes (raftpb.conf_state (raftpb.Metadata sn)))
    | None => ∅
    end in
  ids' ← getIDs_loop ents ids;
  Ret (merge_sort Z.le (elements ids')).

(** The loop of [createConfigChangeEnts]: the entries so far, [next]
    and [found]. *)
Fixpoint createConfigChangeEnts_loop (ids : list Z) (self term : Z)
    (ents : list raftpb.Entry) (next : Z) (found : bool)
    : Go (list raftpb.Entry * Z * bool) :=
  match ids with
  | [] => Ret (ents, next, found)
  | i :: rest =>
      if i =? self
      then createConfigChangeEnts_loop rest self term ents next true
      else
        match ConfChange_Marshal
                (raftpb.mkConfChange 0 raftpb.ConfChangeRemoveNode i "") with
        | None => Panic
        | Some d =>
            createConfigChangeEnts_loop rest self term
              (ents ++ [raftpb.mkEntry raftpb.EntryConfChange term next d])
              (u64 (next + 1)) found
        end
  end.

(** The member that [createConfigChangeEnts] adds for [self]. *)
Definition default_member (self : Z) : Member :=
  mkMember self
    (mkRaftAttributes ["http://localhost:7001"; "http://localhost:2380"])
    (mkAttributes "" []).

Definition createConfigChangeEnts (ids : list Z) (self term idx : Z)
    : Go (list raftpb.Entry) :=
  '(ents, next, found) ←
    createConfigChangeEnts_loop ids self term [] (u64 (idx + 1)) false;
  if (found : bool) then Ret ents
  else
    match json_Marshal_Member (default_member self) with
    | inr _ => Panic
    | inl ctx =>
        match ConfChange_Marshal
                (raftpb.mkConfChange 0 raftpb.ConfChangeAddNode self ctx) with
        | None => Panic
        | Some d =>
            Ret (ents ++ [raftpb.mkEntry raftpb.EntryConfChange term next d])
        end
    end.

(** [for i, ent := range ents { if ent.Index > st.Commit {
      ents = ents[:i]; break } }] of [restartAsStandaloneNode] *)
Fixpoint discard_uncommitted (ents : list raftpb.Entry) (commit : Z)
    : list raftpb.Entry :=
  match ents with
  | [] => []
  | e :: rest =>
      if commit <? raftpb.Index e then []
      else e :: discard_uncommitted rest commit
  end.

(** The log and the commit index that [restartAsStandaloneNode] hands to
    the raft storage, from what [readWAL] returned. *)
Definition standalone_log (snap : option raftpb.Snapshot)
    (ents : list raftpb.Entry) (self term commit : Z)
    : Go (list raftpb.Entry * Z) :=
  let ents := discard_uncommitted ents commit in
  ids ← getIDs snap ents;
  toAppEnts ← createConfigChangeEnts ids self term commit;
  let ents := ents ++ toAppEnts in
  Ret (ents, match last ents with
             | Some e => raftpb.Index e
             | None => commit
             end).

End standalone.

(** A text codec for configuration changes and members, for examples. *)
Module text.

Definition type_text (t : raftpb.ConfChangeType) : option string :=
  match t with
  | raftpb.ConfChangeAddNode => Some "add"
  | raftpb.ConfChangeRemoveNode => Some "remove"
  | raftpb.ConfChangeUpdateNode => Some "update"
  | raftpb.ConfChangeOther _ => None
  end.

Definition ConfChange_Marshal (cc : raftpb.ConfChange) : option string :=
  match type_text (raftpb.cc_Type cc) with
  | Some t =>
      Some (toy.join "|" [toy.to_hex (raftpb.ID cc); t;
                          toy.to_hex (raftpb.NodeID cc); raftpb.cc_Context cc])
  | None => None
  end.

Definition Marshal_Member (m : Member) : string + error :=
  inl (toy.join ";" [toy.to_hex (ID m);
                     toy.join "," (PeerURLs (raftAttributes m));
                     Name (attributes m);
                     toy.join "," (ClientURLs (attributes m))]).

End text.

(** A three-member cluster restarted as the standalone node [1]. *)
Module lone.

(** A snapshot at index 2 of term 1 that records the members 1, 2 and 3. *)
Definition snap : raftpb.Snapshot :=
  raftpb.mkSnapshot ""
    (raftpb.mkSnapshotMetadata (raftpb.mkConfState [3; 1; 2]) 2 1).

(** The log after the snapshot: member 4 joins, a write, member 2 leaves,
    and an uncommitted write at index 6. *)
Definition wal : list raftpb.Entry :=
  [ raftpb.mkEntry raftpb.EntryConfChange 1 3 "0|add|4|";
    raftpb.mkEntry raftpb.EntryNormal 1 4 "8|PUT|/1/k|v||0|-";
    raftpb.mkEntry raftpb.EntryConfChange 1 5 "0|remove|2|";
    raftpb.mkEntry raftpb.EntryNormal 1 6 "9|PUT|/1/k|w||0|-" ].

(** A change of the peer URLs of member 3, which the log may also hold. *)
Definition update3 : raftpb.Entry :=
  raftpb.mkEntry raftpb.EntryConfChange 1 6 "0|update|3|".

Definition getIDs := getIDs (E:=toy.env).

Definition createConfigChangeEnts :=
  createConfigChangeEnts text.ConfChange_Marshal text.Marshal_Member.

Definition standalone_log :=
  standalone_log (E:=toy.env) text.ConfChange_Marshal text.Marshal_Member.

End lone.

(** ** etcdserver: membership requests and incoming messages (server.go) *)

Section membership.
Context {E : Env}.

(** [s.r.ProposeConfChange(ctx, cc)] and [s.r.Step(ctx, m)]: the node
    after the call, and the error of the call. *)
Variable ProposeConfChange :
  RaftNode -> raftpb.ConfChange -> RaftNode * option error.
Variable Step : RaftNode -> raftpb.Message -> RaftNode * option error.

(** [httptypes.NewHTTPError(http.StatusForbidden, ...)] *)
Definition ErrForbidden : error :=
  ErrOther "cannot process message from removed member".

(** [Process(ctx, m)]; the receive statistics are not part of the model. *)
Definition Process (s : EtcdServer) (m : raftpb.Message)
    : EtcdServer * option error :=
  if IsIDRemoved (cluster s) (raftpb.From m) then (s, Some ErrForbidden)
  else let '(n, e) := Step (Node (r s)) m in (set_Node s n, e).

Definition with_cc_ID (cc : raftpb.ConfChange) (i : Z) : raftpb.ConfChange :=
  raftpb.mkConfChange i (raftpb.cc_Type cc) (raftpb.NodeID cc)
    (raftpb.cc_Context cc).

(** The [select] of [configure] for the change id [i] whose channel is
    [ch]: a received error is returned, a received nil (also the zero
    value of a closed channel) is success, anything else panics. *)
Definition configure_select (s : EtcdServer) (i : Z) (ch : nat)
    (ctx_err : option error) (sel : select_case)
    : Go (EtcdServer * option error) :=
  match sel with
  | case_ch =>
      '(w2, x) ← wait.recv ch (w s);
      match x with
      | Some (VError e) => Ret (set_w s w2, Some e)
      | Some (VResponse _) => Panic
      | Some VNil | None => Ret (set_w s w2, None)
      end
  | case_ctx_Done =>
      match ctx_err with
      | None => Block
      | Some e =>
          w2 ← wait.Trigger i VNil (w s);
          Ret (set_w s w2, Some (parseCtxErr e))
      end
  | case_done =>
      if done s then Ret (s, Some ErrStopped) else Block
  end.

(** [configure(ctx, cc)] up to its [select]: the fresh id, [Register] and
    [ProposeConfChange]. [inr] is the early return on a failed proposal,
    after [Trigger(cc.ID, nil)]. *)
Definition configure_propose (s : EtcdServer) (cc : raftpb.ConfChange)
    : Go (EtcdServer * (Z * nat + error)) :=
  let '(g, i) := idutil.Next (reqIDGen s) in
  let s := set_reqIDGen s g in
  let cc := with_cc_ID cc i in
  let '(w1, ch) := wait.Register (raftpb.ID cc) (w s) in
  let s := set_w s w1 in
  match ProposeConfChange (Node (r s)) cc with
  | (n, Some e) =>
      let s := set_Node s n in
      w2 ← wait.Trigger (raftpb.ID cc) VNil (w s);
      Ret (set_w s w2, inr e)
  | (n, None) => Ret (set_Node s n, inl (raftpb.ID cc, ch))
  end.

(** [configure(ctx, cc)] when no other goroutine runs between its steps. *)
Definition configure (s : EtcdServer) (ctx_err : option error)
    (sel : select_case) (cc : raftpb.ConfChange)
    : Go (EtcdServer * option error) :=
  '(s, res) ← configure_propose s cc;
  match res with
  | inr e => Ret (s, Some e)
  | inl (i, ch) => configure_select s i ch ctx_err sel
  end.

End membership.

(** A server on which member 1 asks to remove member 2. *)
Module ask.

(** A consensus node that records the configuration changes proposed. *)
Definition ProposeConfChange (n : toy.RaftNode) (cc : raftpb.ConfChange)
    : toy.RaftNode * option error :=
  match text.ConfChange_Marshal cc with
  | Some d => (toy.mkRaftNode (toy.proposals n ++ [d]) (toy.nodes n), None)
  | None => (n, Some (ErrOther "unknown configuration change"))
  end.

(** A consensus node that records the payloads it is stepped with. *)
Definition Step (n : toy.RaftNode) (m : raftpb.Message)
    : toy.RaftNode * option error :=
  (toy.mkRaftNode (toy.proposals n ++ [raftpb.payload m]) (toy.nodes n), None).

Definition remove2 : raftpb.ConfChange :=
  raftpb.mkConfChange 0 raftpb.ConfChangeRemoveNode 2 "".

(** A change of a type the consensus node does not know. *)
Definition unknown : raftpb.ConfChange :=
  raftpb.mkConfChange 0 (raftpb.ConfChangeOther 7) 2 "".

(** The committed entry 4 that carries the removal, with the id that
    [configure] gave it. *)
Definition entry : raftpb.Entry :=
  raftpb.mkEntry raftpb.EntryConfChange 1 4 "14e584518000001|remove|2|".

(** A message from member 2. *)
Definition from2 : raftpb.Message := raftpb.mkMessage 1 2 "heartbeat".

End ask.

(** ** The member-attribute pattern of the specification

    The specification writes the pattern as
    [^/0/members/[[:xdigit:]]{1,16}/attributes$]: it has to match the whole
    path. This definition follows the specification, for comparison with
    [storeMemberAttributeRegexp_MatchString], which follows the code. *)
Definition spec_MatchString_anchored (s : string) : bool :=
  match regexp.strip_prefix "/0/members/" s with
  | None => false
  | Some s1 =>
      let '(k, s2) := regexp.span_xdigit s1 in
      (1 <=? k)%nat && (k <=? 16)%nat && String.eqb s2 "/attributes"
  end.

(** Writes of user keys that the pattern of the code matches. *)
Module userkey.

(** A key of the user's key space, below [/1]. *)
Definition put_below : pb.Request :=
  sample.request "PUT" "/1/0/members/2/attributes/x" "v".

(** A key of the user's key space that ends like a member's attributes. *)
Definition put_alike : pb.Request :=
  sample.request "PUT" "/1/0/members/2/attributes" "intruder;http://10.9.9.9:2379".

(** The attributes of member [i] in the cache that a call leaves. *)
Definition cached (x : Go (EtcdServer (E:=toy.env) * Response)) (i : Z)
    : Go (option Attributes) :=
  '(s, _) ← x; Ret (attributes <$> members (cluster s) !! i).

End userkey.

(** * Properties *)

Lemma u64_range x : 0 <= u64 x < 2 ^ 64.
Proof. unfold u64. apply Z.mod_pos_bound. lia. Qed.

Lemma u64_small x : 0 <= x < 2 ^ 64 -> u64 x = x.
Proof. intros H. unfold u64. now apply Z.mod_small. Qed.

(** ** The identifier generator *)

Section idutil_facts.
Import idutil.

Lemma lowbit_suffixLen x : lowbit x suffixLen = x mod 2 ^ 56.
Proof.
  unfold lowbit.
  replace (Z.shiftr MaxUint64 (64 - suffixLen)) with (Z.ones 56) by reflexivity.
  apply Z.land_ones. lia.
Qed.

Lemma lowbit_tsLen x : lowbit x tsLen = x mod 2 ^ 40.
Proof.
  unfold lowbit.
  replace (Z.shiftr MaxUint64 (64 - tsLen)) with (Z.ones 40) by reflexivity.
  apply Z.land_ones. lia.
Qed.

Lemma after_prefix k g : prefix (after k g) = prefix g.
Proof.
  unfold after. induction k as [|k IH] using N.peano_ind.
  - reflexivity.
  - rewrite N.iter_succ. simpl. exact IH.
Qed.

Lemma after_suffix k g :
  0 <= suffix g < 2 ^ 64 ->
  suffix (after k g) = u64 (suffix g + Z.of_N k).
Proof.
  intros Hs. unfold after. induction k as [|k IH] using N.peano_ind.
  - simpl. rewrite Z.add_0_r. symmetry. now apply u64_small.
  - rewrite N.iter_succ. unfold Next at 1. cbn [fst suffix]. rewrite IH.
    unfold u64. rewrite Zplus_mod_idemp_l. f_equal. lia.
Qed.

Lemma NewGenerator_suffix_range m t :
  0 <= suffix (NewGenerator m t) < 2 ^ 64.
Proof. cbn [NewGenerator suffix]. apply u64_range. Qed.

Lemma NewGenerator_prefix m t :
  prefix (NewGenerator m t) = 2 ^ 56 * (m mod 2 ^ 8).
Proof.
  cbn [NewGenerator prefix]. unfold suffixLen, tsLen, cntLen.
  rewrite Z.shiftl_mul_pow2 by lia.
  change (2 ^ (5 * 8 + 2 * 8)) with (2 ^ 56). rewrite Z.mul_comm.
  apply u64_small.
  pose proof (Z.mod_pos_bound m (2 ^ 8) ltac:(lia)). lia.
Qed.

Lemma mod_mod_pow x : (x mod 2 ^ 64) mod 2 ^ 56 = x mod 2 ^ 56.
Proof.
  apply Z.mod_mod_divide. exists (2 ^ 8). reflexivity.
Qed.

(** The id of call [k] in closed form: prefix plus the 56-bit suffix. *)
Lemma call_closed m t k :
  call (NewGenerator m t) k =
    2 ^ 56 * (m mod 2 ^ 8)
    + (suffix (NewGenerator m t) + Z.of_N k + 1) mod 2 ^ 56.
Proof.
  unfold call. cbn [Next snd].
  rewrite after_prefix, after_suffix by apply NewGenerator_suffix_range.
  rewrite NewGenerator_prefix, lowbit_suffixLen.
  unfold u64. rewrite mod_mod_pow.
  rewrite <- Zplus_mod_idemp_l, mod_mod_pow, Zplus_mod_idemp_l.
  set (lo := (_ + 1) mod 2 ^ 56).
  assert (Hlo : 0 <= lo < 2 ^ 56) by (apply Z.mod_pos_bound; lia).
  rewrite <- Z.add_nocarry_lor; [reflexivity|].
  rewrite (Z.mul_comm (2 ^ 56)).
  apply Z.bits_inj'. intros n Hn.
  rewrite Z.land_spec, Z.bits_0.
  destruct (Z.lt_ge_cases n 56) as [Hlt|Hge].
  - rewrite Z.mul_pow2_bits_low by lia. reflexivity.
  - rewrite andb_comm.
    replace (Z.testbit lo n) with false; [reflexivity|].
    symmetry. destruct (Z.eq_dec lo 0) as [->|Hne]; [apply Z.bits_0|].
    apply Z.bits_above_log2; [lia|].
    apply Z.log2_lt_pow2; [lia|].
    eapply Z.lt_le_trans; [apply Hlo|]. apply Z.pow_le_mono_r; lia.
Qed.

(** C7, as stated, fails: the code keeps 56 bits of the suffix, so call
    number [2^56] returns the id call number 0 returned. *)
Lemma Next_repeats_after_window :
  (0 <> 2 ^ 56)%N /\
  call (NewGenerator 1 0) 0 = call (NewGenerator 1 0) (2 ^ 56).
Proof.
  split; [discriminate|].
  rewrite !call_closed. reflexivity.
Qed.

(** C7 (amended): two calls of [Next] on one generator whose call
    numbers are less than 2^56 apart return different ids, and each id is
    the member prefix ORed with the incremented suffix modulo 2^56 (the
    counter overflows into the timestamp field). *)
Theorem Next_unique_within_window (m t : Z) (i j : N) :
  i <> j ->
  Z.abs (Z.of_N i - Z.of_N j) < 2 ^ 56 ->
  call (NewGenerator m t) i <> call (NewGenerator m t) j /\
  call (NewGenerator m t) i =
    Z.lor (Z.shiftl (m mod 2 ^ 8) 56)
          ((suffix (NewGenerator m t) + Z.of_N i + 1) mod 2 ^ 56) /\
  suffix (after (N.succ i) (NewGenerator m t)) mod 2 ^ 56 =
    (suffix (after i (NewGenerator m t)) + 1) mod 2 ^ 56.
Proof.
  intros Hij Hw. split; [|split].
  - rewrite !call_closed. intros Heq.
    apply Z.add_cancel_l in Heq.
    set (s := suffix (NewGenerator m t)) in *.
    assert (Hd : ((s + Z.of_N i + 1) - (s + Z.of_N j + 1)) mod 2 ^ 56 = 0).
    { rewrite Zminus_mod, Heq, Z.sub_diag. reflexivity. }
    replace (s + Z.of_N i + 1 - (s + Z.of_N j + 1))
      with (Z.of_N i - Z.of_N j) in Hd by lia.
    apply Z.mod_divide in Hd; [|lia].
    destruct Hd as [q Hq].
    assert (q = 0) by nia.
    lia.
  - unfold call. cbn [Next snd].
    rewrite after_prefix, after_suffix by apply NewGenerator_suffix_range.
    rewrite lowbit_suffixLen.
    f_equal.
    + rewrite NewGenerator_prefix, Z.shiftl_mul_pow2 by lia. lia.
    + unfold u64. rewrite mod_mod_pow.
      now rewrite <- Zplus_mod_idemp_l, mod_mod_pow, Zplus_mod_idemp_l.
  - unfold after. rewrite N.iter_succ. unfold Next at 1. cbn [fst suffix].
    unfold u64. apply mod_mod_pow.
Qed.

Lemma Next_unique_within_window_witness :
  call (NewGenerator 7 1436000000000000000) 0 <>
  call (NewGenerator 7 1436000000000000000) 65536.
Proof.
  apply (Next_unique_within_window 7 1436000000000000000 0 65536).
  - discriminate.
  - vm_compute. reflexivity.
Defined.

End idutil_facts.

(** ** The wait registry *)

Section wait_facts.
Import wait.
Context {V : Type}.
Implicit Types (w : List V) (p : list (pending V)) (c : config V).

Lemma Inv_New : Inv (V:=V) (New, []).
Proof.
  repeat split; try (intros; set_solver).
  cbn. constructor.
Qed.

Lemma pchan_elem p (q : pending V) : q ∈ p -> pchan q ∈ pchan <$> p.
Proof. intros H. apply list_elem_of_fmap. eauto. Qed.

Lemma Inv_Register id w p : Inv (w, p) -> Inv (fst (Register id w), p).
Proof.
  intros (Hm & Hinj & Hs & Hc & Hnd). unfold Register.
  destruct (m w !! id) as [ch|] eqn:Hid; cbn [fst]; [by split_and!|].
  cbn [make_chan fst m chans].
  set (n := length (chans w)).
  assert (Hold : forall (ch : nat) (c : Chan V), chans w !! ch = Some c ->
            (chans w ++ [mkChan [] 1 false]) !! ch = Some c).
  { intros ch c Hl. rewrite lookup_app_l; [done|]. by eapply lookup_lt_Some. }
  assert (Hlt : forall (ch : nat) (c : Chan V),
            chans w !! ch = Some c -> ch <> n).
  { intros ch c Hl%lookup_lt_Some. unfold n. lia. }
  unfold Inv, fresh_chan, unregistered in *. cbn [m chans].
  split; [|split; [|split; [|split]]].
  - intros id' ch. rewrite lookup_insert. case_decide.
    + intros [= <-]. rewrite lookup_app_r by done.
      by rewrite Nat.sub_diag.
    + intros H'. eapply Hold, Hm, H'.
  - intros id1 id2 ch. rewrite !lookup_insert.
    repeat case_decide; subst; try done.
    + intros [= <-] H2. apply Hm in H2. by apply Hlt in H2.
    + intros H1 [= <-]. apply Hm in H1. by apply Hlt in H1.
    + apply Hinj.
  - intros ch x Hin. destruct (Hs ch x Hin) as [Hf Hu]. split; [by apply Hold|].
    intros id'. rewrite lookup_insert. case_decide; [|apply Hu].
    intros [= <-]. by apply Hlt in Hf.
  - intros ch Hin. destruct (Hc ch Hin) as [(c & Hl & Hcl & Hcap) Hu]. split.
    + exists c. split; [by apply Hold|done].
    + intros id'. rewrite lookup_insert. case_decide; [|apply Hu].
      intros [= <-]. by apply Hlt in Hl.
  - done.
Qed.

Lemma Inv_Trigger_locked id x w p :
  Inv (w, p) ->
  Inv (fst (Trigger_locked id w),
       match snd (Trigger_locked id w) with
       | Some ch => PSend ch x :: p
       | None => p
       end).
Proof.
  intros (Hm & Hinj & Hs & Hc & Hnd). cbn [Trigger_locked fst snd].
  unfold Inv, fresh_chan, unregistered in *. cbn [m chans].
  assert (Hdel : forall (id' : Z) (ch : nat),
            delete id (m w) !! id' = Some ch ->
            m w !! id' = Some ch /\ id' <> id).
  { intros id' ch. rewrite lookup_delete. case_decide; [done|]. auto. }
  destruct (m w !! id) as [ch0|] eqn:Hid.
  - split; [|split; [|split; [|split]]].
    + intros id' ch [H' _]%Hdel. eapply Hm, H'.
    + intros id1 id2 ch [H1 _]%Hdel [H2 _]%Hdel. eapply Hinj; eauto.
    + intros ch x' [[= -> ->]|Hin]%elem_of_cons.
      * split; [eapply Hm, Hid|].
        intros id' [H' Hne]%Hdel. apply Hne. eapply Hinj; eauto.
      * destruct (Hs ch x' Hin) as [Hf Hu]. split; [done|].
        intros id' [H' _]%Hdel. by apply (Hu id').
    + intros ch [[=]|Hin]%elem_of_cons.
      destruct (Hc ch Hin) as [Hex Hu]. split; [done|].
      intros id' [H' _]%Hdel. by apply (Hu id').
    + rewrite fmap_cons. apply NoDup_cons. split; [|done].
      intros ([ch x'|ch] & Heq & Hin)%list_elem_of_fmap; cbn in Heq; subst.
      * destruct (Hs _ _ Hin) as [_ Hu]. by apply (Hu id).
      * destruct (Hc _ Hin) as [_ Hu]. by apply (Hu id).
  - split; [|split; [|split; [|split]]].
    + intros id' ch [H' _]%Hdel. eapply Hm, H'.
    + intros id1 id2 ch [H1 _]%Hdel [H2 _]%Hdel. eapply Hinj; eauto.
    + intros ch x' Hin. destruct (Hs ch x' Hin) as [Hf Hu]. split; [done|].
      intros id' [H' _]%Hdel. by apply (Hu id').
    + intros ch Hin. destruct (Hc ch Hin) as [Hex Hu]. split; [done|].
      intros id' [H' _]%Hdel. by apply (Hu id').
    + done.
Qed.

Lemma NoDup_mid p1 p2 (q q' : pending V) :
  NoDup (pchan <$> (p1 ++ q :: p2)) -> q' ∈ p1 ++ p2 -> pchan q' <> pchan q.
Proof.
  rewrite fmap_app, fmap_cons.
  intros Hnd Hin Heq.
  apply NoDup_app in Hnd as (_ & Hdisj & [Hnot _]%NoDup_cons).
  apply elem_of_app in Hin as [Hin|Hin].
  - apply (Hdisj (pchan q')); [by apply pchan_elem|].
    rewrite Heq. left.
  - apply Hnot. rewrite <- Heq. by apply pchan_elem.
Qed.

Lemma NoDup_mid_remove p1 p2 (q : pending V) :
  NoDup (pchan <$> (p1 ++ q :: p2)) -> NoDup (pchan <$> (p1 ++ p2)).
Proof.
  rewrite !fmap_app, fmap_cons.
  intros (H1 & Hdisj & [_ H2]%NoDup_cons)%NoDup_app.
  apply NoDup_app. split_and!; [done| |done].
  intros y Hy1 Hy2. apply (Hdisj y Hy1). by right.
Qed.

Lemma elem_of_mid p1 p2 (q q' : pending V) :
  q' ∈ p1 ++ q :: p2 <-> q' = q \/ q' ∈ p1 ++ p2.
Proof. rewrite !elem_of_app, elem_of_cons. tauto. Qed.

Lemma Inv_send ch x w w' p1 p2 :
  Inv (w, p1 ++ PSend ch x :: p2) ->
  send ch x w = Ret w' ->
  Inv (w', p1 ++ PClose ch :: p2).
Proof.
  intros (Hm & Hinj & Hs & Hc & Hnd) Hsend.
  destruct (Hs ch x) as [Hf Hu]; [apply elem_of_mid; by left|].
  unfold send in Hsend. rewrite Hf in Hsend. cbn in Hsend.
  injection Hsend as <-.
  unfold Inv, fresh_chan, unregistered in *. cbn [m chans].
  assert (Hother : forall q, q ∈ p1 ++ p2 -> pchan q <> ch).
  { intros q Hq. by apply (NoDup_mid _ _ _ _ Hnd Hq). }
  split_and!.
  - intros id' ch' H'. rewrite list_lookup_insert_ne; [by eapply Hm|].
    intros <-. by apply (Hu id').
  - done.
  - intros ch' x' Hin.
    apply elem_of_mid in Hin as [[=]|Hin].
    destruct (Hs ch' x') as [Hf' Hu']; [apply elem_of_mid; by right|].
    split; [|done]. rewrite list_lookup_insert_ne; [done|].
    intros <-. by apply (Hother _ Hin).
  - intros ch' Hin. apply elem_of_mid in Hin as [[= ->]|Hin].
    + split; [|done]. eexists.
      split; [apply list_lookup_insert_eq; by eapply lookup_lt_Some|done].
    + destruct (Hc ch') as [Hex Hu']; [apply elem_of_mid; by right|].
      split; [|done]. rewrite list_lookup_insert_ne; [done|].
      intros <-. by apply (Hother _ Hin).
  - by rewrite fmap_app, fmap_cons in *.
Qed.

Lemma Inv_close ch w w' p1 p2 :
  Inv (w, p1 ++ PClose ch :: p2) ->
  close ch w = Ret w' ->
  Inv (w', p1 ++ p2).
Proof.
  intros (Hm & Hinj & Hs & Hc & Hnd) Hclose.
  destruct (Hc ch) as [(c0 & Hl & Hcl & Hcap) Hu]; [apply elem_of_mid; by left|].
  unfold close in Hclose. rewrite Hl, Hcl in Hclose.
  injection Hclose as <-.
  unfold Inv, fresh_chan, unregistered in *. cbn [m chans].
  assert (Hother : forall q, q ∈ p1 ++ p2 -> pchan q <> ch).
  { intros q Hq. by apply (NoDup_mid _ _ _ _ Hnd Hq). }
  split_and!.
  - intros id' ch' H'. rewrite list_lookup_insert_ne; [by eapply Hm|].
    intros <-. by apply (Hu id').
  - done.
  - intros ch' x' Hin.
    destruct (Hs ch' x') as [Hf' Hu']; [apply elem_of_mid; by right|].
    split; [|done]. rewrite list_lookup_insert_ne; [done|].
    intros <-. by apply (Hother _ Hin).
  - intros ch' Hin.
    destruct (Hc ch') as [Hex Hu']; [apply elem_of_mid; by right|].
    split; [|done]. rewrite list_lookup_insert_ne; [done|].
    intros <-. by apply (Hother _ Hin).
  - by eapply NoDup_mid_remove.
Qed.

Lemma Inv_recv ch w w' r p :
  Inv (w, p) -> recv ch w = Ret (w', r) -> Inv (w', p).
Proof.
  intros (Hm & Hinj & Hs & Hc & Hnd) Hrecv.
  unfold recv in Hrecv.
  destruct (chans w !! ch) as [c0|] eqn:Hl; [|done].
  destruct (buf c0) as [|x rest] eqn:Hbuf.
  { destruct (closed c0); [|done]. injection Hrecv as <- <-. by split_and!. }
  injection Hrecv as <- <-.
  unfold Inv, fresh_chan, unregistered in *. cbn [m chans].
  assert (Hnf : chans w !! ch <> Some (mkChan [] 1 false)).
  { rewrite Hl. intros [= ->]. done. }
  split_and!.
  - intros id' ch' H'. rewrite list_lookup_insert_ne; [by eapply Hm|].
    intros <-. by apply Hm in H'.
  - done.
  - intros ch' x' Hin. destruct (Hs ch' x' Hin) as [Hf' Hu'].
    split; [|done]. rewrite list_lookup_insert_ne; [done|]. by intros <-.
  - intros ch' Hin. destruct (Hc ch' Hin) as [(c1 & Hl1 & Hcl1 & Hcap1) Hu'].
    split; [|done]. destruct (decide (ch = ch')) as [<-|Hne].
    + eexists. split; [apply list_lookup_insert_eq; by eapply lookup_lt_Some|].
      rewrite Hl in Hl1. injection Hl1 as <-. done.
    + exists c1. by rewrite list_lookup_insert_ne.
  - done.
Qed.

Lemma Inv_step c c' : Inv c -> step c c' -> Inv c'.
Proof.
  intros HI Hstep. destruct Hstep.
  - by apply Inv_Register.
  - by apply Inv_Trigger_locked.
  - by eapply Inv_send.
  - by eapply Inv_close.
  - by eapply Inv_recv.
Qed.

Lemma reachable_Inv c : reachable c -> Inv c.
Proof.
  induction 1 as [|c c' _ IH Hstep]; [apply Inv_New|].
  by eapply Inv_step.
Qed.

(** A [Trigger] that has left its critical section is never stuck: its
    send finds room in the buffer and its close an open channel. *)
Lemma pending_send_enabled w p ch x :
  Inv (w, p) -> PSend ch x ∈ p -> exists w', send ch x w = Ret w'.
Proof.
  intros (_ & _ & Hs & _) Hin. destruct (Hs _ _ Hin) as [Hf _].
  unfold send. rewrite Hf. cbn. eauto.
Qed.

Lemma pending_close_enabled w p ch :
  Inv (w, p) -> PClose ch ∈ p -> exists w', close ch w = Ret w'.
Proof.
  intros (_ & _ & _ & Hc & _) Hin.
  destruct (Hc _ Hin) as [(c0 & Hl & Hcl & _) _].
  unfold close. rewrite Hl, Hcl. eauto.
Qed.

(** What [Trigger] does on a registry that satisfies the invariant. *)
Lemma Trigger_registered id x w p ch :
  Inv (w, p) -> m w !! id = Some ch ->
  Trigger id x w =
    Ret (mkList (delete id (m w)) (<[ch := mkChan [x] 1 true]> (chans w))).
Proof.
  intros (Hm & _) Hid. specialize (Hm _ _ Hid). unfold fresh_chan in Hm.
  unfold Trigger, Trigger_locked. rewrite Hid.
  unfold send. cbn [chans m]. rewrite Hm. cbn.
  unfold close. cbn [chans m].
  rewrite list_lookup_insert_eq by (by eapply lookup_lt_Some). cbn.
  by rewrite list_insert_insert_eq.
Qed.

Lemma Trigger_unregistered id x w :
  m w !! id = None -> Trigger id x w = Ret w.
Proof.
  intros Hid. unfold Trigger, Trigger_locked. rewrite Hid.
  destruct w as [mw cw]. cbn in *. by rewrite delete_id.
Qed.

Lemma Register_lookup id w :
  m (fst (Register id w)) !! id = Some (snd (Register id w)).
Proof.
  unfold Register. destruct (m w !! id) eqn:Hid; cbn; [done|].
  apply lookup_insert_eq.
Qed.

(** C3: on every reachable registry, [Register id] followed by
    [Trigger id v] returns (it neither blocks nor panics), removes the
    slot, and leaves [v] alone in the registered receiver's channel, which
    is closed: the receiver gets [v] once and then only the closed-channel
    zero value; no other channel changes; a later [Trigger] for [id] is a
    no-op; every [Trigger], also one interleaved with others after its
    critical section, proceeds without blocking. *)
Theorem Register_Trigger_delivers (c : config V) (id : Z) (v : V) :
  reachable c ->
  let w1 := fst (Register id (fst c)) in
  let ch := snd (Register id (fst c)) in
  exists w2,
    Trigger id v w1 = Ret w2 /\
    m w2 !! id = None /\
    chans w2 !! ch = Some (mkChan [v] 1 true) /\
    (forall ch' : nat, ch' <> ch -> chans w2 !! ch' = chans w1 !! ch') /\
    (exists w3, recv ch w2 = Ret (w3, Some v) /\ recv ch w3 = Ret (w3, None)) /\
    (forall v', Trigger id v' w2 = Ret w2) /\
    (forall id' v', exists w', Trigger id' v' (fst c) = Ret w') /\
    (forall ch' x, PSend ch' x ∈ snd c -> exists w', send ch' x (fst c) = Ret w') /\
    (forall ch', PClose ch' ∈ snd c -> exists w', close ch' (fst c) = Ret w').
Proof.
  intros Hreach%reachable_Inv. destruct c as [w p]. cbn [fst snd].
  set (w1 := fst (Register id w)). set (ch := snd (Register id w)). cbn zeta.
  assert (HI1 : Inv (w1, p)) by by apply Inv_Register.
  assert (Hid : m w1 !! id = Some ch) by apply Register_lookup.
  assert (Hlt : (ch < length (chans w1))%nat).
  { destruct HI1 as (Hm & _). eapply lookup_lt_Some, Hm, Hid. }
  eexists. split; [by eapply Trigger_registered|].
  cbn [m chans]. split_and!.
  - apply lookup_delete_eq.
  - by apply list_lookup_insert_eq.
  - intros ch' Hne. by apply list_lookup_insert_ne.
  - eexists. unfold recv. cbn [chans m].
    rewrite list_lookup_insert_eq by done. cbn [buf closed cap].
    split; [reflexivity|]. cbn [chans].
    rewrite list_lookup_insert_eq by (by rewrite length_insert). done.
  - intros v'. apply Trigger_unregistered. apply lookup_delete_eq.
  - intros id' v'. destruct (m w !! id') as [ch'|] eqn:Hid'.
    + eexists. by eapply Trigger_registered.
    + eexists. by apply Trigger_unregistered.
  - intros ch' x Hin. by eapply pending_send_enabled.
  - intros ch' Hin. by eapply pending_close_enabled.
Qed.

End wait_facts.

(** The theorem at a registry where id 3 is registered and a [Trigger]
    for id 5 has left its critical section. *)
Lemma Register_Trigger_delivers_witness :
  exists w2 : wait.List nat,
    wait.Trigger 7 42%nat
      (fst (wait.Register 7
         (fst (wait.Trigger_locked 5
            (fst (wait.Register 5 (fst (wait.Register 3 wait.New)))))))) = Ret w2 /\
    wait.m w2 !! 7 = None.
Proof.
  destruct (Register_Trigger_delivers
    (fst (wait.Trigger_locked 5 (fst (wait.Register 5 (fst (wait.Register 3 wait.New))))),
     [wait.PSend 1%nat 9%nat]) 7 42%nat) as (w2 & H1 & H2 & _).
  - eapply wait.reachable_step; [eapply wait.reachable_step;
      [eapply wait.reachable_step; [apply wait.reachable_New|]|]|].
    + apply (wait.step_Register 3).
    + apply (wait.step_Register 5).
    + apply (wait.step_Trigger_locked 5 9%nat).
  - exists w2. split; [exact H1|exact H2].
Defined.

(** ** The member-attribute pattern *)

Section regexp_facts.
Import regexp.

Lemma strip_prefix_spec (p s r : string) :
  strip_prefix p s = Some r <-> s = p +:+ r.
Proof.
  revert s. induction p as [|a p IH]; intros s; cbn.
  - split; [by intros [= ->]|by intros ->].
  - destruct s as [|b s]; [done|].
    destruct (Ascii.eqb a b) eqn:Hab.
    + apply Ascii.eqb_eq in Hab as ->. rewrite IH. split; [by intros ->|].
      by intros [= ->].
    + split; [done|]. intros [= -> _]. by rewrite Ascii.eqb_refl in Hab.
Qed.

Lemma span_xdigit_spec (s : string) :
  exists h, s = h +:+ snd (span_xdigit s) /\
            String.length h = fst (span_xdigit s) /\
            all_xdigit h = true /\ stops (snd (span_xdigit s)).
Proof.
  induction s as [|c s (h & Hs & Hl & Hx & Hstop)]; cbn.
  - by exists "".
  - destruct (is_xdigit c) eqn:Hc.
    + destruct (span_xdigit s) as [k r]. cbn in *.
      exists (String c h). cbn. rewrite Hc, Hl, Hx. by subst s.
    + exists "". cbn. by rewrite Hc.
Qed.

Lemma span_xdigit_app (h r : string) :
  all_xdigit h = true -> stops r ->
  span_xdigit (h +:+ r) = (String.length h, r).
Proof.
  intros Hx Hstop. induction h as [|c h IH].
  - change ("" +:+ r) with r.
    destruct r as [|c r]; [done|]. cbn in *. by rewrite Hstop.
  - change (String c h +:+ r) with (String c (h +:+ r)). cbn in *.
    apply andb_prop in Hx as [-> Hx]. by rewrite (IH Hx).
Qed.

Lemma match_here_spec (lit1 lit2 : string) (lo hi : nat) (s : string) :
  stops lit2 -> lit2 <> "" ->
  match_here lit1 lit2 lo hi s = true <->
  exists h post,
    s = lit1 +:+ h +:+ lit2 +:+ post /\
    (lo <= String.length h <= hi)%nat /\ all_xdigit h = true.
Proof.
  intros Hstop Hne. unfold match_here. split.
  - destruct (strip_prefix lit1 s) as [s1|] eqn:H1; [|done].
    apply strip_prefix_spec in H1 as ->.
    destruct (span_xdigit_spec s1) as (h & Hs1 & Hl & Hx & _).
    destruct (span_xdigit s1) as [k s2]. cbn in *.
    destruct (strip_prefix lit2 s2) as [post|] eqn:H2;
      [|by rewrite andb_false_r].
    apply strip_prefix_spec in H2 as ->.
    intros [[Hlo%Nat.leb_le Hhi%Nat.leb_le]%andb_prop _]%andb_prop.
    exists h, post. rewrite Hs1. split; [done|]. split; [lia|done].
  - intros (h & post & -> & [Hlo Hhi] & Hx).
    assert (H1 : strip_prefix lit1 (lit1 +:+ h +:+ lit2 +:+ post)
                 = Some (h +:+ lit2 +:+ post)) by by apply strip_prefix_spec.
    rewrite H1. rewrite span_xdigit_app; [|done|].
    + assert (H2 : strip_prefix lit2 (lit2 +:+ post) = Some post)
        by by apply strip_prefix_spec.
      rewrite H2.
      apply andb_true_intro. split; [|done].
      apply andb_true_intro. split; by apply Nat.leb_le.
    + destruct lit2 as [|c l2]; [done|]. exact Hstop.
Qed.

Lemma search_spec (lit1 lit2 : string) (lo hi : nat) (s : string) :
  stops lit2 -> lit2 <> "" ->
  search lit1 lit2 lo hi s = true <->
  exists pre h post,
    s = pre +:+ lit1 +:+ h +:+ lit2 +:+ post /\
    (lo <= String.length h <= hi)%nat /\ all_xdigit h = true.
Proof.
  intros Hstop Hne. induction s as [|c s IH]; cbn [search].
  - rewrite orb_false_r, match_here_spec by done. split.
    + intros (h & post & Hs & Hrest). by exists "", h, post.
    + intros ([|c pre] & h & post & Hs & Hrest); [by exists h, post|done].
  - rewrite orb_true_iff, match_here_spec, IH by done. split.
    + intros [(h & post & Hs & Hrest)|(pre & h & post & -> & Hrest)].
      * by exists "", h, post.
      * by exists (String c pre), h, post.
    + intros ([|c' pre] & h & post & Hs & Hrest).
      * left. by exists h, post.
      * right. injection Hs as -> ->. by exists pre, h, post.
Qed.

(** [storeMemberAttributeRegexp.MatchString] holds of the strings that
    contain [/0/members/], 1 to 16 hexadecimal digits and [/attributes],
    anywhere. *)
Lemma MatchString_spec (s : string) :
  storeMemberAttributeRegexp_MatchString s = true <->
  exists pre h post,
    s = pre +:+ "/0/members/" +:+ h +:+ "/attributes" +:+ post /\
    (1 <= String.length h <= 16)%nat /\ all_xdigit h = true.
Proof.
  unfold storeMemberAttributeRegexp_MatchString. by apply search_spec.
Qed.

(** The search is not anchored: a key under [/1] matches as well. *)
Example MatchString_inside :
  storeMemberAttributeRegexp_MatchString
    "/1/0/members/2/attributes/x" = true
  /\ storeMemberAttributeRegexp_MatchString
    "/0/members/2/attributes" = true
  /\ storeMemberAttributeRegexp_MatchString
    "/0/members/2/raftAttributes" = false
  /\ storeMemberAttributeRegexp_MatchString
    "/0/members/0123456789abcdef0/attributes" = false.
Proof. vm_compute. done. Qed.

End regexp_facts.

(** ** applyRequest *)

Section applyRequest_facts.
Context {E : Env}.

Lemma UpdateAttributes_store c i attr c' :
  UpdateAttributes c i attr = Ret c' -> store c' = store c.
Proof.
  unfold UpdateAttributes. destruct (members c !! i); [|done].
  by intros [= <-].
Qed.

(** The store operation that [applyRequest] performs for a PUT, by
    [PrevExist], [PrevIndex] and [PrevValue]; in the [Set] case a path
    that the member-attribute pattern matches has its value decoded and
    handed to [Cluster.UpdateAttributes] first, and the [Set] then runs on
    the store, which that call leaves as it was. *)
Theorem applyRequest_PUT_table (s : EtcdServer) (req : pb.Request) :
  pb.Method req = "PUT" ->
  let st := store (cluster s) in
  let expr := UnixNanoToTime (pb.Expiration req) in
  let cas := store_CompareAndSwap st (pb.Path req) (pb.PrevValue req)
               (pb.PrevIndex req) (pb.Val req) expr in
  let set := store_Set st (pb.Path req) (pb.Dir req) (pb.Val req) expr in
  (pb.PrevExist req = Some true ->
   pb.PrevIndex req = 0 /\ pb.PrevValue req = "" ->
   applyRequest s req =
     Ret (f_resp s (store_Update st (pb.Path req) (pb.Val req) expr))) /\
  (pb.PrevExist req = Some true ->
   ~ (pb.PrevIndex req = 0 /\ pb.PrevValue req = "") ->
   applyRequest s req = Ret (f_resp s cas)) /\
  (pb.PrevExist req = Some false ->
   applyRequest s req =
     Ret (f_resp s (store_Create st (pb.Path req) (pb.Dir req) (pb.Val req)
                      false expr))) /\
  (pb.PrevExist req = None ->
   0 < pb.PrevIndex req \/ pb.PrevValue req <> "" ->
   applyRequest s req = Ret (f_resp s cas)) /\
  (pb.PrevExist req = None ->
   ~ (0 < pb.PrevIndex req \/ pb.PrevValue req <> "") ->
   (storeMemberAttributeRegexp_MatchString (pb.Path req) = false ->
    applyRequest s req = Ret (f_resp s set)) /\
   (storeMemberAttributeRegexp_MatchString (pb.Path req) = true ->
    applyRequest s req =
      match mustParseMemberIDFromKey (path_Dir (pb.Path req)) with
      | None => Panic
      | Some i =>
          match json_Unmarshal_Attributes (pb.Val req) with
          | None => Panic
          | Some attr =>
              c ← UpdateAttributes (cluster s) i attr;
              Ret (f_resp (set_cluster s c) set)
          end
      end)).
Proof.
  intros Hm st expr cas set.
  assert (Happ : applyRequest s req = applyRequest_PUT s req).
  { unfold applyRequest. rewrite Hm.
    rewrite bool_decide_eq_false_2 by discriminate.
    by rewrite bool_decide_eq_true_2. }
  rewrite Happ. unfold applyRequest_PUT.
  split_and!.
  - intros -> [-> ->]. cbn. by rewrite bool_decide_eq_true_2.
  - intros -> Hpre. cbn.
    destruct (pb.PrevIndex req =? 0) eqn:Hi; [|done]. cbn.
    rewrite bool_decide_eq_false_2; [done|].
    intros Hv. apply Hpre. split; [lia|done].
  - by intros ->.
  - intros -> Hpre. cbn.
    destruct Hpre as [Hi|Hv].
    + by replace (0 <? pb.PrevIndex req) with true by lia.
    + rewrite (bool_decide_eq_false_2 _ Hv). cbn. by rewrite orb_true_r.
  - intros -> Hpre.
    assert (Hno : (0 <? pb.PrevIndex req)
                  || negb (bool_decide (pb.PrevValue req = "")) = false).
    { apply orb_false_iff. split.
      - apply Z.ltb_ge. destruct (Z.le_gt_cases (pb.PrevIndex req) 0); [done|].
        exfalso. apply Hpre. left. lia.
      - apply negb_false_iff, bool_decide_eq_true_2.
        destruct (decide (pb.PrevValue req = "")); [done|].
        exfalso. apply Hpre. by right. }
    cbn. rewrite Hno. split.
    + by intros ->.
    + intros ->.
      destruct (mustParseMemberIDFromKey _) as [i|]; [|done].
      destruct (json_Unmarshal_Attributes _) as [attr|]; [|done].
      destruct (UpdateAttributes (cluster s) i attr) as [c| | |] eqn:Hu; try done.
      cbn. apply UpdateAttributes_store in Hu. unfold set, st.
      by rewrite Hu.
Qed.

End applyRequest_facts.

(** The table at the request by which member 2 publishes its
    attributes: the cache is updated, then the key is set. *)
Lemma applyRequest_PUT_table_witness :
  applyRequest (E:=toy.env) sample.server0
    (sample.request "PUT" "/0/members/2/attributes" "infra2;http://10.0.0.2:2379")
  = (c ← UpdateAttributes (E:=toy.env) sample.cluster0 2
           (mkAttributes "infra2" ["http://10.0.0.2:2379"]);
     Ret (f_resp (E:=toy.env) (set_cluster sample.server0 c)
            (toy.Set_ sample.st0 "/0/members/2/attributes" false
               "infra2;http://10.0.0.2:2379" 0))).
Proof.
  pose proof (applyRequest_PUT_table (E:=toy.env) sample.server0
    (sample.request "PUT" "/0/members/2/attributes" "infra2;http://10.0.0.2:2379")
    eq_refl) as H.
  cbv zeta in H. destruct H as (_ & _ & _ & _ & H).
  destruct (H eq_refl) as [_ H'].
  - cbn. intros [Hlt|Hne]; [lia|by apply Hne].
  - apply H'. vm_compute. reflexivity.
Defined.

Lemma spec_MatchString_anchored_spec (s : string) :
  spec_MatchString_anchored s = true <->
  exists h, s = "/0/members/" +:+ h +:+ "/attributes" /\
            (1 <= String.length h <= 16)%nat /\ regexp.all_xdigit h = true.
Proof.
  unfold spec_MatchString_anchored. split.
  - destruct (regexp.strip_prefix _ s) as [s1|] eqn:H1; [|done].
    apply strip_prefix_spec in H1 as ->.
    destruct (span_xdigit_spec s1) as (h & Hs1 & Hl & Hx & _).
    destruct (regexp.span_xdigit s1) as [k s2]. cbn [fst snd] in *.
    intros [[Hlo%Nat.leb_le Hhi%Nat.leb_le]%andb_prop Hs2%String.eqb_eq]%andb_prop.
    subst s2 k. exists h. by rewrite Hs1.
  - intros (h & -> & Hl & Hx).
    change (regexp.strip_prefix "/0/members/"
              ("/0/members/" +:+ h +:+ "/attributes"))
      with (regexp.strip_prefix "" (h +:+ "/attributes")).
    cbn [regexp.strip_prefix].
    rewrite span_xdigit_app by done.
    rewrite (proj2 (Nat.leb_le _ _) (proj1 Hl)), (proj2 (Nat.leb_le _ _) (proj2 Hl)).
    done.
Qed.

(** C1: the pattern of the code is not anchored, so [applyRequest] does
    not follow the table of the specification on every PUT. Whatever the
    specification's pattern matches, the code's pattern matches too, but
    the code's pattern also matches keys of the user's key space, which
    the specification sends straight to [Set]. The PUT of
    [/1/0/members/2/attributes/x] panics before the [Set], because the
    directory of the path is not the key of a member; the PUT of
    [/1/0/members/2/attributes] replaces the cached attributes of
    member 2 by the value of a user key. *)
Theorem applyRequest_PUT_unanchored :
  (forall s, spec_MatchString_anchored s = true ->
             storeMemberAttributeRegexp_MatchString s = true) /\
  spec_MatchString_anchored (pb.Path userkey.put_below) = false /\
  storeMemberAttributeRegexp_MatchString (pb.Path userkey.put_below) = true /\
  applyRequest (E:=toy.env) sample.server0 userkey.put_below = Panic /\
  spec_MatchString_anchored (pb.Path userkey.put_alike) = false /\
  storeMemberAttributeRegexp_MatchString (pb.Path userkey.put_alike) = true /\
  attributes <$> members sample.cluster0 !! 2 = Some (mkAttributes "" []) /\
  userkey.cached (applyRequest (E:=toy.env) sample.server0 userkey.put_alike) 2
    = Ret (Some (mkAttributes "intruder" ["http://10.9.9.9:2379"])).
Proof.
  split_and!.
  - intros s (h & -> & Hl & Hx)%spec_MatchString_anchored_spec.
    apply MatchString_spec. exists "", h, "". split; [|done].
    change ("" +:+ "/0/members/" +:+ h +:+ "/attributes" +:+ "")
      with ("/0/members/" +:+ h +:+ "/attributes").
    done.
  - vm_compute. reflexivity.
  - vm_compute. reflexivity.
  - pose proof (applyRequest_PUT_table (E:=toy.env) sample.server0
                  userkey.put_below eq_refl) as H.
    cbv zeta in H. destruct H as (_ & _ & _ & _ & H).
    destruct (H eq_refl) as [_ H'].
    + cbn. intros [Hlt|Hne]; [lia|by apply Hne].
    + rewrite H' by (vm_compute; reflexivity).
      replace (mustParseMemberIDFromKey (path_Dir (pb.Path userkey.put_below)))
        with (@None Z) by (vm_compute; reflexivity).
      reflexivity.
  - vm_compute. reflexivity.
  - vm_compute. reflexivity.
  - vm_compute. reflexivity.
  - vm_compute. reflexivity.
Qed.

(** ** send *)

Section send_facts.
Context {E : Env}.

Lemma send_step_length c ms i : length (send_step c ms i) = length ms.
Proof.
  unfold send_step. destruct (ms !! i); [|done].
  destruct (IsIDRemoved _ _); [|done]. apply length_insert.
Qed.

(** After the first [k] turns of the loop the first [k] messages are
    censored and the others are as they were. *)
Lemma send_loop_prefix c ms k :
  (k <= length ms)%nat ->
  fold_left (send_step c) (seq 0 k) ms = (censor c <$> take k ms) ++ drop k ms.
Proof.
  induction k as [|k IH]; intros Hk.
  - by rewrite take_0, drop_0.
  - rewrite seq_S, fold_left_app, IH by lia. cbn [fold_left Nat.add].
    destruct (lookup_lt_is_Some_2 ms k ltac:(lia)) as [mk Hmk].
    assert (Hlen : length (censor c <$> take k ms) = k).
    { rewrite length_fmap, length_take. lia. }
    rewrite (take_S_r _ _ _ Hmk), fmap_app, <- app_assoc.
    rewrite (drop_S _ _ _ Hmk). cbn [fmap list_fmap app].
    unfold send_step.
    rewrite lookup_app_r by lia. rewrite Hlen, Nat.sub_diag. cbn [lookup list_lookup].
    destruct (IsIDRemoved c (raftpb.To mk)) eqn:Hr.
    + replace (censor c mk)
        with (raftpb.mkMessage 0 (raftpb.From mk) (raftpb.payload mk))
        by (unfold censor; by rewrite Hr).
      rewrite insert_app_r_alt by lia. by rewrite Hlen, Nat.sub_diag.
    + replace (censor c mk) with mk by (unfold censor; by rewrite Hr).
      done.
Qed.

(** C9: [send] hands the transport the batch in which every message to
    a removed member has [To] set to 0 and every other message is as it
    was; the batch keeps its length and its order. *)
Theorem send_censors_removed (s : EtcdServer) (ms : list raftpb.Message) :
  let ms' := snd (send s ms) in
  transport (cluster (fst (send s ms))) = Send (transport (cluster s)) ms' /\
  length ms' = length ms /\
  forall (i : nat) (m : raftpb.Message),
    ms !! i = Some m ->
    (IsIDRemoved (cluster s) (raftpb.To m) = true ->
     ms' !! i = Some (raftpb.mkMessage 0 (raftpb.From m) (raftpb.payload m))) /\
    (IsIDRemoved (cluster s) (raftpb.To m) = false -> ms' !! i = Some m).
Proof.
  cbn [send fst snd].
  rewrite send_loop_prefix by done.
  rewrite firstn_all, drop_all, app_nil_r.
  split_and!; [done|by rewrite length_fmap|].
  intros i m Hi. rewrite list_lookup_fmap, Hi. cbn. unfold censor.
  split; by intros ->.
Qed.

End send_facts.

(** [send] on a batch to member 3, which was removed, and to member 2. *)
Lemma send_censors_removed_witness :
  snd (send (E:=toy.env) sample.server0
         [raftpb.mkMessage 3 1 "heartbeat"; raftpb.mkMessage 2 1 "append"]) !! 0%nat
  = Some (raftpb.mkMessage 0 1 "heartbeat").
Proof.
  destruct (send_censors_removed (E:=toy.env) sample.server0
    [raftpb.mkMessage 3 1 "heartbeat"; raftpb.mkMessage 2 1 "append"])
    as (_ & _ & H).
  destruct (H 0%nat (raftpb.mkMessage 3 1 "heartbeat") eq_refl) as [H1 _].
  apply H1. vm_compute. reflexivity.
Defined.

(** ** The apply loop *)

Section run_facts.
Context {E : Env}.

(** A batch whose entries are all at or below the applied index: no entry
    is executed and the server is as it was, but [apply], called with no
    entries, returns its zero [applied], which [run] stores in
    [appliedi]. *)
Lemma run_apply_entries_stale (s : EtcdServer) (v : run_vars) (ap : apply_msg)
    (e0 : raftpb.Entry) (rest : list raftpb.Entry) :
  entries ap = e0 :: rest ->
  0 <= raftpb.Index e0 ->
  appliedi v + 1 < 2 ^ 64 ->
  raftpb.Index e0 + Z.of_nat (length (entries ap)) <= appliedi v + 1 ->
  run_apply_entries s v ap = Ret (s, mkRunVars (confState v) (snapi v) 0 false).
Proof.
  intros He H0 Hmax Hstale. unfold run_apply_entries. rewrite He in *.
  assert (Hlen : 0 <= Z.of_nat (length (e0 :: rest))) by lia.
  rewrite (u64_small (appliedi v + 1)) by lia.
  replace (appliedi v + 1 <? raftpb.Index e0) with false by lia.
  rewrite (u64_small (appliedi v + 1 - raftpb.Index e0)) by lia.
  replace (appliedi v + 1 - raftpb.Index e0 <? Z.of_nat (length (e0 :: rest)))
    with false by lia.
  cbn. by destruct s.
Qed.

End run_facts.

(** C2, at the failing input: entry 1 ([PUT /1/foo = bar]) is handed to
    the apply loop of a fresh server three times. The first turn applies
    it. The second turn skips it and leaves the store as it was, but sets
    the applied index to 0. The third turn therefore applies the entry
    again: the store changes. *)
Theorem run_apply_replay_reexecutes :
  let ap := mkApply [sample.entry1] sample.no_snapshot in
  let once := run_apply (E:=toy.env) sample.fresh sample.fresh_vars ap in
  let twice := sample.again once ap in
  let thrice := sample.again twice ap in
  sample.observe once = Ret (toy.mkStore [("/1/foo", "bar")] 1, 1) /\
  sample.observe twice = Ret (toy.mkStore [("/1/foo", "bar")] 1, 0) /\
  sample.observe thrice = Ret (toy.mkStore [("/1/foo", "bar")] 2, 1).
Proof. vm_compute. done. Qed.

(** The same defect on a batch that does not start at index 1: after
    the replay of entry 4 has set the applied index to 0, the next turn
    panics on its first-index check. *)
Lemma run_apply_replay_panics :
  let ap := mkApply [sample.entry4] sample.no_snapshot in
  let v := mkRunVars (raftpb.mkConfState [1]) 0 3 false in
  let once := run_apply (E:=toy.env) sample.fresh v ap in
  let twice := sample.again once ap in
  let thrice := sample.again twice ap in
  sample.observe once = Ret (toy.mkStore [("/1/k", "v")] 1, 4) /\
  sample.observe twice = Ret (toy.mkStore [("/1/k", "v")] 1, 0) /\
  sample.observe thrice = Panic.
Proof. vm_compute. done. Qed.

(** ** snapshot *)

Section snapshot_facts.
Context {E : Env}.

(** The index at which [snapshot] compacts the log. *)
Lemma compacti_bounds (snapi : Z) :
  0 <= snapi < 2 ^ 64 ->
  let compacti :=
    if numberOfCatchUpEntries <? snapi
    then u64 (snapi - numberOfCatchUpEntries) else 1 in
  (5000 < snapi -> compacti = snapi - 5000) /\
  (snapi <= 5000 -> compacti = 1) /\
  1 <= compacti /\
  snapi - compacti <= 5000.
Proof.
  intros Hs. unfold numberOfCatchUpEntries. cbv zeta.
  destruct (5000 <? snapi) eqn:Hc.
  - rewrite u64_small by lia. lia.
  - lia.
Qed.

(** C8: once the snapshot at [snapi] is created and saved, the log is
    compacted at [snapi - 5000] when [snapi > 5000] and at 1 otherwise, so
    that at most 5000 indices from the compaction point up to [snapi]
    remain; [ErrSnapOutOfDate] from [CreateSnapshot] and [ErrCompacted]
    from [Compact] end the goroutine quietly, before any later step, and
    every other error of the two calls is a panic. *)
Theorem snapshot_compacts (rn : raftNode) (clone : Store) (snapi : Z)
    (cs : raftpb.ConfState) (d : string) :
  0 <= snapi < 2 ^ 64 ->
  store_SaveNoCopy clone = inl d ->
  let compacti := if 5000 <? snapi then snapi - 5000 else 1 in
  snapi - compacti <= 5000 /\
  (forall ms e,
      CreateSnapshot (raftStorage rn) snapi cs d = (ms, inr e) ->
      snapshot_goroutine rn clone snapi cs =
        if bool_decide (e = ErrSnapOutOfDate)
        then Ret (mkRaftNode (Node rn) ms (storage rn) (r_index rn)
                    (r_term rn) (lead rn), snapshot_out_of_date)
        else Panic) /\
  (forall ms snap disk,
      CreateSnapshot (raftStorage rn) snapi cs d = (ms, inl snap) ->
      SaveSnap (storage rn) snap = (disk, None) ->
      (forall ms',
          Compact ms compacti = (ms', None) ->
          snapshot_goroutine rn clone snapi cs =
            Ret (mkRaftNode (Node rn) ms' disk (r_index rn) (r_term rn)
                   (lead rn), snapshot_compacted compacti)) /\
      (forall ms' e,
          Compact ms compacti = (ms', Some e) ->
          snapshot_goroutine rn clone snapi cs =
            if bool_decide (e = ErrCompacted)
            then Ret (mkRaftNode (Node rn) ms' disk (r_index rn) (r_term rn)
                        (lead rn), snapshot_already_compacted)
            else Panic)).
Proof.
  intros Hs Hsave compacti.
  destruct (compacti_bounds snapi Hs) as (Hgt & Hle & _ & Hwin).
  unfold numberOfCatchUpEntries in *. cbv zeta in Hwin.
  assert (Hc : (if 5000 <? snapi then u64 (snapi - 5000) else 1) = compacti).
  { unfold compacti. destruct (5000 <? snapi) eqn:Hcmp; [|done].
    apply u64_small. lia. }
  rewrite Hc in Hwin.
  split; [exact Hwin|].
  unfold snapshot_goroutine, numberOfCatchUpEntries. rewrite Hsave, Hc.
  split.
  - intros ms e ->. done.
  - intros ms snap disk -> ->. split.
    + by intros ms' ->.
    + by intros ms' e ->.
Qed.

End snapshot_facts.

(** The snapshot at index 12000 on a log whose entries start at 1: the
    log is compacted at 7000. *)
Lemma snapshot_compacts_witness :
  snapshot_goroutine (E:=toy.env)
    (mkRaftNode (E:=toy.env) (toy.mkRaftNode [] [1]) (toy.mkMemoryStorage 0 1 12000)
       [] 12000 1 1)
    (toy.mkStore [("/1/foo", "bar")] 12000) 12000 (raftpb.mkConfState [1])
  = Ret (mkRaftNode (E:=toy.env) (toy.mkRaftNode [] [1])
           (toy.mkMemoryStorage 12000 7000 12000)
           [raftpb.mkSnapshot "/1/foo"
              (raftpb.mkSnapshotMetadata (raftpb.mkConfState [1]) 12000 0)]
           12000 1 1,
         snapshot_compacted 7000).
Proof.
  destruct (snapshot_compacts (E:=toy.env)
    (mkRaftNode (E:=toy.env) (toy.mkRaftNode [] [1]) (toy.mkMemoryStorage 0 1 12000)
       [] 12000 1 1)
    (toy.mkStore [("/1/foo", "bar")] 12000) 12000 (raftpb.mkConfState [1])
    "/1/foo") as (_ & _ & H).
  - lia.
  - reflexivity.
  - destruct (H (toy.mkMemoryStorage 12000 1 12000)
      (raftpb.mkSnapshot "/1/foo"
         (raftpb.mkSnapshotMetadata (raftpb.mkConfState [1]) 12000 0))
      [raftpb.mkSnapshot "/1/foo"
         (raftpb.mkSnapshotMetadata (raftpb.mkConfState [1]) 12000 0)]
      eq_refl eq_refl) as [H1 _].
    apply (H1 (toy.mkMemoryStorage 12000 7000 12000)). reflexivity.
Defined.

(** ** Do *)

Section Do_facts.
Context {E : Env}.

Lemma Do_request_ID req i : pb.ID (Do_request req i) = i.
Proof. unfold Do_request. by destruct (_ && _). Qed.

Lemma recv_m (ch : nat) (w0 w' : wait.List Value) (x : option Value) :
  wait.recv ch w0 = Ret (w', x) -> wait.m w' = wait.m w0.
Proof.
  unfold wait.recv. destruct (wait.chans w0 !! ch) as [c|]; [|done].
  destruct (wait.buf c); [destruct (wait.closed c); [|done]|];
    by intros [= <- <-].
Qed.

(** C10: a consensus request whose [select] takes the [s.done] case
    returns [ErrStopped] and leaves the registry as [Register] left it, so
    the slot of the request id stays registered; the [ctx.Done()] case
    runs [Trigger(r.ID, nil)], after which the id has no slot; the case
    that receives the result does not change the slots either. *)
Theorem Do_stopped_keeps_slot (s : EtcdServer) (req : pb.Request)
    (ctx_err : option error) (data : string)
    (p : list (wait.pending Value)) :
  wait.reachable (w s, p) ->
  let i := snd (idutil.Next (reqIDGen s)) in
  pb.Method (Do_request req i) ∈ ["POST"; "PUT"; "DELETE"; "QGET"] ->
  Request_Marshal (Do_request req i) = inl data ->
  let w1 := fst (wait.Register i (w s)) in
  let ch := snd (wait.Register i (w s)) in
  (done s = true ->
   exists s',
     Do s ctx_err case_done req = Ret (s', (empty_Response, Some ErrStopped)) /\
     w s' = w1 /\ wait.m (w s') !! i = Some ch) /\
  (forall e, ctx_err = Some e ->
   exists s',
     Do s ctx_err case_ctx_Done req =
       Ret (s', (empty_Response, Some (parseCtxErr e))) /\
     wait.Trigger i VNil w1 = Ret (w s') /\
     wait.m (w s') !! i = None) /\
  (forall s1 ch1 s' res,
     Do_select s1 i ch1 ctx_err case_ch = Ret (s', res) ->
     wait.m (w s') = wait.m (w s1)) /\
  (forall s1 ch1,
     done s1 = true ->
     Do_select s1 i ch1 ctx_err case_done =
       Ret (s1, (empty_Response, Some ErrStopped))).
Proof.
  intros Hreach i Hmeth Hmar w1 ch.
  assert (Hlk : wait.m w1 !! i = Some ch) by apply Register_lookup.
  assert (HI1 : wait.Inv (w1, p)).
  { apply Inv_Register. by apply reachable_Inv. }
  assert (HDo : forall sel,
    Do s ctx_err sel req =
      Do_select (set_Node (set_w (set_reqIDGen s (fst (idutil.Next (reqIDGen s)))) w1)
                   (Propose (Node (r s)) data)) i ch ctx_err sel).
  { intros sel. unfold Do.
    destruct (idutil.Next (reqIDGen s)) as [g i0] eqn:HN.
    subst i w1 ch. cbn [fst snd] in *.
    rewrite bool_decide_eq_true_2 by done.
    rewrite Hmar, Do_request_ID. cbn [w set_reqIDGen].
    by destruct (wait.Register i0 (w s)). }
  split_and!.
  - intros Hdone. eexists. rewrite HDo. cbn [Do_select done set_Node set_r set_w].
    cbn [set_reqIDGen done]. rewrite Hdone.
    split; [reflexivity|]. by split.
  - intros e ->.
    destruct (Trigger_registered i VNil w1 p ch HI1 Hlk) as [].
    eexists. rewrite HDo. cbn [Do_select w set_Node set_r set_w].
    rewrite (Trigger_registered i VNil w1 p ch HI1 Hlk). cbn.
    split; [reflexivity|]. split; [reflexivity|]. apply lookup_delete_eq.
  - intros s1 ch1 s' res. cbn [Do_select].
    destruct (wait.recv ch1 (w s1)) as [[w2 x]| | |] eqn:Hr; try done. cbn.
    destruct x as [[| |]|]; try done.
    intros [= <- _]. cbn. by eapply recv_m.
  - intros s1 ch1 Hd. cbn. by rewrite Hd.
Qed.

End Do_facts.

(** [Do] of a PUT on a stopped server: [ErrStopped], and the slot of the
    request id is still registered. *)
Lemma Do_stopped_keeps_slot_witness :
  exists s' : EtcdServer (E:=toy.env),
    Do (E:=toy.env) sample.stopped None case_done
       (sample.request "PUT" "/1/foo" "bar")
    = Ret (s', (empty_Response, Some ErrStopped)) /\
    wait.m (w s') !! snd (idutil.Next (reqIDGen sample.stopped)) = Some 0%nat.
Proof.
  edestruct (Do_stopped_keeps_slot (E:=toy.env) sample.stopped
    (sample.request "PUT" "/1/foo" "bar") None
    "14e584518000001|PUT|/1/foo|bar||0|-" [] wait.reachable_New)
    as (H & _).
  - apply (bool_decide_unpack _). vm_compute. exact I.
  - vm_compute. reflexivity.
  - destruct (H eq_refl) as (s' & H1 & _ & H3).
    exists s'. split; [exact H1|exact H3].
Defined.

(** ** The cluster view *)

Section cluster_facts.
Context {E : Env}.




(** Every member read from the store is filed under its own id. *)
Lemma members_of_nodes_keys ns ms0 ms :
  members_of_nodes ns ms0 = Ret ms ->
  (forall k m, ms0 !! k = Some m -> ID m = k) ->
  forall k m, ms !! k = Some m -> ID m = k.
Proof.
  revert ms0. induction ns as [|n ns IH]; intros ms0; cbn.
  - by intros [= <-].
  - destruct (nodeToMember n) as [m0|]; [|done].
    intros Hrec H0. eapply IH; [exact Hrec|].
    intros k m. rewrite lookup_insert. case_decide; [|apply H0].
    by intros [= <-].
Qed.

Lemma membersFromStore_keys st ms rs :
  membersFromStore st = Ret (ms, rs) ->
  forall k m, ms !! k = Some m -> ID m = k.
Proof.
  unfold membersFromStore.
  destruct (store_Get st storeMembersPrefix true true) as [e|e].
  - destruct (members_of_nodes _ ∅) as [ms1| | |] eqn:Hm; try done. cbn.
    assert (Hk : forall k m, ms1 !! k = Some m -> ID m = k).
    { eapply members_of_nodes_keys; [exact Hm|]. intros k m.
      by rewrite lookup_empty. }
    destruct (store_Get st storeRemovedMembersPrefix true true) as [e'|e'].
    + destruct (removed_of_nodes _ ∅) as [rs1| | |]; try done. cbn.
      by intros [= <- <-].
    + destruct (isKeyNotFound e'); [|done]. by intros [= <- <-].
  - destruct (isKeyNotFound e); [|done]. intros [= <- <-] k m.
    by rewrite lookup_empty.
Qed.


End cluster_facts.



(** ** The cluster id *)

Lemma lor_disjoint_add (k a b : Z) :
  0 <= k -> 0 <= a < 2 ^ k -> (2 ^ k | b) -> Z.lor a b = a + b.
Proof.
  intros Hk Ha [q ->]. symmetry. apply Z.add_nocarry_lor.
  apply Z.bits_inj'. intros n Hn. rewrite Z.land_spec, Z.bits_0.
  destruct (Z.lt_ge_cases n k) as [Hlt|Hge].
  - rewrite Z.mul_pow2_bits_low by lia. apply andb_false_r.
  - destruct (Z.eq_dec a 0) as [->|Hne]; [by rewrite Z.bits_0|].
    rewrite Z.bits_above_log2; [done|lia|].
    apply Z.log2_lt_pow2; [lia|].
    eapply Z.lt_le_trans; [apply Ha|]. apply Z.pow_le_mono_r; lia.
Qed.

Lemma Uint64_be (b0 b1 b2 b3 b4 b5 b6 b7 : Z) (rest : list Z) :
  0 <= b0 < 256 -> 0 <= b1 < 256 -> 0 <= b2 < 256 -> 0 <= b3 < 256 ->
  0 <= b4 < 256 -> 0 <= b5 < 256 -> 0 <= b6 < 256 -> 0 <= b7 < 256 ->
  binary.Uint64 (b0 :: b1 :: b2 :: b3 :: b4 :: b5 :: b6 :: b7 :: rest)
  = Ret (binary.be_value [b0; b1; b2; b3; b4; b5; b6; b7]).
Proof.
  intros H0 H1 H2 H3 H4 H5 H6 H7. cbn [binary.Uint64]. f_equal.
  rewrite !Z.shiftl_mul_pow2 by lia.
  rewrite (lor_disjoint_add 56 (b1 * 2 ^ 48)); [|lia|lia|by exists b0].
  rewrite (lor_disjoint_add 48 (b2 * 2 ^ 40));
    [|lia|lia|exists (b1 + b0 * 2 ^ 8); lia].
  rewrite (lor_disjoint_add 40 (b3 * 2 ^ 32));
    [|lia|lia|exists (b2 + b1 * 2 ^ 8 + b0 * 2 ^ 16); lia].
  rewrite (lor_disjoint_add 32 (b4 * 2 ^ 24));
    [|lia|lia|exists (b3 + b2 * 2 ^ 8 + b1 * 2 ^ 16 + b0 * 2 ^ 24); lia].
  rewrite (lor_disjoint_add 24 (b5 * 2 ^ 16));
    [|lia|lia|
     exists (b4 + b3 * 2 ^ 8 + b2 * 2 ^ 16 + b1 * 2 ^ 24 + b0 * 2 ^ 32); lia].
  rewrite (lor_disjoint_add 16 (b6 * 2 ^ 8));
    [|lia|lia|
     exists (b5 + b4 * 2 ^ 8 + b3 * 2 ^ 16 + b2 * 2 ^ 24 + b1 * 2 ^ 32
             + b0 * 2 ^ 40); lia].
  rewrite (lor_disjoint_add 8 b7);
    [|lia|lia|
     exists (b6 + b5 * 2 ^ 8 + b4 * 2 ^ 16 + b3 * 2 ^ 24 + b2 * 2 ^ 32
             + b1 * 2 ^ 40 + b0 * 2 ^ 48); lia].
  unfold binary.be_value. cbn [fold_left]. lia.
Qed.

Lemma PutUint64_bytes (l1 rest : list Z) (x0 x1 x2 x3 x4 x5 x6 x7 v : Z) :
  binary.PutUint64
    (l1 ++ x0 :: x1 :: x2 :: x3 :: x4 :: x5 :: x6 :: x7 :: rest) (length l1) v
  = Ret (l1 ++ binary.be_bytes 8 v ++ rest).
Proof.
  unfold binary.PutUint64.
  rewrite length_app. cbn [length].
  replace (_ <? _)%nat with false by (symmetry; apply Nat.ltb_ge; lia).
  f_equal.
  rewrite (insert_app_r_alt _ _ (length l1)) by lia. rewrite Nat.sub_diag.
  rewrite (insert_app_r_alt _ _ (length l1 + 1)) by lia.
  rewrite (insert_app_r_alt _ _ (length l1 + 2)) by lia.
  rewrite (insert_app_r_alt _ _ (length l1 + 3)) by lia.
  rewrite (insert_app_r_alt _ _ (length l1 + 4)) by lia.
  rewrite (insert_app_r_alt _ _ (length l1 + 5)) by lia.
  rewrite (insert_app_r_alt _ _ (length l1 + 6)) by lia.
  rewrite (insert_app_r_alt _ _ (length l1 + 7)) by lia.
  replace (length l1 + 1 - length l1)%nat with 1%nat by lia.
  replace (length l1 + 2 - length l1)%nat with 2%nat by lia.
  replace (length l1 + 3 - length l1)%nat with 3%nat by lia.
  replace (length l1 + 4 - length l1)%nat with 4%nat by lia.
  replace (length l1 + 5 - length l1)%nat with 5%nat by lia.
  replace (length l1 + 6 - length l1)%nat with 6%nat by lia.
  replace (length l1 + 7 - length l1)%nat with 7%nat by lia.
  cbn [insert list_insert]. f_equal.
  unfold binary.byte, binary.be_bytes.
  rewrite !Z.shiftr_div_pow2 by lia. cbn [app].
  change (256 ^ Z.of_nat 0) with 1. rewrite Z.div_1_r.
  reflexivity.
Qed.

Lemma genID_fill_spec (ids : list Z) :
  forall (i : nat) (filled : list Z),
    length filled = (8 * i)%nat ->
    genID_fill ids i (filled ++ replicate (8 * length ids) 0)
    = Ret (filled ++ flat_map (binary.be_bytes 8) ids).
Proof.
  induction ids as [|x ids IH]; intros i filled Hlen.
  - reflexivity.
  - cbn [genID_fill flat_map length].
    replace (8 * S (length ids))%nat with (8 + 8 * length ids)%nat by lia.
    rewrite replicate_add. cbn [replicate app].
    rewrite <- Hlen, PutUint64_bytes. cbn [mbind Go_bind bind].
    rewrite app_assoc. rewrite IH.
    + by rewrite <- app_assoc.
    + rewrite length_app. cbn. lia.
Qed.

Lemma sha1_Sum_first8 (data : list Z) :
  exists b0 b1 b2 b3 b4 b5 b6 b7 rest,
    sha1.Sum data = b0 :: b1 :: b2 :: b3 :: b4 :: b5 :: b6 :: b7 :: rest /\
    length rest = 12%nat /\
    0 <= b0 < 256 /\ 0 <= b1 < 256 /\ 0 <= b2 < 256 /\ 0 <= b3 < 256 /\
    0 <= b4 < 256 /\ 0 <= b5 < 256 /\ 0 <= b6 < 256 /\ 0 <= b7 < 256.
Proof.
  unfold sha1.Sum.
  destruct (sha1.blocks _ _ _) as [[[[h0 h1] h2] h3] h4].
  unfold sha1.bytes32. cbn [app].
  do 9 eexists. split; [reflexivity|]. split; [reflexivity|].
  split_and!; apply Z.mod_pos_bound; lia.
Qed.

Section genID_facts.
Context {E : Env}.

(** C6: [genID] sets the cluster id to the number that the first 8
    bytes of the SHA-1 digest denote in big-endian notation, the digest
    being that of the 8-byte big-endian encodings, concatenated, of the
    member ids in ascending order; [MemberIDs] is that ascending list of
    the ids of all members. *)
Theorem genID_is_sha1_of_sorted_ids (c : Cluster) :
  genID c =
    Ret (SetID c
           (binary.be_value
              (take 8 (sha1.Sum (flat_map (binary.be_bytes 8) (MemberIDs c))))))
  /\ Sorted Z.le (MemberIDs c)
  /\ MemberIDs c ≡ₚ ID <$> (map_to_list (members c)).*2.
Proof.
  split_and!.
  - unfold genID.
    pose proof (genID_fill_spec (MemberIDs c) 0 [] eq_refl) as Hfill.
    cbn [app] in Hfill. rewrite Hfill. cbn [mbind Go_bind bind].
    destruct (sha1_Sum_first8 (flat_map (binary.be_bytes 8) (MemberIDs c)))
      as (b0 & b1 & b2 & b3 & b4 & b5 & b6 & b7 & rest & -> & _ & Hb).
    cbn [take]. destruct Hb as (?&?&?&?&?&?&?&?).
    rewrite Uint64_be by done. reflexivity.
  - unfold MemberIDs. apply Sorted_merge_sort. intros x y. lia.
  - unfold MemberIDs. apply merge_sort_Permutation.
Qed.

End genID_facts.

(** [genID] on the sample cluster of the members 1 and 2: the first 8
    bytes of the SHA-1 digest of [00 00 00 00 00 00 00 01 00 00 00 00 00 00
    00 02]. *)
Example genID_sample :
  (c ← genID (E:=toy.env) sample.cluster0; Ret (id c)) = Ret 9699411840914806455.
Proof. vm_compute. reflexivity. Qed.

(** SHA-1 of the empty string and of ["abc"] (FIPS 180 test vectors). *)
Example sha1_vectors :
  sha1.Sum [] =
    [0xda; 0x39; 0xa3; 0xee; 0x5e; 0x6b; 0x4b; 0x0d; 0x32; 0x55;
     0xbf; 0xef; 0x95; 0x60; 0x18; 0x90; 0xaf; 0xd8; 0x07; 0x09] /\
  sha1.Sum [97; 98; 99] =
    [0xa9; 0x99; 0x3e; 0x36; 0x47; 0x06; 0x81; 0x6a; 0xba; 0x3e;
     0x25; 0x71; 0x78; 0x50; 0xc2; 0x6c; 0x9c; 0xd0; 0xd8; 0x9d].
Proof. vm_compute. done. Qed.

(** * Further properties of the code *)

(** ** pkg/idutil *)

Section idutil_more.
Import idutil.

(** [lowbit x n] keeps the low [n] bits of [x]. *)
Theorem lowbit_mod (x n : Z) :
  0 <= n <= 64 -> lowbit x n = x mod 2 ^ n.
Proof.
  intros Hn. unfold lowbit.
  replace (Z.shiftr MaxUint64 (64 - n)) with (Z.ones n);
    [apply Z.land_ones; lia|].
  change MaxUint64 with (Z.ones 64).
  apply Z.bits_inj'. intros i Hi.
  rewrite Z.shiftr_spec by lia.
  rewrite !Z.testbit_ones_nonneg by lia.
  destruct (Z.ltb_spec i n), (Z.ltb_spec (i + (64 - n)) 64); lia.
Qed.

Lemma lowbit_mod_witness : lowbit 0x1ff 8 = 0x1ff mod 2 ^ 8.
Proof. apply (lowbit_mod 0x1ff 8). lia. Defined.

Lemma call_high_byte (m t : Z) (k : N) :
  Z.shiftr (call (NewGenerator m t) k) 56 = m mod 2 ^ 8.
Proof.
  rewrite call_closed.
  set (lo := (_ + 1) mod 2 ^ 56).
  assert (Hlo : 0 <= lo < 2 ^ 56) by (apply Z.mod_pos_bound; lia).
  rewrite Z.shiftr_div_pow2 by lia.
  rewrite Z.mul_comm, Z.div_add_l by lia.
  rewrite (Z.div_small lo) by lia. lia.
Qed.

Lemma call_low (m t : Z) (k : N) :
  call (NewGenerator m t) k mod 2 ^ 56 =
    (suffix (NewGenerator m t) + Z.of_N k + 1) mod 2 ^ 56.
Proof.
  rewrite call_closed.
  set (lo := (_ + 1) mod 2 ^ 56).
  assert (Hlo : 0 <= lo < 2 ^ 56) by (apply Z.mod_pos_bound; lia).
  rewrite Z.add_comm, Z.mul_comm, Z.mod_add by lia.
  apply Z.mod_small. lia.
Qed.

(** Every id is a 64-bit number whose high byte is the member id the
    generator was made with. *)
Theorem call_layout (m t : Z) (k : N) :
  0 <= call (NewGenerator m t) k < 2 ^ 64 /\
  Z.shiftr (call (NewGenerator m t) k) 56 = m mod 2 ^ 8 /\
  call (NewGenerator m t) k mod 2 ^ 56 =
    (suffix (NewGenerator m t) + Z.of_N k + 1) mod 2 ^ 56.
Proof.
  split_and!; [| |apply call_high_byte|apply call_low].
  - rewrite call_closed.
    assert (0 <= m mod 2 ^ 8) by (apply Z.mod_pos_bound; lia).
    assert (0 <= (suffix (NewGenerator m t) + Z.of_N k + 1) mod 2 ^ 56)
      by (apply Z.mod_pos_bound; lia).
    nia.
  - rewrite call_closed.
    assert (m mod 2 ^ 8 < 2 ^ 8) by (apply Z.mod_pos_bound; lia).
    assert ((suffix (NewGenerator m t) + Z.of_N k + 1) mod 2 ^ 56 < 2 ^ 56)
      by (apply Z.mod_pos_bound; lia).
    nia.
Qed.

(** Generators made for different member bytes never return the same
    id, whatever their clocks and however many calls were made. *)
Theorem call_distinct_members (m1 t1 m2 t2 : Z) (i j : N) :
  m1 mod 2 ^ 8 <> m2 mod 2 ^ 8 ->
  call (NewGenerator m1 t1) i <> call (NewGenerator m2 t2) j.
Proof.
  intros Hm Heq.
  pose proof (call_high_byte m1 t1 i) as H1.
  pose proof (call_high_byte m2 t2 j) as H2.
  rewrite Heq in H1. congruence.
Qed.

Lemma call_distinct_members_witness :
  call (NewGenerator 1 1436000000000000000) 0 <>
  call (NewGenerator 2 1436000000000000000) 0.
Proof.
  apply (call_distinct_members 1 1436000000000000000 2 1436000000000000000 0 0).
  vm_compute. discriminate.
Defined.

Lemma NewGenerator_suffix (m t : Z) :
  suffix (NewGenerator m t) = (u64 t / 1000000) mod 2 ^ 40 * 2 ^ 16.
Proof.
  cbn [NewGenerator suffix]. rewrite lowbit_tsLen.
  unfold cntLen. rewrite Z.shiftl_mul_pow2 by lia.
  apply u64_small.
  pose proof (Z.mod_pos_bound (u64 t / 1000000) (2 ^ 40) ltac:(lia)). lia.
Qed.

(** The first id of a generator: the member byte, the low 40 bits of the
    clock in milliseconds, and the counter at 1. *)
Theorem first_call (m t : Z) :
  call (NewGenerator m t) 0 =
    (m mod 2 ^ 8) * 2 ^ 56 + ((u64 t / 1000000) mod 2 ^ 40) * 2 ^ 16 + 1.
Proof.
  rewrite call_closed, NewGenerator_suffix.
  pose proof (Z.mod_pos_bound (u64 t / 1000000) (2 ^ 40) ltac:(lia)).
  change (Z.of_N 0) with 0. rewrite Z.add_0_r.
  rewrite (Z.mod_small (_ * 2 ^ 16 + 1)) by lia. lia.
Qed.

(** Successive ids: the next call returns the id plus one, until the
    56-bit suffix is all ones; then the suffix starts again at zero and
    the member byte stays. *)
Theorem call_succ (m t : Z) (k : N) :
  (call (NewGenerator m t) k mod 2 ^ 56 < 2 ^ 56 - 1 ->
   call (NewGenerator m t) (N.succ k) = call (NewGenerator m t) k + 1) /\
  (call (NewGenerator m t) k mod 2 ^ 56 = 2 ^ 56 - 1 ->
   call (NewGenerator m t) (N.succ k) = (m mod 2 ^ 8) * 2 ^ 56).
Proof.
  pose proof (call_low m t k) as Hlow. rewrite Hlow.
  rewrite !call_closed.
  set (s := suffix (NewGenerator m t)).
  replace (s + Z.of_N (N.succ k) + 1) with ((s + Z.of_N k + 1) + 1) by lia.
  rewrite <- (Zplus_mod_idemp_l (s + Z.of_N k + 1)).
  set (lo := (s + Z.of_N k + 1) mod 2 ^ 56).
  assert (Hlo : 0 <= lo < 2 ^ 56) by (apply Z.mod_pos_bound; lia).
  split.
  - intros Hlt. rewrite (Z.mod_small (lo + 1)) by lia. lia.
  - intros ->. replace (2 ^ 56 - 1 + 1) with (1 * 2 ^ 56) by lia.
    rewrite Z.mod_mul by lia. lia.
Qed.

Lemma call_succ_witness :
  call (NewGenerator 1 1436000000000000000) 1 =
  call (NewGenerator 1 1436000000000000000) 0 + 1.
Proof.
  apply (call_succ 1 1436000000000000000 0). vm_compute. reflexivity.
Defined.

End idutil_more.

(** ** pkg/wait *)

Section wait_more.
Import wait.
Context {V : Type}.
Implicit Types (w : List V) (p : list (pending V)).

(** [Register] of an id that is registered returns the channel it
    returned before and changes nothing. *)
Theorem Register_twice (id : Z) w :
  Register id (fst (Register id w)) = Register id w.
Proof.
  pose proof (Register_lookup id w) as Hlk.
  destruct (Register id w) as [w1 ch] eqn:HR. cbn [fst snd] in *.
  unfold Register at 1. by rewrite Hlk.
Qed.

(** Different ids get different channels. *)
Theorem Register_distinct (id1 id2 : Z) w p :
  reachable (w, p) -> id1 <> id2 ->
  snd (Register id2 (fst (Register id1 w))) <> snd (Register id1 w).
Proof.
  intros HI%reachable_Inv Hne Heq.
  apply (Inv_Register id1) in HI. apply (Inv_Register id2) in HI.
  destruct HI as (_ & Hinj & _).
  apply Hne. apply (Hinj id1 id2 (snd (Register id1 w))).
  - pose proof (Register_lookup id1 w) as H1.
    unfold Register at 1.
    destruct (m (fst (Register id1 w)) !! id2) as [ch2|] eqn:H2; cbn; [done|].
    rewrite lookup_insert_ne by done. exact H1.
  - rewrite <- Heq. apply Register_lookup.
Qed.

(** After [Trigger], a new [Register] of the id makes another channel:
    the old one keeps the delivered value and is closed, the new one is
    empty and open, so that a receiver on it waits. *)
Theorem Register_after_Trigger (id : Z) (v : V) w p (ch : nat) :
  reachable (w, p) -> m w !! id = Some ch ->
  exists w2,
    Trigger id v w = Ret w2 /\
    let w3 := fst (Register id w2) in
    let ch' := snd (Register id w2) in
    ch' <> ch /\
    chans w3 !! ch = Some (mkChan [v] 1 true) /\
    chans w3 !! ch' = Some (mkChan [] 1 false) /\
    m w3 !! id = Some ch' /\
    recv ch' w3 = Block.
Proof.
  intros HI%reachable_Inv Hid.
  pose proof (Trigger_registered id v w p ch HI Hid) as HT.
  eexists. split; [exact HT|].
  assert (Hlt : (ch < length (chans w))%nat).
  { destruct HI as (Hm & _). eapply lookup_lt_Some, Hm, Hid. }
  unfold Register. cbn [m chans]. rewrite lookup_delete_eq.
  cbn [make_chan fst snd m chans]. rewrite length_insert.
  split_and!.
  - lia.
  - rewrite lookup_app_l by (rewrite length_insert; lia).
    by apply list_lookup_insert_eq.
  - rewrite lookup_app_r by (rewrite length_insert; lia).
    by rewrite length_insert, Nat.sub_diag.
  - apply lookup_insert_eq.
  - unfold recv. cbn [chans].
    rewrite lookup_app_r by (rewrite length_insert; lia).
    by rewrite length_insert, Nat.sub_diag.
Qed.

(** [Trigger] touches the slot of its own id only: every other id keeps
    its slot, and the channel of that slot stays empty and open. *)
Theorem Trigger_other (id id' : Z) (v : V) w w' p (ch' : nat) :
  reachable (w, p) -> id' <> id ->
  Trigger id v w = Ret w' ->
  m w !! id' = Some ch' ->
  m w' !! id' = Some ch' /\ chans w' !! ch' = Some (mkChan [] 1 false).
Proof.
  intros HI%reachable_Inv Hne HT Hid'.
  destruct (m w !! id) as [ch|] eqn:Hid.
  - rewrite (Trigger_registered id v w p ch HI Hid) in HT.
    injection HT as <-. cbn [m chans].
    destruct HI as (Hm & Hinj & _).
    split; [by rewrite lookup_delete_ne|].
    rewrite list_lookup_insert_ne; [by eapply Hm|].
    intros <-. apply Hne. by eapply Hinj.
  - rewrite (Trigger_unregistered id v w Hid) in HT. injection HT as <-.
    destruct HI as (Hm & _). split; [done|by eapply Hm].
Qed.

End wait_more.

Lemma Register_distinct_witness :
  snd (wait.Register (V:=nat) 8 (fst (wait.Register 7 wait.New)))
  <> snd (wait.Register (V:=nat) 7 wait.New).
Proof.
  apply (Register_distinct (V:=nat) 7 8 wait.New [] wait.reachable_New). lia.
Defined.

Lemma Register_after_Trigger_witness :
  exists w2 : wait.List nat,
    wait.Trigger 7 42%nat (fst (wait.Register 7 wait.New)) = Ret w2 /\
    snd (wait.Register 7 w2) <> 0%nat.
Proof.
  destruct (Register_after_Trigger (V:=nat) 7 42%nat
              (fst (wait.Register 7 wait.New)) [] 0%nat) as (w2 & H1 & H2 & _).
  - eapply wait.reachable_step;
      [apply wait.reachable_New|apply (wait.step_Register 7)].
  - reflexivity.
  - exists w2. split; [exact H1|exact H2].
Defined.

Lemma Trigger_other_witness :
  exists w' : wait.List nat,
    wait.Trigger 7 42%nat
      (fst (wait.Register 8 (fst (wait.Register 7 wait.New)))) = Ret w' /\
    wait.m w' !! 8 = Some 1%nat.
Proof.
  eexists. split; [reflexivity|].
  eapply (Trigger_other (V:=nat) 7 8 42%nat
            (fst (wait.Register 8 (fst (wait.Register 7 wait.New)))) _ []
            1%nat).
  - eapply wait.reachable_step;
      [eapply wait.reachable_step; [apply wait.reachable_New|]|].
    + apply (wait.step_Register 7).
    + apply (wait.step_Register 8).
  - lia.
  - reflexivity.
  - reflexivity.
Defined.

(** ** More of the cluster view *)

Section cluster_more_facts.
Context {E : Env}.

Lemma Validate_urls_inl us seen seen' :
  Validate_urls us seen = inl seen' <->
  NoDup us /\ (forall u, u ∈ us -> u ∉ seen) /\ seen' = list_to_set us ∪ seen.
Proof.
  revert seen. induction us as [|u us IH]; intros seen; cbn.
  - split.
    + intros [= <-]. split; [constructor|]. split; [set_solver|set_solver].
    + intros (_ & _ & ->). f_equal. set_solver.
  - case_bool_decide as Hu.
    + split; [done|]. intros (_ & Hn & _). exfalso. apply (Hn u); [left|done].
    + rewrite IH. rewrite NoDup_cons. split.
      * intros (Hnd & Hn & ->). split_and!.
        -- intros Hin. apply (Hn u Hin). set_solver.
        -- done.
        -- intros u' [->|Hin]%elem_of_cons; [done|].
           intros Hs. apply (Hn u' Hin). set_solver.
        -- set_solver.
      * intros ((Hnin & Hnd) & Hn & ->). split_and!.
        -- done.
        -- intros u' Hin [->%elem_of_singleton|Hs]%elem_of_union; [done|].
           apply (Hn u'); [by right|done].
        -- set_solver.
Qed.

Lemma Validate_urls_inr us seen u :
  Validate_urls us seen = inr u ->
  u ∈ us /\ (u ∈ seen \/ ~ NoDup us).
Proof.
  revert seen. induction us as [|u0 us IH]; intros seen; cbn; [done|].
  case_bool_decide as Hu.
  - intros [= <-]. split; [left|by left].
  - intros (Hin & Hor)%IH. split; [by right|].
    destruct Hor as [[->%elem_of_singleton|Hs]%elem_of_union|Hnd].
    + right. rewrite NoDup_cons. tauto.
    + by left.
    + right. rewrite NoDup_cons. tauto.
Qed.

Lemma Validate_members_None ms seen :
  Validate_members ms seen = None <->
  NoDup (flat_map (fun m => PeerURLs (raftAttributes m)) ms) /\
  (forall u, u ∈ flat_map (fun m => PeerURLs (raftAttributes m)) ms -> u ∉ seen).
Proof.
  revert seen. induction ms as [|m ms IH]; intros seen; cbn [Validate_members flat_map].
  - split; [|done]. intros _. split; [constructor|set_solver].
  - destruct (Validate_urls _ seen) as [seen'|u] eqn:Hv.
    + apply Validate_urls_inl in Hv as (Hnd & Hn & ->).
      rewrite IH, NoDup_app. split.
      * intros (Hnd' & Hn'). split_and!; try done.
        -- intros u Hu Hu'. apply (Hn' u Hu'). set_solver.
        -- intros u [Hu|Hu]%elem_of_app; [by apply Hn|].
           intros Hs. apply (Hn' u Hu). set_solver.
      * intros ((_ & Hdis & Hnd') & Hn'). split; [done|].
        intros u Hu [Hl%elem_of_list_to_set|Hs]%elem_of_union.
        -- by apply (Hdis u).
        -- apply (Hn' u); [|done]. apply elem_of_app. by right.
    + split; [done|]. intros (Hnd & Hn). exfalso.
      apply Validate_urls_inr in Hv as (Hin & [Hs|Hdup]).
      * apply (Hn u); [|done]. apply elem_of_app. by left.
      * apply Hdup. by apply NoDup_app in Hnd as (? & _).
Qed.

(** [Validate] accepts a cluster exactly when no peer URL occurs twice
    in it, be it in one member or in two. *)
Theorem Validate_NoDup (c : Cluster) :
  Validate c = None <->
  NoDup (flat_map (fun m => PeerURLs (raftAttributes m)) (Members c)).
Proof.
  unfold Validate. rewrite Validate_members_None. split; [tauto|].
  intros H. split; [done|set_solver].
Qed.

Lemma MemberByName_loop_filter (ms : list Member) (name : string)
    (memb : option Member) :
  MemberByName_loop ms name memb =
    match memb, filter (fun m => Name (attributes m) = name) ms with
    | _, [] => Ret memb
    | None, [m] => Ret (Some m)
    | _, _ => Panic
    end.
Proof.
  revert memb. induction ms as [|m ms IH]; intros memb; cbn [MemberByName_loop].
  - by destruct memb.
  - rewrite filter_cons. case_bool_decide as Hn.
    + rewrite decide_True by done. destruct memb as [m0|]; [done|].
      rewrite IH. by destruct (filter _ ms).
    + rewrite decide_False by done. apply IH.
Qed.

Lemma filter_fmap_snd (P : Member -> Prop) `{!forall m, Decision (P m)}
    (l : list (Z * Member)) :
  filter P l.*2 = (filter (fun km => P (snd km)) l).*2.
Proof.
  induction l as [|[k m] l IH]; [done|]. cbn [fmap list_fmap snd].
  rewrite !filter_cons. cbn [snd].
  destruct (decide (P m)); cbn; by rewrite IH.
Qed.

Lemma NoDup_all_equal {A} (l : list A) (x : A) :
  NoDup l -> x ∈ l -> (forall y, y ∈ l -> y = x) -> l = [x].
Proof.
  intros Hnd Hin Hall. destruct l as [|a l]; [by apply elem_of_nil in Hin|].
  assert (a = x) as -> by (apply Hall; left).
  destruct l as [|b l]; [done|].
  assert (b = x) as -> by (apply Hall; right; left).
  apply NoDup_cons in Hnd as [Hnot _]. exfalso. apply Hnot. left.
Qed.

(** [MemberByName] does not depend on the order in which the map is
    ranged over: it returns [nil] when no member has the name, the member
    when exactly one has it, and panics when two have it. *)
Theorem MemberByName_spec (c : Cluster) (name : string) :
  ((forall k m, members c !! k = Some m -> Name (attributes m) <> name) ->
   MemberByName c name = Ret None) /\
  (forall k m,
     members c !! k = Some m -> Name (attributes m) = name ->
     (forall k' m', members c !! k' = Some m' ->
                    Name (attributes m') = name -> k' = k) ->
     MemberByName c name = Ret (Some m)) /\
  (forall k1 k2 m1 m2,
     k1 <> k2 ->
     members c !! k1 = Some m1 -> members c !! k2 = Some m2 ->
     Name (attributes m1) = name -> Name (attributes m2) = name ->
     MemberByName c name = Panic).
Proof.
  unfold MemberByName. rewrite MemberByName_loop_filter, filter_fmap_snd.
  set (F := filter (fun km : Z * Member => Name (attributes (snd km)) = name)
              (map_to_list (members c))).
  assert (HF : forall k m, (k, m) ∈ F <->
            members c !! k = Some m /\ Name (attributes m) = name).
  { intros k m. unfold F. rewrite list_elem_of_filter, elem_of_map_to_list.
    cbn. tauto. }
  assert (Hnd : NoDup F) by (apply NoDup_filter, NoDup_map_to_list).
  split_and!.
  - intros Hno. destruct F as [|[k m] F']; [done|].
    exfalso. destruct (proj1 (HF k m)) as [Hk Hn]; [left|]. by eapply Hno.
  - intros k m Hk Hn Huniq.
    rewrite (NoDup_all_equal F (k, m)); [done|done|by apply HF|].
    intros [k' m'] [Hk' Hn']%HF.
    assert (k' = k) as -> by by eapply Huniq. congruence.
  - intros k1 k2 m1 m2 Hne H1 H2 Hn1 Hn2.
    assert (Hin1 : (k1, m1) ∈ F) by by apply HF.
    assert (Hin2 : (k2, m2) ∈ F) by by apply HF.
    destruct F as [|a [|b F']]; cbn.
    + by apply elem_of_nil in Hin1.
    + apply list_elem_of_singleton in Hin1, Hin2. congruence.
    + done.
Qed.

End cluster_more_facts.

Lemma MemberByName_spec_witness :
  MemberByName (E:=toy.env) sample.cluster0 "infra9" = Ret None.
Proof.
  destruct (MemberByName_spec (E:=toy.env) sample.cluster0 "infra9") as [H _].
  apply H. intros k m Hk.
  unfold sample.cluster0 in Hk. cbn [members] in Hk.
  apply lookup_insert_Some in Hk as [[_ <-]|[_ Hk]]; [done|].
  apply lookup_insert_Some in Hk as [[_ <-]|[_ Hk]]; [done|].
  by rewrite lookup_empty in Hk.
Defined.

Section cluster_invariants.
Context {E : Env}.

Lemma UpdateAttributes_frame (c c' : Cluster) (i : Z) (attr : Attributes) :
  UpdateAttributes c i attr = Ret c' ->
  index c' = index c /\ id c' = id c /\ removed c' = removed c /\
  dom (members c') = dom (members c) /\
  transport c' = transport c /\
  (forall j, j <> i -> members c' !! j = members c !! j) /\
  store c' = store c /\ token c' = token c /\
  exists m, members c !! i = Some m /\
            members c' !! i = Some (mkMember (ID m) (raftAttributes m) attr).
Proof.
  unfold UpdateAttributes.
  destruct (members c !! i) as [m|] eqn:Hm; [|done]. intros [= <-]. cbn.
  split_and!; try done.
  - rewrite dom_insert_L. apply elem_of_dom_2 in Hm. set_solver.
  - intros j Hj. by rewrite lookup_insert_ne.
  - exists m. split; [done|]. apply lookup_insert_eq.
Qed.

(** The mutators of the cluster never lower its index and keep its id;
    the members and the removed ids stay apart under [RemoveMember],
    [UpdateRaftAttributes] and [UpdateAttributes], and under [AddMember]
    of an id that is not removed. [RemoveMember] past the index guard
    moves the id from the members to the removed ids. [UpdateAttributes]
    replaces the attributes of the one member and nothing else: the
    member keeps its id and raft attributes, and the store, the token and
    every other member are as before. *)
Theorem mutators_keep_invariants (c : Cluster) (idx : Z) :
  (forall m c', AddMember c m idx = Ret c' ->
     index c <= index c' /\ id c' = id c /\ removed c' = removed c /\
     (dom (members c) ## removed c -> ID m ∉ removed c ->
      dom (members c') ## removed c')) /\
  (forall i c', RemoveMember c i idx = Ret c' ->
     index c <= index c' /\ id c' = id c /\
     (dom (members c) ## removed c -> dom (members c') ## removed c') /\
     (index c < idx -> i ∈ removed c' /\ members c' !! i = None)) /\
  (forall i ra c', UpdateRaftAttributes c i ra idx = Ret c' ->
     index c <= index c' /\ id c' = id c /\ removed c' = removed c /\
     dom (members c') = dom (members c)) /\
  (forall i attr c', UpdateAttributes c i attr = Ret c' ->
     index c' = index c /\ id c' = id c /\ removed c' = removed c /\
     dom (members c') = dom (members c) /\
     transport c' = transport c /\
     (forall j, j <> i -> members c' !! j = members c !! j) /\
     store c' = store c /\ token c' = token c /\
     exists m, members c !! i = Some m /\
               members c' !! i = Some (mkMember (ID m) (raftAttributes m) attr)).
Proof.
  split_and!.
  - intros m c'. unfold AddMember.
    destruct (json_Marshal_RaftAttributes _) as [b|]; [|done].
    destruct (store_Create _ _ _ _ _ _) as [st [ev|]]; [|done].
    destruct (index c <? idx) eqn:Hi; intros [= <-]; cbn.
    + split_and!; [lia|done|done|]. rewrite dom_insert_L. set_solver.
    + split_and!; [lia|done|done|done].
  - intros i c'. unfold RemoveMember.
    destruct (store_Delete _ _ _ _) as [st1 [ev1|]]; [|done].
    destruct (store_Create _ _ _ _ _ _) as [st2 [ev2|]]; [|done].
    destruct (index c <? idx) eqn:Hi.
    + destruct (members c !! i); [|done]. intros [= <-]. cbn.
      split_and!; [lia|done| |].
      * rewrite dom_delete_L. set_solver.
      * intros _. split; [set_solver|apply lookup_delete_eq].
    + intros [= <-]. cbn. split_and!; [lia|done|done|lia].
  - intros i ra c'. unfold UpdateRaftAttributes.
    destruct (json_Marshal_RaftAttributes _) as [b|]; [|done].
    destruct (store_Update _ _ _ _) as [st [ev|]]; [|done].
    destruct (index c <? idx) eqn:Hi.
    + destruct (members c !! i) as [m|] eqn:Hm; [|done]. intros [= <-]. cbn.
      split_and!; [lia|done|done|]. rewrite dom_insert_L.
      apply elem_of_dom_2 in Hm. set_solver.
    + intros [= <-]. cbn. split_and!; [lia|done|done|done].
  - intros i attr c'. apply UpdateAttributes_frame.
Qed.

Lemma members_of_nodes_sound ns ms0 ms :
  members_of_nodes ns ms0 = Ret ms ->
  (forall k m, ms !! k = Some m ->
     ms0 !! k = Some m \/ exists n, n ∈ ns /\ nodeToMember n = inl m) /\
  (forall n, n ∈ ns ->
     exists m, nodeToMember n = inl m /\ is_Some (ms !! ID m)) /\
  (forall k, is_Some (ms0 !! k) -> is_Some (ms !! k)).
Proof.
  revert ms0. induction ns as [|n ns IH]; intros ms0; cbn.
  - intros [= <-]. split_and!; [by left| |done].
    intros n Hn. by apply elem_of_nil in Hn.
  - destruct (nodeToMember n) as [m0|] eqn:Hn0; [|done].
    intros (H1 & H2 & H3)%IH. split_and!.
    + intros k m [Hk|(n' & Hn' & Hc)]%H1.
      * rewrite lookup_insert in Hk. case_decide.
        -- injection Hk as <-. right. exists n. split; [left|done].
        -- by left.
      * right. exists n'. split; [by right|done].
    + intros n' [->|Hn']%elem_of_cons.
      * exists m0. split; [done|]. apply H3. rewrite lookup_insert_eq. by eexists.
      * by apply H2.
    + intros k Hk. apply H3. rewrite lookup_insert. by case_decide.
Qed.

Lemma removed_of_nodes_sound ns rs0 rs :
  removed_of_nodes ns rs0 = Ret rs ->
  forall i, i ∈ rs <->
    i ∈ rs0 \/ exists n, n ∈ ns /\ mustParseMemberIDFromKey (storeapi.Key n) = Some i.
Proof.
  revert rs0. induction ns as [|n ns IH]; intros rs0; cbn.
  - intros [= <-] i. split; [by left|]. intros [Hi|(n & Hn & _)]; [done|].
    by apply elem_of_nil in Hn.
  - destruct (mustParseMemberIDFromKey _) as [i0|] eqn:Hp; [|done].
    intros Hrec i. rewrite (IH _ Hrec). split.
    + intros [[->%elem_of_singleton|Hi]%elem_of_union|(n' & Hn' & Hc)].
      * right. exists n. split; [left|done].
      * by left.
      * right. exists n'. split; [by right|done].
    + intros [Hi|(n' & [->|Hn']%elem_of_cons & Hc)].
      * left. set_solver.
      * left. rewrite Hp in Hc. injection Hc as ->. set_solver.
      * right. by exists n'.
Qed.

(** What [membersFromStore] returns: with no [/0/members] in the store,
    nothing; otherwise a member for each node of that directory, filed
    under its own id, and nothing else; and as removed ids those of the
    nodes of [/0/removed_members], or none when that directory is
    missing. *)
Theorem membersFromStore_sound (st : Store) (ms : gmap Z Member) (rs : gset Z) :
  membersFromStore st = Ret (ms, rs) ->
  match store_Get st storeMembersPrefix true true with
  | inr e => isKeyNotFound e = true /\ ms = ∅ /\ rs = ∅
  | inl e =>
      (forall k m, ms !! k = Some m ->
         ID m = k /\
         exists n, n ∈ storeapi.Nodes (storeapi.Node e) /\ nodeToMember n = inl m) /\
      (forall n, n ∈ storeapi.Nodes (storeapi.Node e) ->
         exists m, nodeToMember n = inl m /\ is_Some (ms !! ID m)) /\
      match store_Get st storeRemovedMembersPrefix true true with
      | inr e' => isKeyNotFound e' = true /\ rs = ∅
      | inl e' =>
          forall i, i ∈ rs <->
            exists n, n ∈ storeapi.Nodes (storeapi.Node e') /\
                      mustParseMemberIDFromKey (storeapi.Key n) = Some i
      end
  end.
Proof.
  intros Hst. pose proof (membersFromStore_keys _ _ _ Hst) as Hkeys.
  unfold membersFromStore in Hst.
  destruct (store_Get st storeMembersPrefix true true) as [e|e].
  - destruct (members_of_nodes _ ∅) as [ms1| | |] eqn:Hm; try done.
    cbn in Hst. apply members_of_nodes_sound in Hm as (H1 & H2 & _).
    destruct (store_Get st storeRemovedMembersPrefix true true) as [e'|e'].
    + destruct (removed_of_nodes _ ∅) as [rs1| | |] eqn:Hr; try done.
      cbn in Hst. injection Hst as <- <-. split_and!.
      * intros k m Hk. split; [by eapply Hkeys|].
        destruct (H1 k m Hk) as [Hemp|Hn]; [by rewrite lookup_empty in Hemp|done].
      * done.
      * intros i. rewrite (removed_of_nodes_sound _ _ _ Hr). set_solver.
    + destruct (isKeyNotFound e') eqn:Hnf; [|done].
      injection Hst as <- <-. split_and!; try done.
      intros k m Hk. split; [by eapply Hkeys|].
      destruct (H1 k m Hk) as [Hemp|Hn]; [by rewrite lookup_empty in Hemp|done].
  - destruct (isKeyNotFound e) eqn:Hnf; [|done]. by injection Hst as <- <-.
Qed.

End cluster_invariants.

(** [RemoveMember] of member 2 at index 5 on the sample cluster. *)
Lemma mutators_keep_invariants_witness :
  exists c' : Cluster (E:=toy.env),
    RemoveMember (E:=toy.env) sample.cluster0 2 5 = Ret c' /\
    2 ∈ removed c' /\ members c' !! 2 = None.
Proof.
  eexists. split; [reflexivity|].
  destruct (mutators_keep_invariants (E:=toy.env) sample.cluster0 5)
    as (_ & H & _).
  destruct (H 2 _ eq_refl) as (_ & _ & _ & H4).
  apply H4. cbn. lia.
Defined.

(** The members that [membersFromStore] reads from the sample store are
    filed under their ids. *)
Lemma membersFromStore_sound_witness :
  exists (ms : gmap Z Member) (rs : gset Z),
    membersFromStore (E:=toy.env) sample.st0 = Ret (ms, rs) /\
    forall k m, ms !! k = Some m -> ID m = k.
Proof.
  eexists _, _. split; [vm_compute; reflexivity|].
  intros k m Hk.
  pose proof (membersFromStore_sound (E:=toy.env) sample.st0 _ _
                ltac:(vm_compute; reflexivity)) as HS.
  destruct (@store_Get toy.env sample.st0 storeMembersPrefix true true)
    as [e|e] eqn:HG.
  - destruct HS as (H1 & _). by destruct (H1 k m Hk).
  - vm_compute in HG. discriminate HG.
Defined.

(** ** More of the server *)

Section server_more.
Context {E : Env}.

Lemma set_store_same (s : EtcdServer) : set_store s (store (cluster s)) = s.
Proof. destruct s as [? ? ? ? ? [] ? ?]. reflexivity. Qed.

Lemma f_resp_shape (s : EtcdServer) (res : Store * (storeapi.Event + error)) :
  exists st' resp, f_resp s res = (set_store s st', resp).
Proof. destruct res as [st' [ev|e]]; by eexists _, _. Qed.

Lemma precondition_bool (req : pb.Request) :
  (0 <? pb.PrevIndex req) || negb (bool_decide (pb.PrevValue req = ""))
  = bool_decide (0 < pb.PrevIndex req \/ pb.PrevValue req <> "").
Proof.
  destruct (Z.ltb_spec 0 (pb.PrevIndex req)); cbn.
  - symmetry. apply bool_decide_eq_true_2. by left.
  - case_bool_decide as Hv; cbn; symmetry.
    + apply bool_decide_eq_false_2. intros [?|?]; [lia|done].
    + apply bool_decide_eq_true_2. by right.
Qed.

Lemma applyRequest_not_PUT (s : EtcdServer) (req : pb.Request) :
  pb.Method req <> "PUT" ->
  exists st' resp, applyRequest s req = Ret (set_store s st', resp).
Proof.
  intros Hput. unfold applyRequest. rewrite precondition_bool.
  rewrite (bool_decide_eq_false_2 (pb.Method req = "PUT")) by done.
  repeat case_bool_decide;
    try (match goal with
         | |- context [f_resp ?s0 ?res] =>
             destruct (f_resp_shape s0 res) as (st' & resp & ->)
         end; by eexists _, _).
  - by eexists _, _.
  - exists (store (cluster s)). eexists. by rewrite set_store_same.
Qed.

(** The store operation that [applyRequest] performs for the methods
    other than PUT. None of them panics, and none changes anything but
    the store: [QGET] and an unknown method leave the server as it was. *)
Theorem applyRequest_other_methods (s : EtcdServer) (req : pb.Request) :
  let st := store (cluster s) in
  let expr := UnixNanoToTime (pb.Expiration req) in
  (pb.Method req = "POST" ->
   applyRequest s req =
     Ret (f_resp s (store_Create st (pb.Path req) (pb.Dir req) (pb.Val req)
                      true expr))) /\
  (pb.Method req = "DELETE" ->
   0 < pb.PrevIndex req \/ pb.PrevValue req <> "" ->
   applyRequest s req =
     Ret (f_resp s (store_CompareAndDelete st (pb.Path req) (pb.PrevValue req)
                      (pb.PrevIndex req)))) /\
  (pb.Method req = "DELETE" ->
   ~ (0 < pb.PrevIndex req \/ pb.PrevValue req <> "") ->
   applyRequest s req =
     Ret (f_resp s (store_Delete st (pb.Path req) (pb.Dir req)
                      (pb.Recursive req)))) /\
  (pb.Method req = "QGET" ->
   applyRequest s req =
     Ret (s, match store_Get st (pb.Path req) (pb.Recursive req) (pb.Sorted req) with
             | inl ev => mkResponse (Some ev) None None
             | inr e => mkResponse None None (Some e)
             end)) /\
  (pb.Method req = "SYNC" ->
   applyRequest s req =
     Ret (set_store s (store_DeleteExpiredKeys st (time_Unix 0 (pb.r_Time req))),
          mkResponse None None None)) /\
  (pb.Method req ∉ ["POST"; "PUT"; "DELETE"; "QGET"; "SYNC"] ->
   applyRequest s req = Ret (s, mkResponse None None (Some ErrUnknownMethod))) /\
  (pb.Method req <> "PUT" ->
   exists st' resp, applyRequest s req = Ret (set_store s st', resp)).
Proof.
  intros st expr. unfold applyRequest. rewrite precondition_bool.
  split_and!.
  - intros ->. by repeat case_bool_decide.
  - intros -> Hp. repeat case_bool_decide; try done; tauto.
  - intros -> Hp. repeat case_bool_decide; try done; tauto.
  - intros ->. repeat case_bool_decide; try done. fold st.
    destruct (store_Get st _ _ _); cbn; by rewrite set_store_same.
  - intros ->. by repeat case_bool_decide.
  - intros Hm.
    repeat (rewrite bool_decide_eq_false_2; [|intros Heq; apply Hm; rewrite Heq; set_solver]).
    done.
  - intros Hput. pose proof (applyRequest_not_PUT s req Hput) as H.
    unfold applyRequest in H. by rewrite precondition_bool in H.
Qed.

Lemma applyRequest_cluster_only (s s' : EtcdServer) (req : pb.Request)
    (resp : Response) :
  applyRequest s req = Ret (s', resp) ->
  exists c st',
    s' = set_store (set_cluster s c) st' /\
    (c = cluster s \/ exists i attr, UpdateAttributes (cluster s) i attr = Ret c).
Proof.
  destruct (decide (pb.Method req = "PUT")) as [Hput|Hput].
  - unfold applyRequest. rewrite Hput.
    rewrite bool_decide_eq_false_2 by discriminate.
    rewrite bool_decide_eq_true_2 by done.
    unfold applyRequest_PUT.
    destruct (GetBool _) as [ex exSet].
    destruct exSet; [destruct ex; [destruct (_ && _)|]|destruct (_ || _)];
      try (match goal with
           | |- Ret (f_resp ?s0 ?res) = _ -> _ =>
               destruct (f_resp_shape s0 res) as (st' & r' & ->)
           end; intros [= <- _]; exists (cluster s), st';
           split; [reflexivity|by left]).
    destruct (storeMemberAttributeRegexp_MatchString (pb.Path req)).
    + destruct (mustParseMemberIDFromKey _) as [i|]; [|done].
      destruct (json_Unmarshal_Attributes _) as [attr|]; [|done].
      destruct (UpdateAttributes (cluster s) i attr) as [c| | |] eqn:Hu; try done.
      cbn [mbind Go_bind bind].
      match goal with
      | |- Ret (f_resp ?s0 ?res) = _ -> _ =>
          destruct (f_resp_shape s0 res) as (st' & r' & ->)
      end.
      intros [= <- _]. exists c, st'. split; [reflexivity|]. right. eauto.
    + cbn [mbind Go_bind bind].
      match goal with
      | |- Ret (f_resp ?s0 ?res) = _ -> _ =>
          destruct (f_resp_shape s0 res) as (st' & r' & ->)
      end.
      intros [= <- _]. exists (cluster s), st'. split; [reflexivity|by left].
  - destruct (applyRequest_not_PUT s req Hput) as (st' & resp' & Heq).
    rewrite Heq.
    intros [= <- _]. exists (cluster s), st'. split; [reflexivity|by left].
Qed.

(** [applyRequest] leaves the wait registry, the raft node, the id
    generator and the goroutines alone, and of the cluster it changes at
    most the store and the attributes of members: the ids of the members,
    the removed ids, the index and the transport are as before. *)
Theorem applyRequest_frame (s s' : EtcdServer) (req : pb.Request)
    (resp : Response) :
  applyRequest s req = Ret (s', resp) ->
  w s' = w s /\ r s' = r s /\ reqIDGen s' = reqIDGen s /\
  goroutines s' = goroutines s /\ done s' = done s /\
  index (cluster s') = index (cluster s) /\
  removed (cluster s') = removed (cluster s) /\
  transport (cluster s') = transport (cluster s) /\
  dom (members (cluster s')) = dom (members (cluster s)).
Proof.
  intros (c & st' & -> & Hc)%applyRequest_cluster_only. cbn.
  destruct Hc as [->|(i & attr & Hu)]; [by split_and!|].
  destruct (UpdateAttributes_frame _ _ _ _ Hu) as (Hi & _ & Hr & Hd & Ht & _).
  by split_and!.
Qed.

End server_more.

Section apply_facts.
Context {E : Env}.

Lemma applyConfChange_w (s s' : EtcdServer) (cc : raftpb.ConfChange)
    (cs cs' : raftpb.ConfState) (idx : Z) (res : bool * option error) :
  applyConfChange s cc cs idx = Ret (s', cs', res) -> w s' = w s.
Proof.
  unfold applyConfChange.
  destruct (ValidateConfigurationChange (cluster s) cc) as [[e|]| | |]; try done;
    cbn [mbind Go_bind bind];
    destruct (ApplyConfChange _ _) as [n cs0]; [by intros [= <- _ _]|].
  destruct (raftpb.cc_Type cc).
  - destruct (json_Unmarshal_Member _) as [m|]; [|done].
    case_bool_decide; [|done].
    destruct (AddMember _ _ _) as [c| | |]; try done. by intros [= <- _ _].
  - destruct (RemoveMember _ _ _) as [c| | |]; try done. cbn.
    case_bool_decide; by intros [= <- _ _].
  - destruct (json_Unmarshal_Member _) as [m|]; [|done].
    case_bool_decide; [|done].
    destruct (UpdateRaftAttributes _ _ _ _) as [c| | |]; try done.
    by intros [= <- _ _].
  - by intros [= <- _ _].
Qed.


Lemma apply_loop_app (a : apply_vars) (es1 es2 : list raftpb.Entry) :
  apply_loop a (es1 ++ es2) = a' ← apply_loop a es1; apply_loop a' es2.
Proof.
  revert a. induction es1 as [|e es1 IH]; intros a; [done|].
  cbn [app apply_loop]. destruct (apply_entry a e) as [a1| | |]; try done.
  cbn. apply IH.
Qed.

Lemma apply_entry_index (a a' : apply_vars) (e : raftpb.Entry) :
  apply_entry a e = Ret a' ->
  av_applied a' = raftpb.Index e /\
  r_index (r (av_server a')) = raftpb.Index e /\
  r_term (r (av_server a')) = raftpb.Term e.
Proof.
  unfold apply_entry.
  match goal with
  | |- (mbind _ ?x) = _ -> _ => destruct x as [[[s1 cs1] st1]| | |]
  end; try done.
  cbn. by intros [= <-].
Qed.

(** [apply] returns the index of the last entry it was given and leaves
    that index and the term of that entry in the raft node; given no
    entry it returns index 0 and changes nothing. *)
Theorem apply_applied_index (s s' : EtcdServer) (es : list raftpb.Entry)
    (cs cs' : raftpb.ConfState) (applied : Z) (stop : bool) :
  apply s es cs = Ret (s', cs', (applied, stop)) ->
  (es = [] -> s' = s /\ cs' = cs /\ applied = 0 /\ stop = false) /\
  (forall e, last es = Some e ->
     applied = raftpb.Index e /\
     r_index (r s') = raftpb.Index e /\
     r_term (r s') = raftpb.Term e).
Proof.
  unfold apply. intros Happ. split.
  - intros ->. cbn in Happ. by injection Happ as <- <- <- <-.
  - intros e (es' & ->)%last_Some. rewrite apply_loop_app in Happ.
    destruct (apply_loop _ es') as [a1| | |]; try done.
    cbn [mbind Go_bind bind apply_loop] in Happ.
    destruct (apply_entry a1 e) as [a2| | |] eqn:He; try done.
    cbn in Happ. injection Happ as <- <- <- <-.
    by apply apply_entry_index in He.
Qed.

(** The request that [Do] registered gets its answer when its entry is
    applied: [apply] hands the response of [applyRequest] to the slot of
    the request id and removes the slot, and the [select] of [Do] on that
    channel returns this response with its error. *)
Theorem apply_entry_delivers (a : apply_vars) (e : raftpb.Entry)
    (req : pb.Request) (ch : nat) (p : list (wait.pending Value))
    (s1 : EtcdServer) (resp : Response) (ctx_err : option error) :
  wait.reachable (w (av_server a), p) ->
  wait.m (w (av_server a)) !! pb.ID req = Some ch ->
  raftpb.Entry_Type e = raftpb.EntryNormal ->
  Request_Unmarshal (raftpb.Data e) = Some req ->
  applyRequest (av_server a) req = Ret (s1, resp) ->
  exists a',
    apply_entry a e = Ret a' /\
    av_applied a' = raftpb.Index e /\
    wait.m (w (av_server a')) !! pb.ID req = None /\
    exists s2,
      Do_select (av_server a') (pb.ID req) ch ctx_err case_ch =
        Ret (s2, (resp, err resp)).
Proof.
  intros HI%reachable_Inv Hid Hty Hun Happ.
  assert (Hw : w s1 = w (av_server a)).
  { by destruct (applyRequest_cluster_only _ _ _ _ Happ) as (? & ? & -> & _). }
  rewrite <- Hw in HI, Hid.
  pose proof (Trigger_registered (pb.ID req) (VResponse resp) (w s1) p ch HI Hid)
    as HT.
  assert (Hlt : (ch < length (wait.chans (w s1)))%nat).
  { destruct HI as (Hm & _). eapply lookup_lt_Some, Hm, Hid. }
  eexists. split.
  { unfold apply_entry. rewrite Hty, Hun, Happ. cbn [mbind Go_bind bind].
    rewrite HT. cbn [mbind Go_bind bind]. reflexivity. }
  cbn [av_applied av_server]. split; [done|]. split.
  - cbn. apply lookup_delete_eq.
  - eexists. cbn [Do_select set_index_term set_r set_w w].
    unfold wait.recv. cbn [wait.chans wait.m].
    rewrite list_lookup_insert_eq by done. cbn. reflexivity.
Qed.

End apply_facts.

(** A POST on the sample server creates a uniquely named key. *)
Lemma applyRequest_other_methods_witness :
  applyRequest (E:=toy.env) sample.server0 (sample.request "POST" "/1/queue" "job")
  = Ret (f_resp (E:=toy.env) sample.server0
           (toy.Create sample.st0 "/1/queue" false "job" true 0)).
Proof.
  destruct (applyRequest_other_methods (E:=toy.env) sample.server0
              (sample.request "POST" "/1/queue" "job")) as (H & _).
  apply H. reflexivity.
Defined.

Lemma applyRequest_frame_witness :
  exists (s' : EtcdServer (E:=toy.env)) (resp : Response),
    applyRequest (E:=toy.env) sample.server0
      (sample.request "PUT" "/0/members/2/attributes" "infra2;http://10.0.0.2:2379")
    = Ret (s', resp) /\
    dom (members (cluster s')) = dom (members (cluster sample.server0)).
Proof.
  eexists _, _. split; [reflexivity|].
  eapply (applyRequest_frame (E:=toy.env) sample.server0 _
            (sample.request "PUT" "/0/members/2/attributes"
               "infra2;http://10.0.0.2:2379")).
  reflexivity.
Defined.


Lemma apply_applied_index_witness :
  exists (s' : EtcdServer (E:=toy.env)) (cs' : raftpb.ConfState) (stop : bool),
    apply (E:=toy.env) sample.fresh [sample.entry1] (raftpb.mkConfState [1])
    = Ret (s', cs', (1, stop)) /\
    r_index (r s') = 1.
Proof.
  eexists _, _, _. split; [reflexivity|].
  epose proof (apply_applied_index (E:=toy.env) sample.fresh _
                 [sample.entry1] (raftpb.mkConfState [1]) _ _ _ eq_refl)
    as [_ H].
  by destruct (H sample.entry1 eq_refl) as (_ & ? & _).
Defined.

(** Entry 1 applied on a server where [Do] has registered request 7. *)
Lemma apply_entry_delivers_witness :
  exists a' : apply_vars (E:=toy.env),
    apply_entry (E:=toy.env)
      (mkApplyVars (E:=toy.env)
         (set_w sample.fresh (fst (wait.Register 7 wait.New)))
         (raftpb.mkConfState [1]) 0 false)
      sample.entry1 = Ret a' /\
    wait.m (w (av_server a')) !! 7 = None.
Proof.
  epose proof (apply_entry_delivers (E:=toy.env)
    (mkApplyVars (E:=toy.env)
       (set_w sample.fresh (fst (wait.Register 7 wait.New)))
       (raftpb.mkConfState [1]) 0 false)
    sample.entry1
    (pb.mkRequest 7 "PUT" "/1/foo" "bar" false "" 0 None 0 false 0 false false
       false 0 false)
    0%nat [] _ _ None) as H.
  destruct H as (a' & H1 & _ & H3 & _).
  - eapply wait.reachable_step;
      [apply wait.reachable_New|apply (wait.step_Register 7)].
  - reflexivity.
  - reflexivity.
  - vm_compute. reflexivity.
  - reflexivity.
  - exists a'. split; [exact H1|exact H3].
Defined.

Section run_more.
Context {E : Env}.



(** The snapshot trigger of [run]: when applied and snapshot index are
    in order, the turn ends with at most [snapCount] entries applied since
    the last snapshot, and it starts a snapshot goroutine, on a clone of
    the store at the applied index, exactly when that bound was passed.
    The subtraction is unsigned: with the applied index below the
    snapshot index the difference wraps around, and a snapshot is started
    for any [snapCount] below the wrapped value. *)
Theorem run_trigger_snapshot_bound (s : EtcdServer) (v : run_vars) :
  let s' := fst (run_trigger_snapshot s v) in
  let v' := snd (run_trigger_snapshot s v) in
  let started :=
    [go_snapshot (store_Clone (store (cluster s))) (appliedi v) (confState v)] in
  appliedi v' = appliedi v /\ cluster s' = cluster s /\ w s' = w s /\
  (0 <= snapi v <= appliedi v -> appliedi v < 2 ^ 64 -> 0 <= snapCount s ->
   0 <= appliedi v' - snapi v' <= snapCount s /\
   (snapCount s < appliedi v - snapi v ->
    goroutines s' = goroutines s ++ started /\ snapi v' = appliedi v) /\
   (appliedi v - snapi v <= snapCount s -> s' = s /\ v' = v)) /\
  (0 <= appliedi v < snapi v -> snapi v < 2 ^ 64 ->
   snapCount s < 2 ^ 64 - (snapi v - appliedi v) ->
   goroutines s' = goroutines s ++ started /\ snapi v' = appliedi v).
Proof.
  unfold run_trigger_snapshot.
  destruct (snapCount s <? u64 (appliedi v - snapi v)) eqn:Hc; cbn.
  - do 3 (split; [done|]). split.
    + intros Hord Hmax Hsc. rewrite u64_small in Hc by lia.
      split; [lia|]. split; [done|]. intros. lia.
    + done.
  - do 3 (split; [done|]). split.
    + intros Hord Hmax Hsc. rewrite u64_small in Hc by lia.
      split; [lia|]. split; [intros; lia|done].
    + intros Hord Hmax Hsc. exfalso.
      assert (u64 (appliedi v - snapi v) = 2 ^ 64 + (appliedi v - snapi v)).
      { unfold u64. symmetry. apply (Z.mod_unique _ _ (-1)); lia. }
      lia.
Qed.

(** [Do] serves the methods that do not go through consensus at once:
    it returns without blocking, takes one id from the generator, and
    leaves the wait registry, the raft node and the cluster view apart
    from the store alone. A quorum [GET] is not among them: it becomes a
    [QGET]. Every method other than [POST], [PUT], [DELETE], [QGET],
    [GET] and [HEAD], [SYNC] included, is answered with
    [ErrUnknownMethod]. *)
Theorem Do_local (s : EtcdServer) (ctx_err : option error)
    (sel : select_case) (req : pb.Request) :
  let i := snd (idutil.Next (reqIDGen s)) in
  let req' := Do_request req i in
  (pb.Method req = "GET" -> pb.Quorum req = true -> pb.Method req' = "QGET") /\
  (~ (pb.Method req = "GET" /\ pb.Quorum req = true) ->
   pb.Method req' = pb.Method req) /\
  (pb.Method req' ∉ ["POST"; "PUT"; "DELETE"; "QGET"] ->
   exists s' res,
     Do s ctx_err sel req = Ret (s', res) /\
     w s' = w s /\ r s' = r s /\
     reqIDGen s' = fst (idutil.Next (reqIDGen s)) /\
     members (cluster s') = members (cluster s) /\
     removed (cluster s') = removed (cluster s) /\
     index (cluster s') = index (cluster s) /\
     transport (cluster s') = transport (cluster s) /\
     (pb.Method req' ∉ ["GET"; "HEAD"] ->
      res = (empty_Response, Some ErrUnknownMethod) /\
      cluster s' = cluster s)).
Proof.
  intros i req'. split_and!.
  - intros Hm Hq. unfold req', Do_request. cbn. rewrite Hm, Hq. done.
  - intros Hn. unfold req', Do_request. cbn.
    destruct (bool_decide _ && _) eqn:Hb; [|done].
    apply andb_prop in Hb as [Hb1%bool_decide_eq_true Hb2]. tauto.
  - intros Hloc. unfold Do.
    destruct (idutil.Next (reqIDGen s)) as [g i0] eqn:HN.
    subst i req'. cbn [fst snd] in *.
    rewrite bool_decide_eq_false_2 by done.
    case_bool_decide as Hget.
    + destruct (pb.Wait _).
      * destruct (store_Watch _ _ _ _ _) as [st [wc|e]];
          eexists _, _; (split; [reflexivity|]); cbn; split_and!; try done;
          intros Hno; exfalso; apply Hno; rewrite Hget; set_solver.
      * destruct (store_Get _ _ _ _) as [ev|e];
          eexists _, _; (split; [reflexivity|]); cbn; split_and!; try done;
          intros Hno; exfalso; apply Hno; rewrite Hget; set_solver.
    + case_bool_decide as Hhead.
      * destruct (store_Get _ _ _ _) as [ev|e];
          eexists _, _; (split; [reflexivity|]); cbn; split_and!; try done;
          intros Hno; exfalso; apply Hno; rewrite Hhead; set_solver.
      * eexists _, _. split; [reflexivity|]. cbn. by split_and!.
Qed.

End run_more.


(** 10001 entries applied since the last snapshot, with the default
    [snapCount] of 10000. *)
Lemma run_trigger_snapshot_bound_witness :
  snapi (snd (run_trigger_snapshot (E:=toy.env) sample.server0
                (mkRunVars (raftpb.mkConfState [1; 2]) 3 10004 false)))
  = 10004.
Proof.
  destruct (run_trigger_snapshot_bound (E:=toy.env) sample.server0
    (mkRunVars (raftpb.mkConfState [1; 2]) 3 10004 false))
    as (_ & _ & _ & H & _).
  destruct H as (_ & H & _);
    [cbn; lia|cbn; lia|cbn; unfold DefaultSnapCount; lia|].
  apply H. cbn. unfold DefaultSnapCount. lia.
Defined.

(** A [SYNC] request that a client hands to [Do]. *)
Lemma Do_local_witness :
  exists s' : EtcdServer (E:=toy.env),
    Do (E:=toy.env) sample.server0 None case_ch (sample.request "SYNC" "" "")
    = Ret (s', (empty_Response, Some ErrUnknownMethod)).
Proof.
  destruct (Do_local (E:=toy.env) sample.server0 None case_ch
              (sample.request "SYNC" "" "")) as (_ & _ & H).
  destruct H as (s' & res & HDo & _ & _ & _ & _ & _ & _ & _ & Hres).
  - cbn. intros Hin. apply (bool_decide_pack _) in Hin. vm_compute in Hin.
    exact Hin.
  - exists s'. destruct Hres as [-> _]; [|exact HDo].
    cbn. intros Hin. apply (bool_decide_pack _) in Hin. vm_compute in Hin.
    exact Hin.
Defined.

(** ** Restart as a standalone node *)

Section standalone_facts.
Context {E : Env}.
Variable ConfChange_Marshal : raftpb.ConfChange -> option string.
Variable json_Marshal_Member : Member -> string + error.

Local Abbreviation cce_loop := (createConfigChangeEnts_loop ConfChange_Marshal).
Local Abbreviation cce :=
  (createConfigChangeEnts ConfChange_Marshal json_Marshal_Member).

Lemma getIDs_loop_app (es1 es2 : list raftpb.Entry) (ids : gset Z) :
  getIDs_loop (es1 ++ es2) ids = ids' ← getIDs_loop es1 ids; getIDs_loop es2 ids'.
Proof.
  revert ids. induction es1 as [|e es1 IH]; intros ids; [done|].
  cbn [app getIDs_loop].
  destruct (raftpb.Entry_Type e); try apply IH.
  destruct (ConfChange_Unmarshal _) as [cc|]; [|done].
  destruct (raftpb.cc_Type cc); try done; apply IH.
Qed.

(** [getIDs] panics on a log that holds a configuration change that
    neither adds nor removes a node, a [ConfChangeUpdateNode] for one. *)
Theorem getIDs_UpdateNode_panics (snap : option raftpb.Snapshot)
    (ents : list raftpb.Entry) (e : raftpb.Entry) (cc : raftpb.ConfChange) :
  e ∈ ents ->
  raftpb.Entry_Type e = raftpb.EntryConfChange ->
  ConfChange_Unmarshal (raftpb.Data e) = Some cc ->
  raftpb.cc_Type cc <> raftpb.ConfChangeAddNode ->
  raftpb.cc_Type cc <> raftpb.ConfChangeRemoveNode ->
  getIDs snap ents = Panic.
Proof.
  intros Hin Hty Hun Hadd Hrm. unfold getIDs.
  assert (Hloop : forall ids, getIDs_loop ents ids = Panic).
  { induction ents as [|e0 ents IH]; intros ids; [by apply elem_of_nil in Hin|].
    apply elem_of_cons in Hin as [<-|Hin]; cbn [getIDs_loop].
    - rewrite Hty, Hun. by destruct (raftpb.cc_Type cc).
    - destruct (raftpb.Entry_Type e0); try by apply IH.
      destruct (ConfChange_Unmarshal (raftpb.Data e0)) as [cc0|]; [|done].
      destruct (raftpb.cc_Type cc0); try done; by apply IH. }
  by rewrite Hloop.
Qed.

Lemma getIDs_NoDup (snap : option raftpb.Snapshot)
    (ents : list raftpb.Entry) (ids : list Z) :
  getIDs snap ents = Ret ids -> NoDup ids.
Proof.
  unfold getIDs.
  destruct (getIDs_loop ents _) as [S| | |]; try done. cbn.
  intros [= <-]. rewrite merge_sort_Permutation. apply NoDup_elements.
Qed.

(** The ids that [getIDs] returns are in ascending order without
    repetition; with no entries they are the nodes of the snapshot. *)
Theorem getIDs_sorted (snap : option raftpb.Snapshot)
    (ents : list raftpb.Entry) (ids : list Z) :
  getIDs snap ents = Ret ids ->
  Sorted Z.le ids /\ NoDup ids /\
  (ents = [] ->
   forall i, i ∈ ids <->
     exists sn, snap = Some sn /\
                i ∈ raftpb.Nodes (raftpb.conf_state (raftpb.Metadata sn))).
Proof.
  unfold getIDs.
  destruct (getIDs_loop ents _) as [S| | |] eqn:HS; try done. cbn.
  intros [= <-]. split_and!.
  - apply Sorted_merge_sort. intros x y. lia.
  - rewrite merge_sort_Permutation. apply NoDup_elements.
  - intros ->. cbn in HS. injection HS as <-. intros i.
    rewrite merge_sort_Permutation, elem_of_elements.
    destruct snap as [sn|].
    + rewrite elem_of_list_to_set. split; [by eauto|]. by intros (? & [= <-] & ?).
    + split; [set_solver|]. by intros (? & ? & _).
Qed.

Lemma createConfigChangeEnts_loop_shape (self term : Z) (ids : list Z) :
  forall acc next found acc' next' found',
  cce_loop ids self term acc next found = Ret (acc', next', found') ->
  0 <= next -> next + Z.of_nat (length ids) < 2 ^ 64 ->
  (forall (k : nat) e, acc !! k = Some e ->
     raftpb.Entry_Type e = raftpb.EntryConfChange /\ raftpb.Term e = term /\
     raftpb.Index e = next - Z.of_nat (length acc) + Z.of_nat k) ->
  length acc' = (length acc + length (filter (fun i => i <> self) ids))%nat /\
  next' = next + Z.of_nat (length (filter (fun i => i <> self) ids)) /\
  found' = found || bool_decide (self ∈ ids) /\
  (forall (k : nat) e, acc' !! k = Some e ->
     raftpb.Entry_Type e = raftpb.EntryConfChange /\ raftpb.Term e = term /\
     raftpb.Index e = next - Z.of_nat (length acc) + Z.of_nat k).
Proof.
  induction ids as [|i ids IH]; intros acc next found acc' next' found'.
  - cbn. intros [= <- <- <-] _ _ Hacc. split_and!; try done; try lia.
    by rewrite orb_false_r.
  - cbn [createConfigChangeEnts_loop length]. rewrite filter_cons.
    destruct (Z.eqb_spec i self) as [->|Hne].
    + rewrite decide_False by (by intros ?).
      intros Hrec Hn Hmax Hacc.
      destruct (IH _ _ _ _ _ _ Hrec Hn ltac:(lia) Hacc) as (H1 & H2 & H3 & H4).
      split_and!; try done.
      rewrite H3. cbn. symmetry. rewrite bool_decide_eq_true_2 by left.
      by rewrite orb_true_r.
    + rewrite decide_True by done.
      destruct (ConfChange_Marshal _) as [d|]; [|done].
      intros Hrec Hn Hmax Hacc.
      rewrite u64_small in Hrec by lia.
      destruct (IH _ _ _ _ _ _ Hrec ltac:(lia) ltac:(lia)) as (H1 & H2 & H3 & H4).
      * intros k e. rewrite length_app. cbn [length].
        intros [He|[Hk He]]%lookup_app_Some.
        -- destruct (Hacc k e He) as (?&?&?). split_and!; try done. lia.
        -- destruct (k - length acc)%nat as [|[|]] eqn:Hd; try done.
           cbn in He. injection He as <-. cbn. split_and!; try done. lia.
      * rewrite length_app in H1, H4. cbn [length] in *.
        split_and!.
        -- lia.
        -- lia.
        -- rewrite H3. f_equal. apply bool_decide_ext.
           rewrite elem_of_cons. split; [by right|]. intros [|]; [congruence|done].
        -- intros k e Hk. destruct (H4 k e Hk) as (?&?&?).
           split_and!; try done. lia.
Qed.

(** [createConfigChangeEnts] is its loop, followed by the entry that adds
    [self] when the loop did not find it. *)
Lemma createConfigChangeEnts_unfold (ids : list Z) (self term idx : Z)
    (ents : list raftpb.Entry) :
  cce ids self term idx = Ret ents ->
  exists acc next found,
    cce_loop ids self term [] (u64 (idx + 1)) false = Ret (acc, next, found) /\
    if found then ents = acc
    else exists ctx d,
      json_Marshal_Member (default_member self) = inl ctx /\
      ConfChange_Marshal
        (raftpb.mkConfChange 0 raftpb.ConfChangeAddNode self ctx) = Some d /\
      ents = acc ++ [raftpb.mkEntry raftpb.EntryConfChange term next d].
Proof.
  unfold createConfigChangeEnts.
  destruct (cce_loop ids self term [] _ false) as [[[acc next] found]| | |];
    try done.
  cbn [mbind Go_bind bind]. intros Hc. exists acc, next, found.
  split; [done|]. destruct found; [by injection Hc|].
  destruct (json_Marshal_Member _) as [ctx|]; [|done].
  destruct (ConfChange_Marshal _) as [d|] eqn:Hd; [|done].
  injection Hc as <-. by exists ctx, d.
Qed.

(** Unless [self] is the only id, [createConfigChangeEnts] makes at least
    one entry, and the index of its last entry is beyond [idx]. *)
Lemma createConfigChangeEnts_last (ids : list Z) (self term idx : Z)
    (ents : list raftpb.Entry) :
  cce ids self term idx = Ret ents ->
  0 <= idx -> idx + Z.of_nat (length ids) + 1 < 2 ^ 64 ->
  NoDup ids -> ids <> [self] ->
  exists e, last ents = Some e /\ idx < raftpb.Index e.
Proof.
  intros (acc & next & found & HL & Hents)%createConfigChangeEnts_unfold
    Hidx Hmax Hnd Hne.
  rewrite u64_small in HL by lia.
  destruct (createConfigChangeEnts_loop_shape _ _ _ _ _ _ _ _ _ HL
              ltac:(lia) ltac:(lia)) as (H1 & H2 & H3 & H4).
  { intros k e Hk. by rewrite lookup_nil in Hk. }
  cbn [length orb] in *. subst found.
  case_bool_decide as Hself.
  - subst ents.
    assert (Hpos : (0 < length acc)%nat).
    { rewrite H1.
      destruct ids as [|x [|y rest]]; [by apply elem_of_nil in Hself| |].
      - apply list_elem_of_singleton in Hself. by subst.
      - rewrite !filter_cons. destruct (decide (x <> self)) as [|Hx]; [cbn; lia|].
        apply dec_stable in Hx. subst x.
        rewrite decide_True; [cbn; lia|].
        apply NoDup_cons in Hnd as [Hnin _]. intros ->. apply Hnin. left. }
    rewrite last_lookup.
    destruct (acc !! pred (length acc)) as [e|] eqn:He.
    + exists e. split; [done|]. destruct (H4 _ _ He) as (_ & _ & ->). lia.
    + apply lookup_ge_None in He. lia.
  - destruct Hents as (ctx & d & _ & _ & ->).
    eexists. rewrite last_snoc. split; [done|]. cbn. lia.
Qed.

(** The entries that [createConfigChangeEnts] makes continue the log at
    [idx + 1] without a gap, carry the given term, and are configuration
    changes; there is at most one per id, and one more when [self] is not
    among the ids. *)
Theorem createConfigChangeEnts_shape (ids : list Z) (self term idx : Z)
    (ents : list raftpb.Entry) :
  cce ids self term idx = Ret ents ->
  0 <= idx -> idx + Z.of_nat (length ids) + 1 < 2 ^ 64 ->
  length ents =
    (length (filter (fun i => i <> self) ids)
     + if bool_decide (self ∈ ids) then 0 else 1)%nat /\
  forall (k : nat) (e : raftpb.Entry),
    ents !! k = Some e ->
    raftpb.Entry_Type e = raftpb.EntryConfChange /\
    raftpb.Term e = term /\
    raftpb.Index e = idx + 1 + Z.of_nat k.
Proof.
  intros (acc & next & found & HL & Hents)%createConfigChangeEnts_unfold
    Hidx Hmax.
  rewrite u64_small in HL by lia.
  destruct (createConfigChangeEnts_loop_shape _ _ _ _ _ _ _ _ _ HL
              ltac:(lia) ltac:(lia)) as (H1 & H2 & H3 & H4).
  { intros k e Hk. by rewrite lookup_nil in Hk. }
  cbn [length orb] in *. subst found.
  case_bool_decide as Hself.
  - subst ents. split; [lia|].
    intros k e Hk. destruct (H4 k e Hk) as (?&?&?). split_and!; try done. lia.
  - destruct Hents as (ctx & d & _ & _ & ->).
    rewrite length_app. cbn [length]. split; [lia|].
    intros k e [He|[Hk He]]%lookup_app_Some.
    + destruct (H4 k e He) as (?&?&?). split_and!; try done. lia.
    + destruct (k - length acc)%nat as [|[|]] eqn:Hd; try done.
      cbn in He. injection He as <-. cbn. split_and!; try done. lia.
Qed.

Lemma createConfigChangeEnts_loop_replay (ids : list Z) (self term : Z) :
  (forall i d, i ∈ ids ->
     ConfChange_Marshal (raftpb.mkConfChange 0 raftpb.ConfChangeRemoveNode i "") = Some d ->
     ConfChange_Unmarshal d =
       Some (raftpb.mkConfChange 0 raftpb.ConfChangeRemoveNode i "")) ->
  forall acc next found acc' next' found',
  cce_loop ids self term acc next found = Ret (acc', next', found') ->
  found' = found || bool_decide (self ∈ ids) /\
  exists new, acc' = acc ++ new /\
    forall S : gset Z,
      getIDs_loop new S = Ret (S ∖ (list_to_set ids ∖ {[self]})).
Proof.
  induction ids as [|i ids IH]; intros Hrt acc next found acc' next' found'.
  - cbn. intros [= <- <- <-]. split; [by rewrite orb_false_r|].
    exists []. split; [by rewrite app_nil_r|]. intros S. cbn. f_equal. set_solver.
  - cbn [createConfigChangeEnts_loop].
    destruct (Z.eqb_spec i self) as [->|Hne].
    + intros Hrec.
      destruct (IH ltac:(intros; apply Hrt; [by right|done]) _ _ _ _ _ _ Hrec)
        as (Hf & new & -> & Hnew).
      split.
      { rewrite Hf. cbn. rewrite (bool_decide_eq_true_2 (self ∈ self :: ids)) by left.
        by rewrite orb_true_r. }
      exists new. split; [done|]. intros S. rewrite Hnew. f_equal. set_solver.
    + destruct (ConfChange_Marshal _) as [d|] eqn:Hd; [|done].
      intros Hrec.
      destruct (IH ltac:(intros; apply Hrt; [by right|done]) _ _ _ _ _ _ Hrec)
        as (Hf & new & -> & Hnew).
      split.
      { rewrite Hf. f_equal. apply bool_decide_ext. rewrite elem_of_cons.
        split; [by right|]. intros [|]; [congruence|done]. }
      eexists (_ :: new). split; [by rewrite <- app_assoc|].
      intros S. cbn [getIDs_loop raftpb.Entry_Type raftpb.Data].
      rewrite (Hrt i d ltac:(left) Hd). cbn [raftpb.cc_Type raftpb.NodeID].
      rewrite Hnew. f_equal. set_solver.
Qed.

(** Replaying the forced entries on the set of ids they were made for
    leaves [self] alone. *)
Lemma forced_replay (S : gset Z) (self term idx : Z) (new : list raftpb.Entry) :
  cce (merge_sort Z.le (elements S)) self term idx = Ret new ->
  (forall i d, i ∈ merge_sort Z.le (elements S) ->
     ConfChange_Marshal (raftpb.mkConfChange 0 raftpb.ConfChangeRemoveNode i "") = Some d ->
     ConfChange_Unmarshal d =
       Some (raftpb.mkConfChange 0 raftpb.ConfChangeRemoveNode i "")) ->
  (forall ctx d,
     json_Marshal_Member (default_member self) = inl ctx ->
     ConfChange_Marshal (raftpb.mkConfChange 0 raftpb.ConfChangeAddNode self ctx) = Some d ->
     ConfChange_Unmarshal d =
       Some (raftpb.mkConfChange 0 raftpb.ConfChangeAddNode self ctx)) ->
  getIDs_loop new S = Ret {[self]}.
Proof.
  intros (acc & next & found & HL & Hents)%createConfigChangeEnts_unfold
    Hrm Hadd.
  destruct (createConfigChangeEnts_loop_replay _ self term Hrm _ _ _ _ _ _ HL)
    as (Hf & rm & -> & Hreplay).
  cbn [app orb] in *.
  assert (Hset : list_to_set (C:=gset Z) (merge_sort Z.le (elements S)) = S).
  { apply set_eq. intros x.
    by rewrite elem_of_list_to_set, merge_sort_Permutation, elem_of_elements. }
  assert (Hmem : forall x, x ∈ merge_sort Z.le (elements S) <-> x ∈ S).
  { intros x. by rewrite merge_sort_Permutation, elem_of_elements. }
  subst found. case_bool_decide as Hself.
  - subst new. rewrite Hreplay, Hset. f_equal.
    apply Hmem in Hself.
    apply set_eq. intros x. rewrite !elem_of_difference, !elem_of_singleton.
    split; [|intros ->; split; [done|]; by intros [_ []]].
    intros [Hx Hn]. destruct (decide (x = self)); [done|]. by destruct Hn.
  - destruct Hents as (ctx & d & Hctx & Hd & ->).
    rewrite getIDs_loop_app, Hreplay, Hset.
    cbn [mbind Go_bind bind getIDs_loop raftpb.Entry_Type raftpb.Data].
    rewrite (Hadd ctx d Hctx Hd). cbn [raftpb.cc_Type raftpb.NodeID].
    rewrite Hmem in Hself. f_equal.
    apply set_eq. intros x.
    rewrite elem_of_union, !elem_of_difference, !elem_of_singleton.
    split; [|by left]. intros [->|[Hx Hn]]; [done|].
    destruct (decide (x = self)); [done|]. by destruct Hn.
Qed.

(** Replaying the log extended by the entries of [createConfigChangeEnts]
    leaves exactly one member: [getIDs] of the extended log is [[self]],
    whatever the membership was before. *)
Theorem standalone_membership (snap : option raftpb.Snapshot)
    (ents new : list raftpb.Entry) (ids : list Z) (self term idx : Z) :
  getIDs snap ents = Ret ids ->
  cce ids self term idx = Ret new ->
  (forall i d, i ∈ ids ->
     ConfChange_Marshal (raftpb.mkConfChange 0 raftpb.ConfChangeRemoveNode i "") = Some d ->
     ConfChange_Unmarshal d =
       Some (raftpb.mkConfChange 0 raftpb.ConfChangeRemoveNode i "")) ->
  (forall ctx d,
     json_Marshal_Member (default_member self) = inl ctx ->
     ConfChange_Marshal (raftpb.mkConfChange 0 raftpb.ConfChangeAddNode self ctx) = Some d ->
     ConfChange_Unmarshal d =
       Some (raftpb.mkConfChange 0 raftpb.ConfChangeAddNode self ctx)) ->
  getIDs snap (ents ++ new) = Ret [self].
Proof.
  unfold getIDs at 1.
  destruct (getIDs_loop ents _) as [S| | |] eqn:HS; try done.
  cbn [mbind Go_bind bind]. intros [= <-] Hc Hrm Hadd.
  unfold getIDs. rewrite getIDs_loop_app, HS. cbn [mbind Go_bind bind].
  rewrite (forced_replay _ _ _ _ _ Hc Hrm Hadd). cbn [mbind Go_bind bind].
  by rewrite elements_singleton.
Qed.

(** [discard_uncommitted] keeps a prefix of the log, and only entries at
    or below the commit index; where the indices of the log increase, what
    it keeps is every committed entry. *)
Theorem discard_uncommitted_prefix (ents : list raftpb.Entry) (commit : Z) :
  discard_uncommitted ents commit `prefix_of` ents /\
  Forall (fun e => raftpb.Index e <= commit) (discard_uncommitted ents commit) /\
  (Sorted (fun a b => raftpb.Index a <= raftpb.Index b) ents ->
   discard_uncommitted ents commit =
     filter (fun e => raftpb.Index e <= commit) ents).
Proof.
  split_and!.
  - induction ents as [|e ents IH]; cbn; [done|].
    destruct (Z.ltb_spec commit (raftpb.Index e)).
    + apply prefix_nil.
    + by apply prefix_cons.
  - induction ents as [|e ents IH]; cbn; [done|].
    destruct (Z.ltb_spec commit (raftpb.Index e)); [done|].
    constructor; [lia|done].
  - intros Hs. apply Sorted_StronglySorted in Hs; [|intros x y z; lia].
    induction Hs as [|e ents Hs IH Hall]; [done|].
    cbn [discard_uncommitted]. rewrite filter_cons.
    destruct (Z.ltb_spec commit (raftpb.Index e)).
    + rewrite decide_False by lia. clear IH Hs.
      induction Hall as [|y ents Hy _ IH]; [done|].
      rewrite filter_cons, decide_False by lia. done.
    + rewrite decide_True by lia. by rewrite IH.
Qed.

(** What [restartAsStandaloneNode] hands to the raft storage: the committed
    part of the old log followed by the entries of
    [createConfigChangeEnts] for the ids of that part. When the forced
    changes decode to what was encoded and the indices do not overflow,
    replaying it leaves [self] as the only member, and unless [self] was
    the only member already, the commit index moves forward past the
    forced entries. *)
Theorem standalone_log_outcome (snap : option raftpb.Snapshot)
    (ents log : list raftpb.Entry) (ids : list Z) (self term commit commit' : Z) :
  standalone_log ConfChange_Marshal json_Marshal_Member
    snap ents self term commit = Ret (log, commit') ->
  getIDs snap (discard_uncommitted ents commit) = Ret ids ->
  (forall i d, i ∈ ids ->
     ConfChange_Marshal (raftpb.mkConfChange 0 raftpb.ConfChangeRemoveNode i "") = Some d ->
     ConfChange_Unmarshal d =
       Some (raftpb.mkConfChange 0 raftpb.ConfChangeRemoveNode i "")) ->
  (forall ctx d,
     json_Marshal_Member (default_member self) = inl ctx ->
     ConfChange_Marshal (raftpb.mkConfChange 0 raftpb.ConfChangeAddNode self ctx) = Some d ->
     ConfChange_Unmarshal d =
       Some (raftpb.mkConfChange 0 raftpb.ConfChangeAddNode self ctx)) ->
  0 <= commit -> commit + Z.of_nat (length ids) + 1 < 2 ^ 64 ->
  (exists new,
     cce ids self term commit = Ret new /\
     log = discard_uncommitted ents commit ++ new) /\
  getIDs snap log = Ret [self] /\
  (ids <> [self] -> commit < commit').
Proof.
  unfold standalone_log. intros Hlog Hids Hrm Hadd H0 Hmax.
  rewrite Hids in Hlog. cbn [mbind Go_bind bind] in Hlog.
  destruct (cce ids self term commit) as [new| | |] eqn:Hc; try done.
  cbn [mbind Go_bind bind] in Hlog. injection Hlog as <- <-.
  split_and!.
  - by exists new.
  - unfold getIDs in Hids |- *.
    destruct (getIDs_loop (discard_uncommitted ents commit) _) as [S| | |] eqn:HS;
      try done.
    cbn [mbind Go_bind bind] in Hids. injection Hids as <-.
    rewrite getIDs_loop_app, HS. cbn [mbind Go_bind bind].
    rewrite (forced_replay _ _ _ _ _ Hc Hrm Hadd). cbn [mbind Go_bind bind].
    by rewrite elements_singleton.
  - intros Hne.
    pose proof (getIDs_NoDup _ _ _ Hids) as Hnd.
    destruct (createConfigChangeEnts_last _ _ _ _ _ Hc H0 Hmax Hnd Hne)
      as (e & He & Hlt).
    by rewrite last_app, He.
Qed.

End standalone_facts.

Lemma getIDs_UpdateNode_panics_witness :
  lone.getIDs (Some lone.snap) (lone.wal ++ [lone.update3]) = Panic.
Proof.
  apply (getIDs_UpdateNode_panics (E:=toy.env) _ _ lone.update3
           (raftpb.mkConfChange 0 raftpb.ConfChangeUpdateNode 3 "")).
  - vm_compute. do 4 right. left.
  - reflexivity.
  - vm_compute. reflexivity.
  - discriminate.
  - discriminate.
Defined.

Lemma getIDs_sorted_witness :
  Sorted Z.le [1; 3; 4] /\ NoDup [1; 3; 4] /\
  (lone.wal = [] ->
   forall i, i ∈ [1; 3; 4] <->
     exists sn, Some lone.snap = Some sn /\
                i ∈ raftpb.Nodes (raftpb.conf_state (raftpb.Metadata sn))).
Proof.
  apply (getIDs_sorted (E:=toy.env) (Some lone.snap) lone.wal [1; 3; 4]).
  vm_compute. reflexivity.
Defined.

Lemma createConfigChangeEnts_shape_witness :
  exists ents,
    lone.createConfigChangeEnts [1; 3; 4] 5 2 5 = Ret ents /\
    length ents = 4%nat /\
    forall (k : nat) (e : raftpb.Entry),
      ents !! k = Some e ->
      raftpb.Entry_Type e = raftpb.EntryConfChange /\
      raftpb.Term e = 2 /\
      raftpb.Index e = 5 + 1 + Z.of_nat k.
Proof.
  eexists. split; [vm_compute; reflexivity|].
  apply (createConfigChangeEnts_shape text.ConfChange_Marshal text.Marshal_Member
           [1; 3; 4] 5 2 5).
  - vm_compute. reflexivity.
  - lia.
  - vm_compute. reflexivity.
Defined.

Lemma standalone_membership_witness :
  exists new,
    lone.createConfigChangeEnts [1; 3; 4] 5 2 5 = Ret new /\
    lone.getIDs (Some lone.snap) (discard_uncommitted lone.wal 5 ++ new) = Ret [5].
Proof.
  eexists. split; [vm_compute; reflexivity|].
  apply (standalone_membership (E:=toy.env) text.ConfChange_Marshal
           text.Marshal_Member _ _ _ [1; 3; 4] 5 2 5).
  - vm_compute. reflexivity.
  - vm_compute. reflexivity.
  - intros i d Hi Hd.
    repeat (apply elem_of_cons in Hi as [->|Hi]);
      [| | |by apply elem_of_nil in Hi];
      vm_compute in Hd; injection Hd as <-; vm_compute; reflexivity.
  - intros ctx d Hctx Hd. vm_compute in Hctx. injection Hctx as <-.
    vm_compute in Hd. injection Hd as <-. vm_compute. reflexivity.
Defined.

Lemma standalone_log_outcome_witness :
  exists log commit',
    lone.standalone_log (Some lone.snap) lone.wal 1 2 5 = Ret (log, commit') /\
    (exists new,
       lone.createConfigChangeEnts [1; 3; 4] 1 2 5 = Ret new /\
       log = discard_uncommitted lone.wal 5 ++ new) /\
    lone.getIDs (Some lone.snap) log = Ret [1] /\
    ([1; 3; 4] <> [1] -> 5 < commit').
Proof.
  do 2 eexists. split; [vm_compute; reflexivity|].
  apply (standalone_log_outcome (E:=toy.env) text.ConfChange_Marshal
           text.Marshal_Member (Some lone.snap) lone.wal _ [1; 3; 4] 1 2 5).
  - vm_compute. reflexivity.
  - vm_compute. reflexivity.
  - intros i d Hi Hd.
    repeat (apply elem_of_cons in Hi as [->|Hi]);
      [| | |by apply elem_of_nil in Hi];
      vm_compute in Hd; injection Hd as <-; vm_compute; reflexivity.
  - intros ctx d Hctx Hd. vm_compute in Hctx. injection Hctx as <-.
    vm_compute in Hd. injection Hd as <-. vm_compute. reflexivity.
  - lia.
  - vm_compute. reflexivity.
Defined.

(** ** Membership requests and incoming messages *)

Section membership_facts.
Context {E : Env}.
Variable ProposeConfChange :
  RaftNode -> raftpb.ConfChange -> RaftNode * option error.
Variable Step : RaftNode -> raftpb.Message -> RaftNode * option error.

(** A membership request whose proposal fails returns the error of the
    proposal whatever the [select] would have taken, and gives back the
    slot it registered: the id has no slot afterwards and no other slot
    changes; the cluster view is untouched and one id is used up. *)
Theorem configure_failed_proposal (s : EtcdServer) (cc : raftpb.ConfChange)
    (ctx_err : option error) (sel : select_case)
    (p : list (wait.pending Value)) (n : RaftNode) (e : error) :
  wait.reachable (w s, p) ->
  ProposeConfChange (Node (r s))
    (with_cc_ID cc (snd (idutil.Next (reqIDGen s)))) = (n, Some e) ->
  exists s',
    configure ProposeConfChange s ctx_err sel cc = Ret (s', Some e) /\
    wait.m (w s') = delete (snd (idutil.Next (reqIDGen s))) (wait.m (w s)) /\
    Node (r s') = n /\ cluster s' = cluster s /\
    reqIDGen s' = fst (idutil.Next (reqIDGen s)).
Proof.
  clear Step. intros Hreach Hprop. unfold configure, configure_propose.
  destruct (idutil.Next (reqIDGen s)) as [g i] eqn:HN. cbn [fst snd] in *.
  cbn [with_cc_ID raftpb.ID set_reqIDGen w].
  pose proof (Register_lookup i (w s)) as Hlk.
  pose proof (Inv_Register i (w s) p (reachable_Inv _ Hreach)) as HI.
  assert (Hm : delete i (wait.m (fst (wait.Register i (w s))))
               = delete i (wait.m (w s))).
  { unfold wait.Register. destruct (wait.m (w s) !! i) eqn:Hi; cbn; [done|].
    by rewrite delete_insert_eq. }
  destruct (wait.Register i (w s)) as [w1 ch]. cbn [fst snd] in *.
  change (r (set_w (set_reqIDGen s g) w1)) with (r s). rewrite Hprop.
  change (w (set_Node (set_w (set_reqIDGen s g) w1) n)) with w1.
  rewrite (Trigger_registered i VNil w1 p ch HI Hlk). cbn.
  eexists. split; [reflexivity|]. cbn. by rewrite Hm.
Qed.

(** A membership request learns the verdict of its own change: once
    [configure] has registered the change id and proposed the change,
    applying the entry that carries this change hands the error of
    [applyConfChange] (or nil) to the slot of the id and removes the slot,
    and the [select] of [configure] on that channel returns exactly that
    error. *)
Theorem configure_gets_verdict (s s0 s1 : EtcdServer) (cc0 cc : raftpb.ConfChange)
    (i : Z) (ch : nat) (p : list (wait.pending Value))
    (cs cs' : raftpb.ConfState) (applied : Z) (stopping : bool)
    (e : raftpb.Entry) (stop : bool) (er ctx_err : option error) :
  wait.reachable (w s, p) ->
  configure_propose ProposeConfChange s cc0 = Ret (s0, inl (i, ch)) ->
  raftpb.Entry_Type e = raftpb.EntryConfChange ->
  ConfChange_Unmarshal (raftpb.Data e) = Some cc ->
  raftpb.ID cc = i ->
  applyConfChange s0 cc cs (raftpb.Index e) = Ret (s1, cs', (stop, er)) ->
  i = snd (idutil.Next (reqIDGen s)) /\
  exists a',
    apply_entry (mkApplyVars s0 cs applied stopping) e = Ret a' /\
    av_shouldstop a' = stop /\ av_confState a' = cs' /\
    wait.m (w (av_server a')) !! i = None /\
    exists s2,
      configure_select (av_server a') i ch ctx_err case_ch = Ret (s2, er).
Proof.
  clear Step. intros Hreach Hprop Hty Hun Hid Happ.
  unfold configure_propose in Hprop.
  destruct (idutil.Next (reqIDGen s)) as [g i0] eqn:HN.
  cbn [with_cc_ID raftpb.ID set_reqIDGen w] in Hprop.
  pose proof (Register_lookup i0 (w s)) as Hlk.
  pose proof (Inv_Register i0 (w s) p (reachable_Inv _ Hreach)) as HI.
  destruct (wait.Register i0 (w s)) as [w1 ch0]. cbn [fst snd] in *.
  destruct (ProposeConfChange _ _) as [n [e0|]].
  { change (w (set_Node (set_w (set_reqIDGen s g) w1) n)) with w1 in Hprop.
    rewrite (Trigger_registered i0 VNil w1 p ch0 HI Hlk) in Hprop. done. }
  injection Hprop as <- <- <-. split; [done|].
  pose proof (applyConfChange_w _ _ _ _ _ _ _ Happ) as Hw.
  cbn [set_Node set_r set_w w] in Hw.
  rewrite <- Hw in HI, Hlk.
  assert (Hlt : (ch0 < length (wait.chans (w s1)))%nat).
  { destruct HI as (Hm & _). eapply lookup_lt_Some, Hm, Hlk. }
  eexists. split.
  { unfold apply_entry. cbn [av_server av_confState]. rewrite Hty, Hun, Happ.
    cbn [mbind Go_bind bind]. rewrite Hid.
    rewrite (Trigger_registered i0 (error_Value er) (w s1) p ch0 HI Hlk).
    cbn [mbind Go_bind bind]. reflexivity. }
  cbn [av_shouldstop av_confState av_server]. split_and!; try done.
  - cbn. apply lookup_delete_eq.
  - eexists. cbn [configure_select set_index_term set_r set_w w].
    unfold wait.recv. cbn [wait.chans wait.m].
    rewrite list_lookup_insert_eq by done. cbn.
    destruct er; reflexivity.
Qed.

(** Once the removal of a member is applied, [Process] refuses every
    message from that member: the consensus node is not stepped, and the
    server is left as it was. *)
Theorem Process_rejects_removed (s s' : EtcdServer) (cc : raftpb.ConfChange)
    (cs cs' : raftpb.ConfState) (idx : Z) (stop : bool) (m : raftpb.Message) :
  applyConfChange s cc cs idx = Ret (s', cs', (stop, None)) ->
  raftpb.cc_Type cc = raftpb.ConfChangeRemoveNode ->
  index (cluster s) < idx ->
  raftpb.From m = raftpb.NodeID cc ->
  Process Step s' m = (s', Some ErrForbidden).
Proof.
  clear ProposeConfChange. intros Happ Hty Hidx Hfrom.
  assert (Hrem : raftpb.NodeID cc ∈ removed (cluster s')).
  { unfold applyConfChange in Happ.
    destruct (ValidateConfigurationChange (cluster s) cc) as [[e|]| | |];
      try done; cbn [mbind Go_bind bind] in Happ;
      destruct (ApplyConfChange _ _) as [n cs0]; [done|].
    rewrite Hty in Happ. unfold RemoveMember in Happ.
    cbn [cluster set_Node set_r] in Happ.
    destruct (store_Delete _ _ _ _) as [st1 [?|?]]; [|done].
    destruct (store_Create _ _ _ _ _ _) as [st2 [?|?]]; [|done].
    rewrite (proj2 (Z.ltb_lt _ _) Hidx) in Happ.
    destruct (members (cluster s) !! raftpb.NodeID cc); [|done].
    cbn [mbind Go_bind bind] in Happ.
    case_bool_decide; injection Happ as <- _ _; cbn; set_solver. }
  unfold Process, IsIDRemoved. rewrite Hfrom.
  by rewrite bool_decide_eq_true_2.
Qed.

End membership_facts.

Lemma configure_failed_proposal_witness :
  exists s' : EtcdServer (E:=toy.env),
    configure (E:=toy.env) ask.ProposeConfChange sample.server0 None case_ch
      ask.unknown
    = Ret (s', Some (ErrOther "unknown configuration change")) /\
    wait.m (w s') =
      delete (snd (idutil.Next (reqIDGen sample.server0)))
        (wait.m (w sample.server0)) /\
    Node (r s') = Node (r sample.server0) /\
    cluster s' = cluster sample.server0 /\
    reqIDGen s' = fst (idutil.Next (reqIDGen sample.server0)).
Proof.
  apply (configure_failed_proposal (E:=toy.env) ask.ProposeConfChange
           sample.server0 ask.unknown None case_ch []
           (Node (r sample.server0)) _ wait.reachable_New).
  reflexivity.
Defined.

(** Member 1 asks to remove member 2, entry 4 carries the change, and the
    request returns without an error. *)
Lemma configure_gets_verdict_witness :
  exists (s0 : EtcdServer (E:=toy.env)) (i : Z) (ch : nat)
         (a' : apply_vars (E:=toy.env)) (s2 : EtcdServer (E:=toy.env)),
    configure_propose (E:=toy.env) ask.ProposeConfChange sample.server0
      ask.remove2 = Ret (s0, inl (i, ch)) /\
    apply_entry (mkApplyVars s0 (raftpb.mkConfState [1; 2]) 3 false) ask.entry
      = Ret a' /\
    wait.m (w (av_server a')) !! i = None /\
    configure_select (av_server a') i ch None case_ch = Ret (s2, None).
Proof.
  epose proof (configure_gets_verdict (E:=toy.env) ask.ProposeConfChange
    sample.server0 _ _ ask.remove2
    (raftpb.mkConfChange 94109696000000001 raftpb.ConfChangeRemoveNode 2 "")
    _ _ [] (raftpb.mkConfState [1; 2]) _ 3 false ask.entry _ None None
    wait.reachable_New eq_refl eq_refl eq_refl eq_refl eq_refl)
    as (_ & a' & Ha & _ & _ & Hslot & s2 & Hsel).
  eexists _, _, _, a', s2. split; [reflexivity|]. by split_and!.
Defined.

(** After entry 4 removed member 2, a message from member 2 is refused. *)
Lemma Process_rejects_removed_witness :
  exists (s' : EtcdServer (E:=toy.env)) (cs' : raftpb.ConfState),
    applyConfChange (E:=toy.env) sample.server0
      (raftpb.mkConfChange 9 raftpb.ConfChangeRemoveNode 2 "")
      (raftpb.mkConfState [1; 2]) 4
    = Ret (s', cs', (false, None)) /\
    Process (E:=toy.env) ask.Step s' ask.from2 = (s', Some ErrForbidden).
Proof.
  eexists _, _. split; [reflexivity|].
  apply (Process_rejects_removed (E:=toy.env) ask.Step sample.server0 _
           (raftpb.mkConfChange 9 raftpb.ConfChangeRemoveNode 2 "")
           (raftpb.mkConfState [1; 2]) _ 4 false ask.from2 eq_refl).
  - reflexivity.
  - vm_compute. reflexivity.
  - reflexivity.
Defined.
